(** * Verification of the Zeroui chat relay (fastapi_server.py)

    A shallow embedding of the components of [fastapi_server.py] that carry
    control flow: the message normaliser [fine_tune_user_message], the
    streaming relay [chat_stream.stream_response], and the endpoints
    [validate_input], [health_check], [get_responses_status],
    [preload_model] and [submit_message].

    Conventions of the embedding.
    - A Python [str] is a [list ascii] (type [str]); literals are written as
      Rocq strings and coerced.  Character classes, case mapping and lengths
      are those of Python on texts of ASCII characters (code points below
      128): whitespace is 0x09-0x0D, 0x1C-0x1F and 0x20, [\w] is a letter, a
      digit or the underscore, and a character is one item of the list.
      Python's classes for the other code points (further whitespace, letters
      and case mappings of other scripts) are not modelled: a statement that
      rests on a character class, on case or on a length is made for texts of
      ASCII characters, with the hypothesis [ascii_text], and says nothing
      about other texts.  Where the code only carries text through, or looks
      for ASCII keywords in it, items above 0x7F pass unchanged.
    - The generator [stream_response] becomes a function from the request and
      a description of what the backend does to the list of chunks yielded.
    - Exceptions are modelled where the source catches them: a [json.loads]
      that raises [json.JSONDecodeError] or, at a limit of the interpreter,
      another exception ([Json.limits]); a [TypeError] or [AttributeError]
      raised on a JSON value of the wrong shape; transport errors of httpx. *)

From Stdlib Require Import String Ascii List Bool Arith Lia ZArith DecimalString.
Import ListNotations.

Open Scope string_scope.
Open Scope list_scope.
Open Scope nat_scope.

(** ** Python strings

    The methods of [str] that the source uses, on texts of ASCII characters:
    the classes and case mappings below are Python's for the code points
    below 128 and leave every other item in no class and unchanged. *)

Definition str := list ascii.

Coercion list_ascii_of_string : string >-> list.

Definition strs (l : list string) : list str := map list_ascii_of_string l.

Module Py.

Definition code (c : ascii) : nat := nat_of_ascii c.

Definition between (lo hi : nat) (c : ascii) : bool :=
  (lo <=? code c) && (code c <=? hi).

(** [str.isspace] on one ASCII character; also the class [\s] of [re]. *)
Definition isspace (c : ascii) : bool :=
  between 9 13 c || between 28 32 c.

(** [str.isupper], [str.isalpha], [str.isalnum] and the like on one ASCII
    character. *)
Definition isupper (c : ascii) : bool := between 65 90 c.
Definition islower (c : ascii) : bool := between 97 122 c.
Definition isalpha (c : ascii) : bool := isupper c || islower c.
Definition isdigit (c : ascii) : bool := between 48 57 c.
Definition isalnum (c : ascii) : bool := isalpha c || isdigit c.

(** The class [\w] of [re]. *)
Definition isword (c : ascii) : bool := isalnum c || Ascii.eqb c "_".

Definition lower_char (c : ascii) : ascii :=
  if isupper c then ascii_of_nat (code c + 32) else c.

Definition upper_char (c : ascii) : ascii :=
  if islower c then ascii_of_nat (code c - 32) else c.

Definition lower (s : str) : str := map lower_char s.

Fixpoint eqb (a b : str) : bool :=
  match a, b with
  | [], [] => true
  | x :: a', y :: b' => Ascii.eqb x y && eqb a' b'
  | _, _ => false
  end.

Fixpoint startswith (p s : str) : bool :=
  match p, s with
  | [], _ => true
  | a :: p', c :: s' => Ascii.eqb a c && startswith p' s'
  | _ :: _, [] => false
  end.

Definition endswith (p s : str) : bool := startswith (rev p) (rev s).

(** [needle in hay] *)
Fixpoint contains (needle hay : str) : bool :=
  startswith needle hay ||
  match hay with
  | [] => false
  | _ :: hay' => contains needle hay'
  end.

Fixpoint lstrip_by (p : ascii -> bool) (s : str) : str :=
  match s with
  | [] => []
  | c :: s' => if p c then lstrip_by p s' else s
  end.

Fixpoint rstrip_by (p : ascii -> bool) (s : str) : str :=
  match s with
  | [] => []
  | c :: s' =>
      match rstrip_by p s' with
      | [] => if p c then [] else [c]
      | r => c :: r
      end
  end.

(** [s.strip()] *)
Definition strip (s : str) : str := rstrip_by isspace (lstrip_by isspace s).

(** [s.rstrip(chars)] *)
Definition rstrip_chars (chars : str) (s : str) : str :=
  rstrip_by (fun c => existsb (Ascii.eqb c) chars) s.

(** [s.split()]: the maximal runs of characters that are not whitespace. *)
Fixpoint split (s : str) : list str :=
  match s with
  | [] => []
  | c :: s' =>
      if isspace c then split s'
      else match s' with
           | [] => [[c]]
           | c' :: _ =>
               if isspace c' then [c] :: split s'
               else match split s' with
                    | t :: ts => (c :: t) :: ts
                    | [] => [[c]]
                    end
           end
  end.

(** [s[-1]] when [s] is not empty. *)
Definition last_char (s : str) : option ascii :=
  match rev s with
  | [] => None
  | c :: _ => Some c
  end.

End Py.

(** The texts on which the classes, the case mapping and the lengths of [Py]
    are Python's: the texts of ASCII characters.  The statements that rest on
    them carry this as a hypothesis. *)
Definition ascii_text (s : str) : bool := forallb (fun c => Py.code c <? 128) s.

(** ** The fragment of [re] used by the normaliser

    The patterns of the source are [\b(w1|...|wn)\b] and
    [\byou\s+are\s+right\b], all under [re.IGNORECASE].  A pattern is a list of
    items; the word boundary after the last item is checked by [match_items]
    and the one before the first item by [match_at].  [\s+] is followed by a
    letter in every pattern, so the greedy run is the only way to match and no
    backtracking is needed. *)

Module Re.

Inductive item : Type :=
| Lit (a : ascii)   (* a lower-case letter, matched case-insensitively *)
| Spaces.           (* \s+ *)

Definition pattern := list item.

Definition word (w : str) : pattern := map Lit w.

Definition starts_word (s : str) : bool :=
  match s with
  | [] => false
  | c :: _ => Py.isword c
  end.

(** [\b] between a character whose word-ness is [prev] and the text [s]. *)
Definition boundary (prev : bool) (s : str) : bool := xorb prev (starts_word s).

Fixpoint span_spaces (s : str) : nat :=
  match s with
  | [] => 0
  | c :: s' => if Py.isspace c then S (span_spaces s') else 0
  end.

(** Length of the match of [p] followed by [\b] at the head of [s]. *)
Fixpoint match_items (p : pattern) (prev : bool) (s : str) : option nat :=
  match p with
  | [] => if boundary prev s then Some 0 else None
  | Lit a :: p' =>
      match s with
      | [] => None
      | c :: s' =>
          if Ascii.eqb (Py.lower_char c) a
          then option_map S (match_items p' (Py.isword c) s')
          else None
      end
  | Spaces :: p' =>
      match span_spaces s with
      | 0 => None
      | S n => option_map (Nat.add (S n)) (match_items p' false (skipn (S n) s))
      end
  end.

Fixpoint first_match (alts : list pattern) (prev : bool) (s : str) : option nat :=
  match alts with
  | [] => None
  | p :: alts' =>
      match match_items p prev s with
      | Some n => Some n
      | None => first_match alts' prev s
      end
  end.

(** A match of [\b(alt1|...|altn)\b] at the head of [s]. *)
Definition match_at (alts : list pattern) (prev : bool) (s : str) : option nat :=
  if boundary prev s then first_match alts prev s else None.

(** [re.sub]: scan from the left, replace each match by [repl] of the matched
  text and resume after it.  [skip] counts the characters of the current
  match still to be passed over. *)
Fixpoint sub_from (alts : list pattern) (repl : str -> str)
         (prev : bool) (skip : nat) (s : str) : str :=
  match s with
  | [] => []
  | c :: s' =>
      match skip with
      | S k => sub_from alts repl (Py.isword c) k s'
      | 0 =>
          match match_at alts prev s with
          | Some (S k) =>
              repl (firstn (S k) s) ++ sub_from alts repl (Py.isword c) k s'
          | _ => c :: sub_from alts repl (Py.isword c) 0 s'
          end
      end
  end.

Definition sub (alts : list pattern) (repl : str -> str) (s : str) : str :=
  sub_from alts repl false 0 s.

(** [re.sub(r'\s+', ' ', s)] *)
Fixpoint collapse_from (in_run : bool) (s : str) : str :=
  match s with
  | [] => []
  | c :: s' =>
      if Py.isspace c
      then (if in_run then collapse_from true s'
            else " "%char :: collapse_from true s')
      else c :: collapse_from false s'
  end.

Definition collapse (s : str) : str := collapse_from false s.

End Re.

(** ** Data model *)

Record Message : Type := mkMessage { role : str; content : str }.

Record ChatRequest : Type :=
  mkChatRequest { model : str; messages : list Message; stream : bool }.

(** ** The normaliser: [fine_tune_user_message] *)

Definition contraction_words : list str :=
  strs ["cant"; "wont"; "dont"; "isnt"; "arent"; "wasnt"; "werent"].

(** [lambda m: m.group(1)[0] + "'" + m.group(1)[1:]] *)
Definition apostrophe (m : str) : str :=
  firstn 1 m ++ "'" ++ skipn 1 m.

Definition fix_contractions (s : str) : str :=
  Re.sub (map Re.word contraction_words) apostrophe s.

Definition you_are_right : Re.pattern :=
  Re.word "you" ++ [Re.Spaces] ++ Re.word "are" ++ [Re.Spaces] ++ Re.word "right".

(** The dictionary [common_fixes], in insertion order. *)
Definition common_fixes : list (Re.pattern * str) :=
  [ (Re.word "teh", "the" : str);
    (Re.word "adn", "and" : str);
    (Re.word "yoru", "your" : str);
    (you_are_right, "you are correct" : str) ].

Definition apply_common_fixes (s : str) : str :=
  fold_left (fun t fx => Re.sub [fst fx] (fun _ => snd fx) t) common_fixes s.

Definition greeting_words : list str :=
  strs ["hi"; "hello"; "help"; "thanks"; "thank"].

Definition question_words : list str :=
  strs ["what"; "how"; "why"; "when"; "where"; "who"; "which"; "can"; "could";
        "should"; "would"; "is"; "are"; "do"; "does"; "did"].

(** Stage 2 of the source: prefix short, vague messages. *)
Definition clarify (t : str) : str :=
  if (length (Py.split t) <? 3) && negb (Py.endswith "?" t) then
    if negb (existsb (fun w => Py.contains w (Py.lower t)) greeting_words) then
      if negb (Py.contains "?" t) then "Please explain: " ++ t else t
    else t
  else t.

(** Stage 3 of the source: questions end with a question mark. *)
Definition question_format (t : str) : str :=
  if existsb (fun w => Py.startswith w (Py.lower t)) question_words
     && negb (Py.endswith "?" t) then
    if negb (Py.endswith "." t) then Py.rstrip_chars ".!" t ++ "?" else t
  else t.

Definition context_keywords : list str :=
  strs ["it"; "this"; "that"; "above"; "previous"; "earlier"; "before"].

(** Stage 4 of the source: the branch on the conversation history ends in
    [pass]. *)
Definition context_stage (conversation_context : option (list Message)) (t : str) : str :=
  match conversation_context with
  | Some ctx =>
      if negb (length ctx =? 0) && (1 <? length ctx) then
        if existsb (fun k => Py.contains k (Py.lower t)) context_keywords
        then t
        else t
      else t
  | None => t
  end.

(** Stage 5 of the source. *)
Definition normalize_whitespace (t : str) : str := Py.strip (Re.collapse t).

(** Stage 6 of the source. *)
Definition capitalize (t : str) : str :=
  match t with
  | [] => t
  | c :: t' =>
      if negb (Py.isupper c) && Py.isalpha c then Py.upper_char c :: t' else t
  end.

(** Stage 7 of the source. *)
Definition sentence_end (t : str) : str :=
  match Py.last_char t with
  | Some c =>
      if Py.isalnum c then
        if negb (existsb (fun w => Py.contains w (Py.lower t)) question_words)
        then t ++ "."
        else t
      else t
  | None => t
  end.

Definition fine_tune_user_message
           (message_content : str) (conversation_context : option (list Message)) : str :=
  match message_content, Py.strip message_content with
  | [], _ | _, [] => message_content
  | _, _ =>
      let t := Py.strip message_content in
      let t := fix_contractions t in
      let t := apply_common_fixes t in
      let t := clarify t in
      let t := question_format t in
      let t := context_stage conversation_context t in
      let t := normalize_whitespace t in
      let t := capitalize t in
      sentence_end t
  end.

(** ** JSON values and [json.loads]

    The Python objects that [json.loads] builds.  A float keeps the text of its
    literal: binary floating point is outside this development.  Two limits of
    the interpreter make [json.loads] raise an exception that is not a
    [json.JSONDecodeError]: the digit limit of the conversion of an integer
    literal ([ValueError]) and the recursion limit ([RecursionError]).  They
    are the [limits] of a call. *)

#[warning="-register-all"]
Inductive json : Type :=
| JNone
| JBool (b : bool)
| JInt (z : Z)
| JFloat (literal : str)
| JStr (s : str)
| JList (items : list json)
| JDict (members : list (str * json)).

Module Json.

Inductive outcome (A : Type) : Type :=
| Parsed (a : A) (rest : str)
| Invalid       (* json.JSONDecodeError *)
| Raises        (* ValueError of an integer literal, or RecursionError *)
| Exhausted.    (* the fuel of the model ran out; [decode_total] excludes it *)
Arguments Parsed {A} a rest.
Arguments Invalid {A}.
Arguments Raises {A}.
Arguments Exhausted {A}.

(** The limits of the interpreter at a call: [sys.get_int_max_str_digits()],
    where 0 stands for no limit, and the number of arrays and objects that can
    be open inside one another before the recursion limit is reached ([None]:
    as many as the text has). *)
Record limits : Type :=
  mkLimits { int_max_str_digits : nat; max_nesting : option nat }.

Definition unlimited : limits := mkLimits 0 None.

(** [int] refuses a literal of [digits] digits: the check is made past 640
    digits only. *)
Definition too_long (lim : limits) (digits : nat) : bool :=
  (640 <? digits) && (0 <? int_max_str_digits lim)
  && (int_max_str_digits lim <? digits).

(** One more array or object may be opened inside [depth] open ones. *)
Definition may_nest (lim : limits) (depth : nat) : bool :=
  match max_nesting lim with
  | Some k => depth <? k
  | None => true
  end.

Definition is_ws (c : ascii) : bool :=
  existsb (Ascii.eqb c) [" "; "009"; "010"; "013"]%char.

Definition skip_ws (s : str) : str := Py.lstrip_by is_ws s.

Fixpoint span_digits (s : str) : nat :=
  match s with
  | [] => 0
  | c :: s' => if Py.isdigit c then S (span_digits s') else 0
  end.

Definition digit_value (c : ascii) : Z := Z.of_nat (Py.code c - 48).

Definition int_of_digits (ds : str) : Z :=
  fold_left (fun acc c => (10 * acc + digit_value c)%Z) ds 0%Z.

Definition has_sign (s : str) : bool :=
  match s with
  | c :: _ => Ascii.eqb c "-"
  | [] => false
  end.

(** The integer part, an optional minus sign then [0] or digits without a
    leading zero: the number of characters it takes. *)
Definition span_int (s : str) : nat :=
  let sign := if has_sign s then 1 else 0 in
  let body := skipn sign s in
  match body with
  | [] => 0
  | c :: _ =>
      if Ascii.eqb c "0" then sign + 1
      else match span_digits body with
           | 0 => 0
           | S n => sign + S n
           end
  end.

(** The optional fraction: a dot and at least one digit. *)
Definition span_frac (s : str) : nat :=
  match s with
  | c :: r =>
      if Ascii.eqb c "." then
        match span_digits r with
        | 0 => 0
        | S n => S (S n)
        end
      else 0
  | [] => 0
  end.

(** The optional exponent: [e] or [E], an optional sign, at least one digit. *)
Definition span_exp (s : str) : nat :=
  match s with
  | e :: r =>
      if Ascii.eqb e "e" || Ascii.eqb e "E" then
        match r with
        | sg :: r' =>
            if Ascii.eqb sg "+" || Ascii.eqb sg "-" then
              match span_digits r' with
              | 0 => 0
              | S n => S (S (S n))
              end
            else match span_digits r with
                 | 0 => 0
                 | S n => S (S n)
                 end
        | [] => 0
        end
      else 0
  | [] => 0
  end.

Definition parse_number (lim : limits) (s : str) : outcome json :=
  match span_int s with
  | 0 => Invalid
  | S n' =>
      let n := S n' in
      let r := skipn n s in
      let f := span_frac r in
      let e := span_exp (skipn f r) in
      match f + e with
      | 0 =>
          if too_long lim (if has_sign s then n' else n) then Raises
          else
            let z := if has_sign s
                     then (- int_of_digits (firstn n' (skipn 1 s)))%Z
                     else int_of_digits (firstn n s) in
            Parsed (JInt z) r
      | S _ => Parsed (JFloat (firstn (n + f + e) s)) (skipn (f + e) r)
      end
  end.

Definition hex_value (c : ascii) : option N :=
  if Py.isdigit c then Some (N.of_nat (Py.code c - 48))
  else if Py.between 97 102 c then Some (N.of_nat (Py.code c - 87))
  else if Py.between 65 70 c then Some (N.of_nat (Py.code c - 55))
  else None.

Definition hex4 (a b c d : ascii) : option N :=
  match hex_value a, hex_value b, hex_value c, hex_value d with
  | Some x, Some y, Some z, Some w => Some (((x * 16 + y) * 16 + z) * 16 + w)%N
  | _, _, _, _ => None
  end.

(** A code point as the bytes of its UTF-8 form. *)
Definition utf8 (n : N) : str :=
  (if n <? 128 then [ascii_of_N n]
   else if n <? 2048 then
     [ascii_of_N (192 + n / 64); ascii_of_N (128 + n mod 64)]
   else if n <? 65536 then
     [ascii_of_N (224 + n / 4096); ascii_of_N (128 + (n / 64) mod 64);
      ascii_of_N (128 + n mod 64)]
   else
     [ascii_of_N (240 + n / 262144); ascii_of_N (128 + (n / 4096) mod 64);
      ascii_of_N (128 + (n / 64) mod 64); ascii_of_N (128 + n mod 64)])%N.

(** The character an escape letter stands for. *)
Definition simple_escape (c : ascii) : option ascii :=
  if Ascii.eqb c "034" then Some "034"%char
  else if Ascii.eqb c "\" then Some "\"%char
  else if Ascii.eqb c "/" then Some "/"%char
  else if Ascii.eqb c "b" then Some "008"%char
  else if Ascii.eqb c "f" then Some "012"%char
  else if Ascii.eqb c "n" then Some "010"%char
  else if Ascii.eqb c "r" then Some "013"%char
  else if Ascii.eqb c "t" then Some "009"%char
  else None.

Definition is_high_surrogate (n : N) : bool := ((55296 <=? n) && (n <=? 56319))%N.
Definition is_low_surrogate (n : N) : bool := ((56320 <=? n) && (n <=? 57343))%N.

Definition prepend (c : str) (o : outcome str) : outcome str :=
  match o with
  | Parsed t rest => Parsed (c ++ t) rest
  | Invalid => Invalid
  | Raises => Raises
  | Exhausted => Exhausted
  end.

(** The low surrogate that the escape at the head of [s] spells after the
    high surrogate [hi], when there is one. *)
Definition low_surrogate (hi : N) (s : str) : option N :=
  match s with
  | bs :: u :: a :: b :: c :: d :: _ =>
      if is_high_surrogate hi && Ascii.eqb bs "\" && Ascii.eqb u "u" then
        match hex4 a b c d with
        | Some lo => if is_low_surrogate lo then Some lo else None
        | None => None
        end
      else None
  | _ => None
  end.

(** The characters of a string literal after its opening quote (strict
    mode: a raw control character is an error). *)
Fixpoint parse_string_body (s : str) : outcome str :=
  match s with
  | [] => Invalid
  | c :: rest =>
      if Ascii.eqb c "034" then Parsed [] rest
      else if Ascii.eqb c "\" then
        match rest with
        | [] => Invalid
        | e :: rest1 =>
            if Ascii.eqb e "u" then
              match rest1 with
              | a :: b :: c2 :: d :: rest2 =>
                  match hex4 a b c2 d with
                  | None => Invalid
                  | Some hi =>
                      match low_surrogate hi rest2, rest2 with
                      | Some lo, _ :: _ :: _ :: _ :: _ :: _ :: rest3 =>
                          prepend (utf8 (65536 + (hi - 55296) * 1024 + (lo - 56320))%N)
                                  (parse_string_body rest3)
                      | _, _ => prepend (utf8 hi) (parse_string_body rest2)
                      end
                  end
              | _ => Invalid
              end
            else
              match simple_escape e with
              | Some x => prepend [x] (parse_string_body rest1)
              | None => Invalid
              end
        end
      else if Py.code c <? 32 then Invalid
      else prepend [c] (parse_string_body rest)
  end.

(** [d[k] = v] on a dictionary kept in insertion order. *)
Fixpoint dict_set (k : str) (v : json) (d : list (str * json)) : list (str * json) :=
  match d with
  | [] => [(k, v)]
  | (k', v') :: d' =>
      if Py.eqb k k' then (k', v) :: d' else (k', v') :: dict_set k v d'
  end.

Fixpoint dict_get (k : str) (d : list (str * json)) : option json :=
  match d with
  | [] => None
  | (k', v) :: d' => if Py.eqb k k' then Some v else dict_get k d'
  end.

(** The constants and the numbers. *)
Definition parse_atom (lim : limits) (s : str) : outcome json :=
  if Py.startswith "null" s then Parsed JNone (skipn 4 s)
  else if Py.startswith "true" s then Parsed (JBool true) (skipn 4 s)
  else if Py.startswith "false" s then Parsed (JBool false) (skipn 5 s)
  else if Py.startswith "NaN" s then Parsed (JFloat "NaN") (skipn 3 s)
  else if Py.startswith "Infinity" s then Parsed (JFloat "Infinity") (skipn 8 s)
  else if Py.startswith "-Infinity" s then Parsed (JFloat "-Infinity") (skipn 9 s)
  else parse_number lim s.

(** Does [s] begin with the character [c]? *)
Definition at_char (c : ascii) (s : str) : bool :=
  match s with
  | x :: _ => Ascii.eqb x c
  | [] => false
  end.

Section Parser.

Variable lim : limits.

(** [depth] counts the arrays and objects that are open around [s]. *)
Fixpoint parse_value (depth fuel : nat) (s : str) : outcome json :=
  match fuel with
  | 0 => Exhausted
  | S fuel' =>
      if at_char "034" s then
        match parse_string_body (skipn 1 s) with
        | Parsed t rest => Parsed (JStr t) rest
        | Invalid => Invalid
        | Raises => Raises
        | Exhausted => Exhausted
        end
      else if at_char "{" s then
        if may_nest lim depth then
          let r := skip_ws (skipn 1 s) in
          if at_char "}" r then Parsed (JDict []) (skipn 1 r)
          else parse_members (S depth) fuel' [] r
        else Raises
      else if at_char "[" s then
        if may_nest lim depth then
          let r := skip_ws (skipn 1 s) in
          if at_char "]" r then Parsed (JList []) (skipn 1 r)
          else parse_items (S depth) fuel' [] r
        else Raises
      else parse_atom lim s
  end

(** The items of an array from the start of an item on. *)
with parse_items (depth fuel : nat) (acc : list json) (s : str) : outcome json :=
  match fuel with
  | 0 => Exhausted
  | S fuel' =>
      match parse_value depth fuel' s with
      | Parsed v rest =>
          let r := skip_ws rest in
          if at_char "," r
          then parse_items depth fuel' (acc ++ [v]) (skip_ws (skipn 1 r))
          else if at_char "]" r then Parsed (JList (acc ++ [v])) (skipn 1 r)
          else Invalid
      | Invalid => Invalid
      | Raises => Raises
      | Exhausted => Exhausted
      end
  end

(** The members of an object from the start of a key on. *)
with parse_members (depth fuel : nat) (acc : list (str * json)) (s : str)
  : outcome json :=
  match fuel with
  | 0 => Exhausted
  | S fuel' =>
      if at_char "034" s then
        match parse_string_body (skipn 1 s) with
        | Parsed k rest =>
            let r := skip_ws rest in
            if at_char ":" r then
              match parse_value depth fuel' (skip_ws (skipn 1 r)) with
              | Parsed v rest' =>
                  let r' := skip_ws rest' in
                  if at_char "," r'
                  then parse_members depth fuel' (dict_set k v acc)
                                     (skip_ws (skipn 1 r'))
                  else if at_char "}" r'
                  then Parsed (JDict (dict_set k v acc)) (skipn 1 r')
                  else Invalid
              | Invalid => Invalid
              | Raises => Raises
              | Exhausted => Exhausted
              end
            else Invalid
        | Invalid => Invalid
        | Raises => Raises
        | Exhausted => Exhausted
        end
      else Invalid
  end.

(** Every call takes at least one character, so this much fuel is never used
    up. *)
Definition loads_fuel (s : str) : nat := 2 * length s + 2.

Definition decode (s : str) : outcome json :=
  match parse_value 0 (loads_fuel s) (skip_ws s) with
  | Parsed v rest =>
      match skip_ws rest with
      | [] => Parsed v []
      | _ :: _ => Invalid
      end
  | Invalid => Invalid
  | Raises => Raises
  | Exhausted => Exhausted
  end.

End Parser.

(** What the call [json.loads(s)] does under the limits [lim]. *)
Inductive response : Type :=
| Value (v : json)
| DecodeError    (* json.JSONDecodeError *)
| OtherError.    (* ValueError or RecursionError *)

Definition call (lim : limits) (s : str) : response :=
  match decode lim s with
  | Parsed v _ => Value v
  | Invalid => DecodeError
  | Raises => OtherError
  | Exhausted => DecodeError
  end.

(** The value of the text [s] as JSON, which is what [json.loads] returns
    where no limit of the interpreter is met; [None] when [s] is not JSON. *)
Definition loads (s : str) : option json :=
  match decode unlimited s with
  | Parsed v _ => Some v
  | _ => None
  end.

End Json.

(** Rocq string literals in this file hold no double quote: [dq s] is [s]
    with every apostrophe read as a double quote. *)
Definition dq (s : str) : str :=
  map (fun c => if Ascii.eqb c "'" then "034"%char else c) s.

(** ** Formatting Python objects: [str] and [repr]

    [float_repr] is the text Python prints for the float that a JSON number
    literal denotes; it is a parameter of the formatting functions. *)

Module Fmt.

Definition int_str (z : Z) : str :=
  list_ascii_of_string (NilZero.string_of_int (Z.to_int z)).

Definition hex_digit (n : nat) : ascii :=
  if n <? 10 then ascii_of_nat (48 + n) else ascii_of_nat (87 + n).

(** One character of [repr] of a string delimited by [quote]. *)
Definition repr_char (quote c : ascii) : str :=
  if Ascii.eqb c quote || Ascii.eqb c "\" then ["\"%char; c]
  else if Ascii.eqb c "009" then "\t"
  else if Ascii.eqb c "010" then "\n"
  else if Ascii.eqb c "013" then "\r"
  else if (Py.code c <? 32) || (Py.code c =? 127)
  then "\x" ++ [hex_digit (Py.code c / 16); hex_digit (Py.code c mod 16)]
  else [c].

Definition str_repr (s : str) : str :=
  let quote : ascii :=
    if existsb (Ascii.eqb "'") s && negb (existsb (Ascii.eqb "034") s)
    then "034"%char else "'"%char in
  [quote] ++ flat_map (repr_char quote) s ++ [quote].

(** [', '.join(parts)] *)
Fixpoint join (parts : list str) : str :=
  match parts with
  | [] => []
  | [p] => p
  | p :: rest => p ++ ", " ++ join rest
  end.

Section Repr.

Variable float_repr : str -> str.

Fixpoint repr (v : json) : str :=
  match v with
  | JNone => "None"
  | JBool true => "True"
  | JBool false => "False"
  | JInt z => int_str z
  | JFloat literal => float_repr literal
  | JStr s => str_repr s
  | JList items => "[" ++ join (map repr items) ++ "]"
  | JDict members =>
    "{" ++ join (map (fun kv => str_repr (fst kv) ++ ": " ++ repr (snd kv)) members)
        ++ "}"
  end.

(** [str(v)], which is what an f-string interpolates. *)
Definition to_str (v : json) : str :=
  match v with
  | JStr s => s
  | _ => repr v
  end.

End Repr.

End Fmt.

(** ** Python operations that can raise *)

Inductive pyexc : Type := TypeError | AttributeError.

Inductive result (A : Type) : Type :=
| Ok (a : A)
| Raise (e : pyexc).
Arguments Ok {A} a.
Arguments Raise {A} e.

Definition bind {A B : Type} (r : result A) (k : A -> result B) : result B :=
  match r with
  | Ok a => k a
  | Raise e => Raise e
  end.

Notation "x <- r ;; k" := (bind r (fun x => k))
  (at level 61, r at next level, right associativity).

Definition json_is_str (s : str) (v : json) : bool :=
  match v with
  | JStr t => Py.eqb s t
  | _ => false
  end.

(** [needle in v] for a string [needle]. *)
Definition py_in (needle : str) (v : json) : result bool :=
  match v with
  | JDict members =>
      Ok (match Json.dict_get needle members with Some _ => true | None => false end)
  | JList items => Ok (existsb (json_is_str needle) items)
  | JStr s => Ok (Py.contains needle s)
  | _ => Raise TypeError
  end.

(** [v.get(key, default)] *)
Definition py_get (v : json) (key : str) (default : json) : result json :=
  match v with
  | JDict members =>
      Ok (match Json.dict_get key members with Some x => x | None => default end)
  | _ => Raise AttributeError
  end.

(** [v.lower()] *)
Definition py_lower (v : json) : result str :=
  match v with
  | JStr s => Ok (Py.lower s)
  | _ => Raise AttributeError
  end.

(** ** The relay: [chat_stream.stream_response] *)

(** The dictionary [ollama_request]. *)
Record OllamaRequest : Type :=
  mkOllamaRequest { o_model : str; o_messages : list Message; o_stream : bool }.

(** What httpx can raise, by the handler that catches it. *)
Inductive exn : Type :=
| TimeoutException
| ConnectError
| OtherException (text : str).   (* any other [Exception]; [text] is [str(e)] *)

(** [await response.aread()] followed by [.decode()]: the text, [None] when the
    bytes do not decode, or an exception of the transport. *)
Inductive body_read : Type :=
| Body (text : option str)
| BodyRaises (e : exn).

(** What the backend does with one request: [client.stream] raises, or a
    response arrives with a status, a body, and the lines that
    [response.aiter_lines()] yields before it ends or raises [failure]. *)
Inductive reply : Type :=
| NoResponse (e : exn)
| Response (status_code : Z) (body : body_read) (lines : list str)
           (failure : option exn).

(** A chunk yielded by the generator: a backend line passed through, or an
    error object produced by the relay.  [detail] is the Python object that
    the f-string interpolates. *)
Inductive chunk : Type :=
| Forwarded (line : str)
| ErrorEvent (detail : json).

Definition newline : str := ["010"%char].

(** The text of a chunk. *)
Definition render (float_repr : str -> str) (c : chunk) : str :=
  match c with
  | Forwarded line => line ++ newline
  | ErrorEvent detail =>
      dq "{'error': '" ++ Fmt.to_str float_repr detail ++ dq "'}" ++ newline
  end.

Definition is_error (c : chunk) : bool :=
  match c with
  | ErrorEvent _ => true
  | Forwarded _ => false
  end.

Definition timeout_guidance (model_name : str) : str :=
  dq "Model loading timeout. The model may be loading for the first time. Please try again in a moment, or check if the model \'"
  ++ model_name ++ dq "\' is properly installed in Ollama.".

Definition install_guidance (model_name : str) : str :=
  dq "Model \'" ++ model_name
  ++ dq "\' not found in Ollama. Please install it using: ollama pull "
  ++ model_name.

(** The conditions of the [if]/[elif] on [error_msg], with Python's
    short-circuit evaluation. *)
Definition is_timeout (error_msg : json) : result bool :=
  a <- py_in "timed out waiting for llama runner" error_msg ;;
  if a then Ok true
  else l <- py_lower error_msg ;; Ok (Py.contains "timeout" l).

Definition is_missing_model (error_msg : json) : result bool :=
  l <- py_lower error_msg ;;
  if Py.contains "model" l then
    l1 <- py_lower error_msg ;;
    if Py.contains "not found" l1 then Ok true
    else l2 <- py_lower error_msg ;; Ok (Py.contains "does not exist" l2)
  else Ok false.

(** The object interpolated into the error line for a backend [error_msg]. *)
Definition translate_error (model_name : str) (error_msg : json) : result json :=
  t <- is_timeout error_msg ;;
  if t then Ok (JStr (timeout_guidance model_name))
  else m <- is_missing_model error_msg ;;
       if m then Ok (JStr (install_guidance model_name))
       else Ok error_msg.

(** What the body of the [async for] does with one non-empty line. *)
Inductive verdict : Type :=
| Pass                (* reaches [yield f"{line}\n"] *)
| Stop (c : chunk)    (* yields an error line and returns *)
| Swallowed.          (* an exception reaches [except Exception: continue] *)

Definition inspect (lim : Json.limits) (model_name line : str) : verdict :=
  match Json.call lim line with
  | Json.DecodeError => Pass   (* caught, then the line is yielded *)
  | Json.OtherError => Swallowed
  | Json.Value line_data =>
      match py_in "error" line_data with
      | Raise _ => Swallowed
      | Ok false => Pass
      | Ok true =>
          match (error_msg <- py_get line_data "error" (JStr "") ;;
                 translate_error model_name error_msg) with
          | Raise _ => Swallowed
          | Ok detail => Stop (ErrorEvent detail)
          end
      end
  end.

Section Relay.

(** The environment: [OLLAMA_BASE_URL], [os.getenv("DEFAULT_MODEL", ...)] and
    the limits of the interpreter. *)
Variable OLLAMA_BASE_URL : str.
Variable DEFAULT_MODEL : str.
Variable json_limits : Json.limits.

Definition resolve_model (model_name : str) : str :=
  match model_name with
  | [] => DEFAULT_MODEL
  | _ =>
      if Py.eqb (Py.strip model_name) "" || Py.eqb (Py.lower model_name) "string"
      then DEFAULT_MODEL
      else Py.strip model_name
  end.

(** The loop [for i, msg in enumerate(request.messages)]; [acc] is
  [fine_tuned_messages] so far. *)
Fixpoint fine_tune_loop (all : list Message) (i : nat) (todo : list Message)
         (acc : list Message) : list Message :=
  match todo with
  | [] => acc
  | msg :: todo' =>
      let out :=
        if Py.eqb (role msg) "user" then
          let conversation_context :=
            if 0 <? i then Some (firstn i all) else None in
          mkMessage (role msg)
                    (fine_tune_user_message (content msg) conversation_context)
        else mkMessage (role msg) (content msg) in
      fine_tune_loop all (S i) todo' (acc ++ [out])
  end.

Definition fine_tuned_messages (request : ChatRequest) : list Message :=
  fine_tune_loop (messages request) 0 (messages request) [].

Definition ollama_request (request : ChatRequest) : OllamaRequest :=
  mkOllamaRequest (resolve_model (model request))
                  (fine_tuned_messages request)
                  (stream request).

(** The three [except] clauses around the backend call. *)
Definition transport_error (e : exn) : chunk :=
  match e with
  | TimeoutException =>
      ErrorEvent (JStr "Request timeout to Ollama. Make sure Ollama is running and responsive.")
  | ConnectError =>
      ErrorEvent (JStr ("Cannot connect to Ollama server at " ++ OLLAMA_BASE_URL
                        ++ ". Make sure Ollama is running."))
  | OtherException text =>
      ErrorEvent (JStr ("Internal server error: " ++ text))
  end.

(** The branch [response.status_code != 200]. *)
Definition error_detail (status_code : Z) (text : option str) : json :=
  let generic := JStr ("Ollama API error: " ++ Fmt.int_str status_code) in
  match text with
  | None => generic
  | Some t =>
      match Json.call json_limits t with
      | Json.Value error_json =>
          match py_get error_json "error" generic with
          | Ok v => v
          | Raise _ => generic
          end
      | Json.DecodeError | Json.OtherError => generic   (* the bare [except] *)
      end
  end.

(** The loop [async for line in response.aiter_lines()]. *)
Fixpoint relay_lines (model_name : str) (lines : list str) (failure : option exn)
  : list chunk :=
  match lines with
  | [] =>
      match failure with
      | None => []
      | Some e => [transport_error e]
      end
  | line :: rest =>
      match line with
      | [] => relay_lines model_name rest failure
      | _ =>
          match inspect json_limits model_name line with
          | Pass => Forwarded line :: relay_lines model_name rest failure
          | Swallowed => relay_lines model_name rest failure
          | Stop c => [c]
          end
      end
  end.

Definition stream_response (backend : OllamaRequest -> reply) (request : ChatRequest)
  : list chunk :=
  let payload := ollama_request request in
  match backend payload with
  | NoResponse e => [transport_error e]
  | Response status_code body lines failure =>
      if negb (status_code =? 200)%Z then
        match body with
        | BodyRaises e => [transport_error e]
        | Body text => [ErrorEvent (error_detail status_code text)]
        end
      else relay_lines (o_model payload) lines failure
  end.

End Relay.

(** ** The other endpoints *)

(** The answer to a request that is awaited as a whole ([client.get],
    [client.post]): an exception, with [str(e)], or a response with its status
    and [response.text]. *)
Inductive answer : Type :=
| Raised (e : exn) (str_e : str)
| Answered (status_code : Z) (text : str).

Record InputValidationRequest : Type :=
  mkInputValidationRequest { message : str; max_length : option Z }.

Record PreloadRequest : Type := mkPreloadRequest { model_name : option str }.

(** A Python dictionary of a response, in insertion order, and the value it
    holds for a key. *)
Definition py_dict (members : list (string * json)) : json :=
  JDict (map (fun kv => (list_ascii_of_string (fst kv), snd kv)) members).

Definition field (key : str) (v : json) : option json :=
  match v with
  | JDict members => Json.dict_get key members
  | _ => None
  end.

(** [validate_input] *)
Definition validate_input (validation_request : InputValidationRequest) : json :=
  let message := message validation_request in
  let max_length :=
    match max_length validation_request with
    | Some n => if (n =? 0)%Z then 10000%Z else n   (* [max_length or 10000] *)
    | None => 10000%Z
    end in
  match message, Py.strip message with
  | [], _ | _, [] =>
      py_dict [("valid", JBool false); ("error", JStr "Input cannot be empty")]
  | _, _ =>
      if (Z.of_nat (length message) >? max_length)%Z then
        py_dict [("valid", JBool false);
                 ("error", JStr ("Input exceeds maximum length of "
                                 ++ Fmt.int_str max_length ++ " characters"));
                 ("current_length", JInt (Z.of_nat (length message)));
                 ("max_length", JInt max_length)]
      else
        py_dict [("valid", JBool true);
                 ("message_length", JInt (Z.of_nat (length message)))]
  end.

Section Endpoints.

Variable OLLAMA_BASE_URL : str.
Variable DEFAULT_MODEL : str.
Variable json_limits : Json.limits.

(** [health_check]; [tags] is the answer to [GET /api/tags]. *)
Definition health_check (tags : answer) : json :=
  match tags with
  | Answered status_code _ =>
      if (status_code =? 200)%Z
      then py_dict [("status", JStr "healthy"); ("ollama_connected", JBool true)]
      else py_dict [("status", JStr "degraded"); ("ollama_connected", JBool false)]
  | Raised _ str_e =>
      py_dict [("status", JStr "unhealthy"); ("ollama_connected", JBool false);
               ("error", JStr str_e)]
  end.

(** [get_responses_status] *)
Definition get_responses_status (tags : answer) : json :=
  match tags with
  | Answered status_code _ =>
      if (status_code =? 200)%Z
      then py_dict [("status", JStr "ready");
                    ("ollama_endpoint", JStr OLLAMA_BASE_URL);
                    ("responses_endpoint", JStr "/api/chat");
                    ("ollama_connected", JBool true)]
      else py_dict [("status", JStr "degraded");
                    ("ollama_endpoint", JStr OLLAMA_BASE_URL);
                    ("responses_endpoint", JStr "/api/chat");
                    ("ollama_connected", JBool false)]
  | Raised _ str_e =>
      py_dict [("status", JStr "unavailable");
               ("ollama_endpoint", JStr OLLAMA_BASE_URL);
               ("responses_endpoint", JStr "/api/chat");
               ("ollama_connected", JBool false);
               ("error", JStr str_e)]
  end.

(** The model that [preload_model] loads:
    [request.model_name if request.model_name else os.getenv(...)]. *)
Definition preload_name (request : PreloadRequest) : str :=
  match model_name request with
  | Some (c :: s) => c :: s
  | Some [] | None => DEFAULT_MODEL
  end.

(** The dictionary [preload_request]. *)
Definition preload_request (request : PreloadRequest) : OllamaRequest :=
  mkOllamaRequest (preload_name request) [mkMessage "user" "test"] false.

(** [preload_model]; [backend] answers [POST /api/chat].  [model_name] is bound
    before anything can raise, so the last handler finds it in [locals()]. *)
Definition preload_model (backend : OllamaRequest -> answer) (request : PreloadRequest)
  : json :=
  let model_name := preload_name request in
  match backend (preload_request request) with
  | Answered status_code error_text =>
      if (status_code =? 200)%Z then
        py_dict [("status", JStr "success");
                 ("model", JStr model_name);
                 ("message", JStr ("Model " ++ model_name ++ " pre-loaded successfully"))]
      else
        py_dict [("status", JStr "error");
                 ("model", JStr model_name);
                 ("error", JStr ("Failed to pre-load model: " ++ error_text))]
  | Raised TimeoutException _ =>
      py_dict [("status", JStr "timeout");
               ("model", JStr model_name);
               ("message", JStr ("Model " ++ model_name
                                 ++ " pre-load timed out, but it may still be loading"))]
  | Raised ConnectError _ =>
      py_dict [("status", JStr "error");
               ("model", JStr model_name);
               ("error", JStr ("Cannot connect to Ollama server at " ++ OLLAMA_BASE_URL))]
  | Raised (OtherException _) str_e =>
      py_dict [("status", JStr "error"); ("model", JStr model_name);
               ("error", JStr str_e)]
  end.

(** [submit_message] awaits [chat_stream] on the same request. *)
Definition submit_message (backend : OllamaRequest -> reply) (request : ChatRequest)
  : list chunk :=
  stream_response OLLAMA_BASE_URL DEFAULT_MODEL json_limits backend request.

End Endpoints.

(** * Properties *)

(** ** Regression examples from the specification *)

Example normalize_whats_the_time :
  fine_tune_user_message "whats the time" None = "Whats the time?".
Proof. vm_compute. reflexivity. Qed.

Example normalize_fix_bug :
  fine_tune_user_message "fix bug" None = "Please explain: fix bug.".
Proof. vm_compute. reflexivity. Qed.

(** ** The prior messages do not matter *)

Lemma context_stage_id : forall ctx t, context_stage ctx t = t.
Proof.
  intros [ctx|] t; unfold context_stage; [|reflexivity].
  repeat match goal with
         | |- (if ?b then _ else _) = _ => destruct b
         end; reflexivity.
Qed.

(** C10. The normaliser's result does not depend on the prior messages: any
    two contexts, absent or not, give the same text, and the stage that looks
    at the context returns its input unchanged. *)
Theorem C10_context_irrelevant :
  (forall ctx t, context_stage ctx t = t) /\
  (forall content ctx1 ctx2,
      fine_tune_user_message content ctx1 = fine_tune_user_message content ctx2).
Proof.
  split; [exact context_stage_id|].
  intros content ctx1 ctx2. unfold fine_tune_user_message.
  rewrite !context_stage_id. reflexivity.
Qed.

(** ** Message preparation *)

(** The prepared form of the message at index [i], in the words of the
    specification. *)
Definition prepared (all : list Message) (i : nat) (msg : Message) : Message :=
  if Py.eqb (role msg) "user" then
    mkMessage (role msg)
              (fine_tune_user_message (content msg)
                 (match i with 0 => None | S _ => Some (firstn i all) end))
  else msg.

Fixpoint mapi_from {A B : Type} (f : nat -> A -> B) (i : nat) (l : list A) : list B :=
  match l with
  | [] => []
  | x :: l' => f i x :: mapi_from f (S i) l'
  end.

Lemma fine_tune_loop_mapi : forall all todo i acc,
    fine_tune_loop all i todo acc = acc ++ mapi_from (prepared all) i todo.
Proof.
  intros all todo; induction todo as [|msg todo IH]; intros i acc;
    cbn [fine_tune_loop mapi_from].
  - now rewrite app_nil_r.
  - rewrite IH, <- app_assoc. cbn [app mapi_from]. do 2 f_equal.
    unfold prepared. destruct (Py.eqb (role msg) _).
    + destruct i; reflexivity.
    + destruct msg; reflexivity.
Qed.

Lemma nth_error_mapi_from : forall {A B} (f : nat -> A -> B) l i k,
    nth_error (mapi_from f i l) k = option_map (f (i + k)) (nth_error l k).
Proof.
  intros A B f l; induction l as [|x l IH]; intros i k; destruct k; simpl; try reflexivity.
  - now rewrite Nat.add_0_r.
  - rewrite IH. now rewrite Nat.add_succ_r.
Qed.

Lemma length_mapi_from : forall {A B} (f : nat -> A -> B) l i,
    length (mapi_from f i l) = length l.
Proof. intros A B f l; induction l; intros; simpl; auto. Qed.

Lemma role_prepared : forall all i msg, role (prepared all i msg) = role msg.
Proof. intros; unfold prepared; destruct (Py.eqb _ _); reflexivity. Qed.

(** C6. The outbound payload has as many messages as the request, in the same
    order and with the same roles; the message at index [i] is the request's
    message with its content normalised against [messages[0:i]] (absent for
    [i = 0]) when its role is [user], and the request's message itself
    otherwise. *)
Theorem C6_message_preparation : forall DEFAULT_MODEL request,
    let out := o_messages (ollama_request DEFAULT_MODEL request) in
    length out = length (messages request) /\
    map role out = map role (messages request) /\
    forall i, nth_error out i =
              option_map (prepared (messages request) i) (nth_error (messages request) i).
Proof.
  intros D request out. subst out. simpl. unfold fine_tuned_messages.
  rewrite fine_tune_loop_mapi. simpl. repeat split.
  - apply length_mapi_from.
  - generalize 0 at 1. generalize (messages request) at 1 as all.
    induction (messages request) as [|m l IH]; intros all n; simpl; [reflexivity|].
    now rewrite role_prepared, IH.
  - intro i. apply nth_error_mapi_from.
Qed.

(** A non-user message is copied and a user message is normalised: the two
    cases of [prepared] spelled out. *)
Lemma prepared_cases : forall all i msg,
    (Py.eqb (role msg) "user" = false -> prepared all i msg = msg) /\
    (Py.eqb (role msg) "user" = true ->
     content (prepared all i msg) =
     fine_tune_user_message (content msg)
       (if 0 <? i then Some (firstn i all) else None)).
Proof.
  intros all i msg; unfold prepared; split; intros ->; [reflexivity|].
  destruct i; reflexivity.
Qed.

(** ** Character facts *)

Lemma ascii_cases : forall (P : ascii -> Prop),
    (forall n, n < 256 -> P (ascii_of_nat n)) -> forall c, P c.
Proof.
  intros P H c. rewrite <- (ascii_nat_embedding c). apply H. apply nat_ascii_bounded.
Qed.

Ltac char_cases c :=
  pattern c; apply ascii_cases;
  let n := fresh "n" in
  let Hn := fresh "Hn" in
  intros n Hn;
  do 256 (destruct n as [|n]; [vm_compute; try tauto; try reflexivity; try discriminate|]);
  exfalso; lia.

Lemma space_not_alnum : forall c, Py.isspace c = true -> Py.isalnum c = false.
Proof. intro c. char_cases c. Qed.

Lemma space_not_word : forall c, Py.isspace c = true -> Py.isword c = false.
Proof. intro c. char_cases c. Qed.

Lemma alnum_word : forall c, Py.isalnum c = true -> Py.isword c = true.
Proof. intros c H. unfold Py.isword. now rewrite H. Qed.

(** ** Facts about [strip], [last_char] and [endswith] *)

Lemma last_char_app1 : forall s c, Py.last_char (s ++ [c]) = Some c.
Proof. intros. unfold Py.last_char. now rewrite rev_app_distr. Qed.

Lemma last_char_nil_inv : forall s, Py.last_char s = None -> s = [].
Proof.
  intros s. destruct s as [|c s] using rev_ind; [reflexivity|].
  now rewrite last_char_app1.
Qed.

Lemma lstrip_by_nil : forall p s, Py.lstrip_by p s = [] -> forallb p s = true.
Proof.
  intros p s; induction s as [|c s IH]; simpl; [reflexivity|].
  destruct (p c); [exact IH|discriminate].
Qed.

Lemma rstrip_by_nil : forall p s, Py.rstrip_by p s = [] -> forallb p s = true.
Proof.
  intros p s; induction s as [|c s IH]; simpl; [reflexivity|].
  destruct (Py.rstrip_by p s); [|discriminate].
  destruct (p c); [intros _; now apply IH|discriminate].
Qed.

Lemma lstrip_by_suffix : forall p s, exists z,
      s = z ++ Py.lstrip_by p s /\ forallb p z = true.
Proof.
  intros p s; induction s as [|c s [z [E F]]]; simpl.
  - now exists [].
  - destruct (p c) eqn:Hc.
    + exists (c :: z). simpl. rewrite Hc, F. now rewrite <- E.
    + now exists [].
Qed.

Lemma strip_nil_spaces : forall s, Py.strip s = [] -> forallb Py.isspace s = true.
Proof.
  intros s H. unfold Py.strip in H. apply rstrip_by_nil in H.
  destruct (lstrip_by_suffix Py.isspace s) as [z [E F]].
  rewrite E, forallb_app, F. exact H.
Qed.

Lemma forallb_last_char : forall p s c,
    forallb p s = true -> Py.last_char s = Some c -> p c = true.
Proof.
  intros p s c H; destruct s as [|x s _] using rev_ind; [discriminate|].
  rewrite last_char_app1. intros [= <-].
  rewrite forallb_app in H. simpl in H.
  apply andb_true_iff in H as [_ H]. now rewrite andb_true_r in H.
Qed.

(** ** The stages of the normaliser as one pipeline *)

Definition pipeline (t : str) : str :=
  sentence_end
    (capitalize
       (normalize_whitespace
          (question_format (clarify (apply_common_fixes (fix_contractions t)))))).

Lemma fine_tune_cases : forall m ctx,
    (fine_tune_user_message m ctx = m /\ Py.strip m = []) \/
    (fine_tune_user_message m ctx = pipeline (Py.strip m) /\ Py.strip m <> []).
Proof.
  intros m ctx. unfold fine_tune_user_message, pipeline.
  rewrite context_stage_id.
  destruct m as [|c m]; [left; split; reflexivity|].
  destruct (Py.strip (c :: m)) eqn:E; [left; split; reflexivity|].
  right; split; [reflexivity|discriminate].
Qed.

(** ** The terminal-punctuation stage *)

Definition ends_alnum (t : str) : bool :=
  match Py.last_char t with
  | Some c => Py.isalnum c
  | None => false
  end.

(** Some interrogative word occurs in [t], case-insensitively, as a substring. *)
Definition mentions_question_word (t : str) : bool :=
  existsb (fun w => Py.contains w (Py.lower t)) question_words.

(** The first whitespace-separated token of [t] is, case-insensitively, one of
    the interrogative words. *)
Definition first_token_is_question (t : str) : bool :=
  match Py.split t with
  | w :: _ => existsb (Py.eqb (Py.lower w)) question_words
  | [] => false
  end.

Lemma sentence_end_unfold : forall t,
    sentence_end t =
    if ends_alnum t && negb (mentions_question_word t) then t ++ "." else t.
Proof.
  intro t. unfold sentence_end, ends_alnum, mentions_question_word.
  destruct (Py.last_char t) as [c|]; [|reflexivity].
  destruct (Py.isalnum c); [|reflexivity].
  destruct (existsb _ question_words); reflexivity.
Qed.

Lemma sentence_end_not_alnum : forall t,
    mentions_question_word (sentence_end t) = false ->
    ends_alnum (sentence_end t) = false.
Proof.
  intros t. rewrite sentence_end_unfold.
  destruct (ends_alnum t) eqn:A; destruct (mentions_question_word t) eqn:Q;
    simpl; try congruence.
  intros _. unfold ends_alnum.
  change (t ++ list_ascii_of_string ".") with (t ++ ["."%char]).
  now rewrite last_char_app1.
Qed.

(** C8 fails on the code: the last stage looks for the interrogative words
    anywhere in the text, not at its start.  The statement [tell me this]
    reaches the stage as [Tell me this], non-empty, ending in a letter, its
    first token no interrogative word, and gets no period, because [is]
    occurs inside [this]. *)
Theorem C8_statement_without_period :
  let r := fine_tune_user_message "tell me this" None in
  r = "Tell me this" /\
  first_token_is_question r = false /\
  ends_alnum r = true /\
  sentence_end "Tell me this" = "Tell me this".
Proof. vm_compute. repeat split. Qed.

(** Where no interrogative word occurs in the result, the result does not end
    in a letter or digit. *)
Lemma plain_result_is_ended : forall m ctx,
    mentions_question_word (fine_tune_user_message m ctx) = false ->
    ends_alnum (fine_tune_user_message m ctx) = false.
Proof.
  intros m ctx. destruct (fine_tune_cases m ctx) as [[-> E]|[-> _]].
  - intros _. unfold ends_alnum. destruct (Py.last_char m) as [c|] eqn:L; [|reflexivity].
    apply space_not_alnum.
    now apply (forallb_last_char _ m); [apply strip_nil_spaces|].
  - apply sentence_end_not_alnum.
Qed.

(** ** The fuel of the JSON parser always suffices *)

(** A parse did not run out of fuel and, when it succeeded, took at least
    one character of [s]. *)
Definition progress {A : Type} (s : str) (o : Json.outcome A) : Prop :=
  match o with
  | Json.Parsed _ r => length r < length s
  | Json.Invalid | Json.Raises => True
  | Json.Exhausted => False
  end.

Lemma progress_mono : forall {A} (s s' : str) (o : Json.outcome A),
    progress s' o -> length s' <= length s -> progress s o.
Proof. intros A s s' [a r| | |] H L; simpl in *; auto. lia. Qed.

Lemma progress_prepend : forall s s' x o,
    progress s' o -> length s' <= length s -> progress s (Json.prepend x o).
Proof. intros s s' x [a r| | |] H L; simpl in *; auto. lia. Qed.

Lemma skip_ws_le : forall s, length (Json.skip_ws s) <= length s.
Proof.
  intros s. unfold Json.skip_ws.
  destruct (lstrip_by_suffix Json.is_ws s) as (z & E & _).
  rewrite E at 2. rewrite length_app. lia.
Qed.

Lemma string_body_progress : forall n s,
    length s <= n -> progress s (Json.parse_string_body s).
Proof.
  induction n as [|n IH]; intros s L.
  - destruct s; [exact I|simpl in L; lia].
  - destruct s as [|c rest]; [exact I|]. simpl in L. cbn [Json.parse_string_body].
    destruct (Ascii.eqb c "034"); [simpl; lia|].
    destruct (Ascii.eqb c "\").
    + destruct rest as [|e rest1]; [exact I|]. simpl in L.
      destruct (Ascii.eqb e "u").
      * destruct rest1 as [|a [|b [|c2 [|d rest2]]]]; try exact I. simpl in L.
        destruct (Json.hex4 a b c2 d); [|exact I].
        assert (R2 : progress (c :: e :: a :: b :: c2 :: d :: rest2)
                       (Json.prepend (Json.utf8 n0) (Json.parse_string_body rest2)))
          by (apply (progress_prepend _ rest2); [apply IH; lia|simpl; lia]).
        destruct (Json.low_surrogate n0 rest2); [|exact R2].
        destruct rest2 as [|x1 [|x2 [|x3 [|x4 [|x5 [|x6 rest3]]]]]]; try exact R2.
        apply (progress_prepend _ rest3); [apply IH; simpl in L; lia|simpl; lia].
      * destruct (Json.simple_escape e); [|exact I].
        apply (progress_prepend _ rest1); [apply IH; lia|simpl; lia].
    + destruct (Py.code c <? 32); [exact I|].
      apply (progress_prepend _ rest); [apply IH; lia|simpl; lia].
Qed.

Lemma string_body_never_raises : forall n s,
    length s <= n -> Json.parse_string_body s <> Json.Raises.
Proof.
  assert (P : forall x o, o <> Json.Raises -> Json.prepend x o <> Json.Raises)
    by (intros x [t r| | |] H; simpl; congruence).
  induction n as [|n IH]; intros s L.
  - destruct s; [discriminate|simpl in L; lia].
  - destruct s as [|c rest]; [discriminate|]. simpl in L. cbn [Json.parse_string_body].
    destruct (Ascii.eqb c "034"); [discriminate|].
    destruct (Ascii.eqb c "\").
    + destruct rest as [|e rest1]; [discriminate|]. simpl in L.
      destruct (Ascii.eqb e "u").
      * destruct rest1 as [|a [|b [|c2 [|d rest2]]]]; try discriminate. simpl in L.
        destruct (Json.hex4 a b c2 d); [|discriminate].
        assert (R2 : Json.prepend (Json.utf8 n0) (Json.parse_string_body rest2)
                     <> Json.Raises) by (apply P, IH; lia).
        destruct (Json.low_surrogate n0 rest2); [|exact R2].
        destruct rest2 as [|x1 [|x2 [|x3 [|x4 [|x5 [|x6 rest3]]]]]]; try exact R2.
        apply P, IH. simpl in L. lia.
      * destruct (Json.simple_escape e); [|discriminate]. apply P, IH. lia.
    + destruct (Py.code c <? 32); [discriminate|]. apply P, IH. lia.
Qed.

Lemma startswith_nonempty : forall p s,
    p <> [] -> Py.startswith p s = true -> s <> [].
Proof. intros [|a p] [|c s] N H; try congruence. discriminate. Qed.

Lemma skipn_shorter : forall (s : str) k, s <> [] -> 0 < k -> length (skipn k s) < length s.
Proof.
  intros s k N K. rewrite length_skipn. destruct s; [congruence|cbn [length]; lia].
Qed.

Lemma atom_progress : forall lim s, progress s (Json.parse_atom lim s).
Proof.
  intros lim s. unfold Json.parse_atom.
  repeat match goal with
         | |- progress _ (if Py.startswith ?p s then _ else _) =>
             destruct (Py.startswith p s) eqn:?;
             [apply skipn_shorter;
              [eapply startswith_nonempty; [|eassumption]; discriminate|lia]|]
         end.
  unfold Json.parse_number.
  destruct (Json.span_int s) as [|n] eqn:E; [exact I|].
  assert (N : s <> []) by (intros ->; discriminate E).
  cbv zeta. destruct (_ + _); unfold progress.
  - destruct (Json.too_long _ _); [exact I|]. now apply skipn_shorter; [|lia].
  - rewrite length_skipn. pose proof (skipn_shorter s (S n) N ltac:(lia)). lia.
Qed.

Lemma at_char_cons : forall c s, Json.at_char c s = true -> exists x s', s = x :: s'.
Proof. intros c [|x s'] H; [discriminate|eauto]. Qed.

Lemma parse_progress : forall lim fuel,
    (forall d s, 2 * length s + 1 <= fuel -> progress s (Json.parse_value lim d fuel s)) /\
    (forall d acc s, 2 * length s + 2 <= fuel ->
                     progress s (Json.parse_items lim d fuel acc s)) /\
    (forall d acc s, 2 * length s + 2 <= fuel ->
                     progress s (Json.parse_members lim d fuel acc s)).
Proof.
  intros lim. induction fuel as [|f (IHV & IHI & IHM)].
  - repeat split; intros; lia.
  - repeat split.
    + intros d s L. cbn [Json.parse_value].
      destruct (Json.at_char "034" s) eqn:Q.
      { destruct (at_char_cons _ _ Q) as (x & s' & ->). change (skipn 1 (x :: s')) with s'.
        pose proof (string_body_progress (length s') s' (le_n _)) as P.
        destruct (Json.parse_string_body s'); simpl in *; auto; lia. }
      destruct (Json.at_char "{" s) eqn:B.
      { destruct (Json.may_nest lim d); [|exact I].
        destruct (at_char_cons _ _ B) as (x & s' & ->). change (skipn 1 (x :: s')) with s'.
        cbv zeta. pose proof (skip_ws_le s') as W. simpl in L.
        destruct (Json.at_char "}" (Json.skip_ws s')).
        - unfold progress. rewrite length_skipn. cbn [length]. lia.
        - apply (progress_mono _ (Json.skip_ws s')); [apply IHM; lia|cbn [length]; lia]. }
      destruct (Json.at_char "[" s) eqn:K.
      { destruct (Json.may_nest lim d); [|exact I].
        destruct (at_char_cons _ _ K) as (x & s' & ->). change (skipn 1 (x :: s')) with s'.
        cbv zeta. pose proof (skip_ws_le s') as W. simpl in L.
        destruct (Json.at_char "]" (Json.skip_ws s')).
        - unfold progress. rewrite length_skipn. cbn [length]. lia.
        - apply (progress_mono _ (Json.skip_ws s')); [apply IHI; lia|cbn [length]; lia]. }
      apply atom_progress.
    + intros d acc s L. cbn [Json.parse_items].
      pose proof (IHV d s ltac:(lia)) as P.
      destruct (Json.parse_value lim d f s) as [v rest| | |]; [|exact I|exact I|exact P].
      unfold progress in P. cbv zeta. pose proof (skip_ws_le rest) as W.
      destruct (Json.at_char "," (Json.skip_ws rest)).
      * pose proof (skip_ws_le (skipn 1 (Json.skip_ws rest))) as W2.
        rewrite length_skipn in W2.
        apply (progress_mono _ (Json.skip_ws (skipn 1 (Json.skip_ws rest))));
          [apply IHI; lia|lia].
      * destruct (Json.at_char "]" (Json.skip_ws rest)); [|exact I].
        unfold progress. rewrite length_skipn. cbn [length]. lia.
    + intros d acc s L. cbn [Json.parse_members].
      destruct (Json.at_char "034" s) eqn:Q; [|exact I].
      destruct (at_char_cons _ _ Q) as (x & s' & ->). change (skipn 1 (x :: s')) with s'.
      simpl in L.
      pose proof (string_body_progress (length s') s' (le_n _)) as P.
      destruct (Json.parse_string_body s') as [k rest| | |]; [|exact I|exact I|exact P].
      unfold progress in P. cbv zeta. pose proof (skip_ws_le rest) as W.
      destruct (Json.at_char ":" (Json.skip_ws rest)); [|exact I].
      pose proof (skip_ws_le (skipn 1 (Json.skip_ws rest))) as W2.
      rewrite length_skipn in W2.
      pose proof (IHV d (Json.skip_ws (skipn 1 (Json.skip_ws rest))) ltac:(lia)) as PV.
      destruct (Json.parse_value lim d f _) as [v rest'| | |]; [|exact I|exact I|exact PV].
      unfold progress in PV. pose proof (skip_ws_le rest') as W3.
      destruct (Json.at_char "," (Json.skip_ws rest')).
      * pose proof (skip_ws_le (skipn 1 (Json.skip_ws rest'))) as W4.
        rewrite length_skipn in W4.
        apply (progress_mono _ (Json.skip_ws (skipn 1 (Json.skip_ws rest'))));
          [apply IHM; lia|cbn [length]; lia].
      * destruct (Json.at_char "}" (Json.skip_ws rest')); [|exact I].
        unfold progress. rewrite length_skipn. cbn [length]. lia.
Qed.

(** The parser always comes to an end: the fuel of [decode] is never used
    up. *)
Theorem decode_total : forall lim s, Json.decode lim s <> Json.Exhausted.
Proof.
  intros lim s. unfold Json.decode, Json.loads_fuel.
  pose proof (skip_ws_le s) as W.
  pose proof (proj1 (parse_progress lim (2 * length s + 2)) 0 (Json.skip_ws s)
                ltac:(lia)) as P.
  destruct (Json.parse_value _ _ _ _) as [v rest| | |];
    [|discriminate|discriminate|destruct P].
  destruct (Json.skip_ws rest); discriminate.
Qed.

(** ** The limits of the interpreter only add exceptions *)

Lemma too_long_unlimited : forall d, Json.too_long Json.unlimited d = false.
Proof. intros d. unfold Json.too_long. cbn. now rewrite andb_false_r. Qed.

(** What a parse under limits gives, the parse without limits gives as well,
    whatever the nesting. *)
Definition agrees (o o' : Json.outcome json) : Prop :=
  match o with
  | Json.Parsed v r => o' = Json.Parsed v r
  | Json.Invalid => o' = Json.Invalid
  | Json.Raises | Json.Exhausted => True
  end.

Lemma agrees_refl : forall o, agrees o o.
Proof. now intros [v r| | |]. Qed.

Lemma atom_agrees : forall lim s,
    agrees (Json.parse_atom lim s) (Json.parse_atom Json.unlimited s).
Proof.
  intros lim s. unfold Json.parse_atom.
  repeat match goal with
         | |- agrees (if ?b then _ else _) _ => destruct b; [reflexivity|]
         end.
  unfold Json.parse_number. destruct (Json.span_int s); [reflexivity|].
  cbv zeta. destruct (_ + _); [|reflexivity].
  rewrite too_long_unlimited. destruct (Json.too_long lim _); [exact I|reflexivity].
Qed.

Lemma parse_agrees : forall lim fuel,
    (forall d d' s, agrees (Json.parse_value lim d fuel s)
                           (Json.parse_value Json.unlimited d' fuel s)) /\
    (forall d d' acc s, agrees (Json.parse_items lim d fuel acc s)
                               (Json.parse_items Json.unlimited d' fuel acc s)) /\
    (forall d d' acc s, agrees (Json.parse_members lim d fuel acc s)
                               (Json.parse_members Json.unlimited d' fuel acc s)).
Proof.
  intros lim. induction fuel as [|f (IHV & IHI & IHM)]; [repeat split; intros; exact I|].
  repeat split.
  - intros d d' s. cbn [Json.parse_value].
    destruct (Json.at_char "034" s); [apply agrees_refl|].
    change (Json.may_nest Json.unlimited d') with true. cbv iota.
    destruct (Json.at_char "{" s).
    { destruct (Json.may_nest lim d); [|exact I]. cbv zeta.
      destruct (Json.at_char "}" _); [reflexivity|apply IHM]. }
    destruct (Json.at_char "[" s).
    { destruct (Json.may_nest lim d); [|exact I]. cbv zeta.
      destruct (Json.at_char "]" _); [reflexivity|apply IHI]. }
    apply atom_agrees.
  - intros d d' acc s. cbn [Json.parse_items].
    pose proof (IHV d d' s) as P.
    destruct (Json.parse_value lim d f s) as [v rest| | |]; try exact I;
      unfold agrees in P; rewrite P; [|reflexivity].
    cbv zeta. destruct (Json.at_char "," _); [apply IHI|].
    destruct (Json.at_char "]" _); reflexivity.
  - intros d d' acc s. cbn [Json.parse_members].
    destruct (Json.at_char "034" s); [|reflexivity].
    destruct (Json.parse_string_body _) as [k rest| | |]; try exact I; [|reflexivity].
    cbv zeta. destruct (Json.at_char ":" _); [|reflexivity].
    pose proof (IHV d d' (Json.skip_ws (skipn 1 (Json.skip_ws rest)))) as P.
    destruct (Json.parse_value lim d f _) as [v rest'| | |]; try exact I;
      unfold agrees in P; rewrite P; [|reflexivity].
    destruct (Json.at_char "," _); [apply IHM|].
    destruct (Json.at_char "}" _); reflexivity.
Qed.

(** A value that a call under limits returns is the value of the text. *)
Lemma call_value_loads : forall lim s v,
    Json.call lim s = Json.Value v -> Json.loads s = Some v.
Proof.
  intros lim s v H. unfold Json.call, Json.loads, Json.decode in *.
  pose proof (proj1 (parse_agrees lim (Json.loads_fuel s)) 0 0 (Json.skip_ws s)) as P.
  destruct (Json.parse_value lim 0 _ _) as [w rest| | |]; try discriminate H.
  unfold agrees in P. rewrite P.
  destruct (Json.skip_ws rest); [|discriminate H]. now injection H as ->.
Qed.

(** A text that is not JSON is not JSON under any limits, unless a limit is
    met first. *)
Lemma call_decode_error_loads : forall lim s,
    Json.call lim s = Json.DecodeError -> Json.loads s = None.
Proof.
  intros lim s H. unfold Json.call in H. pose proof (decode_total lim s) as T.
  unfold Json.loads, Json.decode in *.
  pose proof (proj1 (parse_agrees lim (Json.loads_fuel s)) 0 0 (Json.skip_ws s)) as P.
  destruct (Json.parse_value lim 0 _ _) as [w rest| | |]; try discriminate H;
    try congruence; unfold agrees in P; rewrite P; [|reflexivity].
  destruct (Json.skip_ws rest); [discriminate H|reflexivity].
Qed.

(** ** The relay: model resolution *)

(** The rule of the source, case by case. *)
Lemma resolve_model_rule : forall DEFAULT_MODEL m,
    resolve_model DEFAULT_MODEL m =
    if Py.eqb (Py.strip m) "" || Py.eqb (Py.lower m) "string"
    then DEFAULT_MODEL else Py.strip m.
Proof. intros D [|c m]; reflexivity. Qed.

(** C2 fails on the code: a model name that is the placeholder surrounded by
    whitespace passes the test, which compares before stripping, and is then
    stripped, so the placeholder itself is forwarded. *)
Theorem C2_placeholder_forwarded : forall DEFAULT_MODEL msgs st,
    o_model (ollama_request DEFAULT_MODEL (mkChatRequest " string" msgs st)) = "string".
Proof. reflexivity. Qed.

(** ** The relay: shape of the output *)

Fixpoint error_only_last (out : list chunk) : bool :=
  match out with
  | [] => true
  | [c] => true
  | c :: rest => negb (is_error c) && error_only_last rest
  end.

Lemma error_only_last_cons : forall c out,
    is_error c = false -> error_only_last out = true ->
    error_only_last (c :: out) = true.
Proof. intros c [|d out] Hc H; simpl in *; [reflexivity|]. now rewrite Hc. Qed.

Lemma error_only_last_split : forall out pre c post,
    error_only_last out = true -> out = pre ++ c :: post -> is_error c = true ->
    post = [].
Proof.
  intros out pre; revert out; induction pre as [|p pre IH];
    intros out c post H -> Hc; simpl in H.
  - destruct post; [reflexivity|]. now rewrite Hc in H.
  - destruct (pre ++ c :: post) eqn:E; [now destruct pre|].
    apply andb_true_iff in H as [_ H]. rewrite <- E in H. eapply IH; eauto.
Qed.

Lemma error_only_last_count : forall out,
    error_only_last out = true -> length (filter is_error out) <= 1.
Proof.
  induction out as [|c out IH]; intros H; simpl; [lia|].
  destruct out as [|d out].
  - simpl. destruct (is_error c); simpl; lia.
  - simpl in H. apply andb_true_iff in H as [Hc H].
    apply negb_true_iff in Hc. rewrite Hc. apply IH. exact H.
Qed.

Lemma relay_lines_shape : forall URL lim model_name lines failure,
    error_only_last (relay_lines URL lim model_name lines failure) = true.
Proof.
  intros URL lim mn lines failure; induction lines as [|line rest IH]; simpl.
  - destruct failure; reflexivity.
  - destruct line; [exact IH|].
    destruct (inspect lim mn _); [|reflexivity|exact IH].
    now apply error_only_last_cons.
Qed.

Lemma stream_response_shape : forall URL DEFAULT_MODEL lim backend request,
    error_only_last (stream_response URL DEFAULT_MODEL lim backend request) = true.
Proof.
  intros. unfold stream_response.
  destruct (backend _) as [e|status body lines failure]; [reflexivity|].
  destruct (negb _); [destruct body; reflexivity|apply relay_lines_shape].
Qed.

(** X22. Whatever the backend does, the chunks yielded for a request hold at
    most one error object of the relay, and no chunk follows it. *)
Theorem error_chunk_is_last : forall URL DEFAULT_MODEL lim backend request,
    let out := stream_response URL DEFAULT_MODEL lim backend request in
    length (filter is_error out) <= 1 /\
    forall pre c post, out = pre ++ c :: post -> is_error c = true -> post = [].
Proof.
  intros URL D lim backend request out. split.
  - apply error_only_last_count, stream_response_shape.
  - intros pre c post E Hc.
    eapply error_only_last_split; eauto. apply stream_response_shape.
Qed.

(** The two normal lines and the failing line of the example. *)
Definition example_lines : list str :=
  map dq (strs ["{'message':{'role':'assistant','content':'Hel'},'done':false}";
                "{'message':{'role':'assistant','content':'lo'},'done':false}";
                "{'error':'model xyz not found'}"]).

(** The example of the specification: two normal lines and then a backend
    error line give three lines, the two lines as they are and the error line
    last. *)
Example three_line_example : forall URL DEFAULT_MODEL float_repr msgs st,
    map (render float_repr)
        (stream_response URL DEFAULT_MODEL Json.unlimited
           (fun _ => Response 200 (Body None) example_lines None)
           (mkChatRequest "xyz" msgs st)) =
    [ dq "{'message':{'role':'assistant','content':'Hel'},'done':false}" ++ newline;
      dq "{'message':{'role':'assistant','content':'lo'},'done':false}" ++ newline;
      dq "{'error': 'Model \'xyz\' not found in Ollama. Please install it using: ollama pull xyz'}"
         ++ newline ].
Proof. intros. vm_compute. reflexivity. Qed.

(** The lines that a reader of the stream sees: the text of the chunks, cut
    after each newline. *)
Fixpoint lines_from (cur text : str) : list str :=
  match text with
  | [] => match cur with [] => [] | _ :: _ => [cur] end
  | c :: text' =>
      if Ascii.eqb c "010" then cur :: lines_from [] text'
      else lines_from (cur ++ [c]) text'
  end.

Definition stream_lines (float_repr : str -> str) (out : list chunk) : list str :=
  lines_from [] (flat_map (render float_repr) out).

(** Does the line parse as a JSON object with an [error] key? *)
Definition has_error_key (line : str) : bool :=
  match Json.loads line with
  | Some (JDict members) =>
      match Json.dict_get "error" members with Some _ => true | None => false end
  | _ => false
  end.

(** The backend line [{"error": "x\"}\n{\"error\": \"y"}], whose error text
    holds a quotation mark and a line break. *)
Definition two_faced_line : str := dq "{'error': 'x\'}\n{\'error\': \'y'}".

(** C1 fails on the code: the error text of the backend is interpolated into
    the error line as it is.  For the backend line [two_faced_line] the relay
    yields one chunk, but a reader of the stream sees two lines, each a JSON
    object with an [error] field, and the first of them is not the last line
    of the stream. *)
Theorem C1_two_error_lines : forall URL DEFAULT_MODEL float_repr request,
    let out := stream_response URL DEFAULT_MODEL Json.unlimited
                 (fun _ => Response 200 (Body None) [two_faced_line] None) request in
    length out = 1 /\
    stream_lines float_repr out = [dq "{'error': 'x'}"; dq "{'error': 'y'}"] /\
    forallb has_error_key (stream_lines float_repr out) = true.
Proof. intros. vm_compute. repeat split. Qed.

(** ** The relay: lines that are passed through *)

(** C3 fails on the code: a line that is a JSON number, [true], [false] or
    [null] parses, the membership test on it raises [TypeError], the handler
    around the loop body swallows the exception, and the line is never
    yielded.  The stream of the four scalar lines is empty. *)
Theorem C3_scalar_lines_dropped : forall URL DEFAULT_MODEL lim request,
    stream_response URL DEFAULT_MODEL lim
      (fun _ => Response 200 (Body None) (strs ["5"; "true"; "false"; "null"]) None)
      request = [].
Proof. reflexivity. Qed.

(** Where C3 holds: a line that is not JSON, and a JSON object without an
    [error] key, are yielded as they came, in the order of the backend. *)
Lemma inspect_not_json : forall lim model_name line,
    Json.call lim line = Json.DecodeError -> inspect lim model_name line = Pass.
Proof. intros lim mn line H. unfold inspect. now rewrite H. Qed.

Lemma inspect_no_error_key : forall lim model_name line members,
    Json.call lim line = Json.Value (JDict members) ->
    Json.dict_get "error" members = None ->
    inspect lim model_name line = Pass.
Proof. intros lim mn line d H K. unfold inspect. rewrite H. cbn [py_in]. now rewrite K. Qed.

Lemma relay_lines_pass : forall URL lim model_name lines,
    Forall (fun l => l <> [] /\ inspect lim model_name l = Pass) lines ->
    relay_lines URL lim model_name lines None = map Forwarded lines.
Proof.
  intros URL lim mn lines H. induction H as [|l lines [N P] _ IH]; [reflexivity|].
  cbn [relay_lines map]. destruct l; [congruence|]. now rewrite P, IH.
Qed.

Example pass_through_example : forall URL DEFAULT_MODEL request,
    stream_response URL DEFAULT_MODEL Json.unlimited
      (fun _ => Response 200 (Body None)
                  [dq "{'message': {'content': 'Hi'}, 'done': false}" : str;
                   "not json" : str; [];
                   dq "{'done': true}" : str] None)
      request
    = [Forwarded (dq "{'message': {'content': 'Hi'}, 'done': false}");
       Forwarded "not json";
       Forwarded (dq "{'done': true}")].
Proof. reflexivity. Qed.

(** ** The relay: translation of backend errors *)





(** No line of [pre] ends the stream. *)
Definition no_stop lim (model_name : str) (pre : list str) : Prop :=
  Forall (fun l => forall c, inspect lim model_name l <> Stop c) pre.

Lemma relay_lines_app : forall URL lim model_name pre rest failure,
    no_stop lim model_name pre ->
    relay_lines URL lim model_name (pre ++ rest) failure =
    relay_lines URL lim model_name pre None ++ relay_lines URL lim model_name rest failure.
Proof.
  intros URL lim mn pre rest failure H; induction H as [|l pre Hl _ IH]; [reflexivity|].
  cbn [app relay_lines]. destruct l; [exact IH|].
  destruct (inspect lim mn _) eqn:E; [now rewrite IH| |exact IH].
  now destruct (Hl c).
Qed.

Lemma relay_lines_stop : forall URL lim model_name line post failure c,
    inspect lim model_name line = Stop c ->
    relay_lines URL lim model_name (line :: post) failure = [c].
Proof.
  intros URL lim mn line post failure c E. cbn [relay_lines].
  destruct line; [discriminate E|]. now rewrite E.
Qed.




(** ** The relay: a response that is not a success *)








(** With an unreadable or non-JSON body the generic message is used. *)
Example non_success_generic : forall URL DEFAULT_MODEL lim request,
    map (render (fun l => l))
      (stream_response URL DEFAULT_MODEL lim
         (fun _ => Response 404 (Body (Some ("not found" : str))) [] None) request)
    = [dq "{'error': 'Ollama API error: 404'}" ++ newline].
Proof. reflexivity. Qed.

(** ** The substitutions of the normaliser as a scan over words

    Every pattern of the source begins and ends with a letter and sits between
    two word boundaries, so a match always covers whole words.  The lemmas
    below turn the character-by-character scan [Re.sub_from] into the relation
    [Scan], whose steps are a separator, an untouched word and a replaced
    match. *)

Lemma lower_lower : forall c, Py.lower_char (Py.lower_char c) = Py.lower_char c.
Proof. intro c. char_cases c. Qed.

Lemma isword_lower : forall c, Py.isword (Py.lower_char c) = Py.isword c.
Proof. intro c. char_cases c. Qed.

Lemma isspace_lower : forall c, Py.isspace (Py.lower_char c) = Py.isspace c.
Proof. intro c. char_cases c. Qed.

Definition lit_ok (a : ascii) : bool :=
  Py.isword a && Ascii.eqb (Py.lower_char a) a.

(** Literals are lower-case word characters and [\s+] stands before a
    literal. *)
Fixpoint wf_items (p : Re.pattern) : bool :=
  match p with
  | [] => true
  | Re.Lit a :: p' => lit_ok a && wf_items p'
  | Re.Spaces :: p' =>
      match p' with
      | Re.Lit _ :: _ => wf_items p'
      | _ => false
      end
  end.

Definition wf_pattern (p : Re.pattern) : bool :=
  match p with
  | Re.Lit _ :: _ => wf_items p
  | _ => false
  end.

Definition wf_alts (alts : list Re.pattern) : bool := forallb wf_pattern alts.

Lemma lit_mismatch : forall a c,
    lit_ok a = true -> Py.isword c = false ->
    Ascii.eqb (Py.lower_char c) a = false.
Proof.
  intros a c Ha Hc. destruct (Ascii.eqb_spec (Py.lower_char c) a) as [E|]; [|reflexivity].
  apply andb_true_iff in Ha as [Ha _]. rewrite <- E, isword_lower in Ha. congruence.
Qed.

Lemma lit_match_word : forall a c,
    lit_ok a = true -> Ascii.eqb (Py.lower_char c) a = true -> Py.isword c = true.
Proof.
  intros a c Ha E. destruct (Py.isword c) eqn:W; [reflexivity|].
  now rewrite (lit_mismatch a c Ha W) in E.
Qed.

Lemma wf_pattern_items : forall p, wf_pattern p = true -> wf_items p = true.
Proof. intros [|[a|] p]; simpl; congruence. Qed.

Lemma match_items_nonword : forall p prev c s,
    wf_pattern p = true -> Py.isword c = false ->
    Re.match_items p prev (c :: s) = None.
Proof.
  intros [|[a|] p] prev c s W Hc; try discriminate W.
  simpl in *. apply andb_true_iff in W as [Ha _].
  now rewrite (lit_mismatch a c Ha Hc).
Qed.

Lemma match_items_nil : forall p prev,
    wf_pattern p = true -> Re.match_items p prev [] = None.
Proof. intros [|[a|] p] prev W; try discriminate W. reflexivity. Qed.

Lemma match_items_prev : forall p prev prev' s,
    p <> [] -> Re.match_items p prev s = Re.match_items p prev' s.
Proof. intros [|[a|] p] prev prev' s H; [congruence| |]; reflexivity. Qed.

Lemma first_match_none : forall alts prev s,
    (forall p, In p alts -> Re.match_items p prev s = None) ->
    Re.first_match alts prev s = None.
Proof.
  induction alts as [|p alts IH]; intros prev s H; simpl; [reflexivity|].
  rewrite (H p (or_introl eq_refl)). apply IH. intros q Hq. apply H. now right.
Qed.

Lemma first_match_some : forall alts prev s n,
    Re.first_match alts prev s = Some n ->
    exists p, In p alts /\ Re.match_items p prev s = Some n.
Proof.
  induction alts as [|p alts IH]; intros prev s n H; simpl in H; [discriminate|].
  destruct (Re.match_items p prev s) eqn:E.
  - injection H as <-. exists p. split; [now left|exact E].
  - destruct (IH _ _ _ H) as [q [Hq Eq]]. exists q. split; [now right|exact Eq].
Qed.

Lemma wf_alts_in : forall alts p,
    wf_alts alts = true -> In p alts -> wf_pattern p = true.
Proof. intros alts p W H. unfold wf_alts in W. rewrite forallb_forall in W. auto. Qed.

Lemma match_at_nonword : forall alts prev s,
    wf_alts alts = true -> Re.starts_word s = false -> Re.match_at alts prev s = None.
Proof.
  intros alts prev s W H. unfold Re.match_at.
  destruct (Re.boundary prev s); [|reflexivity].
  apply first_match_none. intros p Hp. pose proof (wf_alts_in _ _ W Hp) as Wp.
  destruct s as [|c s]; [now apply match_items_nil|].
  now apply match_items_nonword.
Qed.

Lemma match_at_inword : forall alts s,
    Re.starts_word s = true -> Re.match_at alts true s = None.
Proof. intros alts s H. unfold Re.match_at, Re.boundary. now rewrite H. Qed.

Lemma match_at_some : forall alts prev s n,
    Re.match_at alts prev s = Some n ->
    Re.boundary prev s = true /\
    exists p, In p alts /\ Re.match_items p prev s = Some n.
Proof.
  intros alts prev s n H. unfold Re.match_at in H.
  destruct (Re.boundary prev s); [|discriminate].
  split; [reflexivity|]. now apply first_match_some.
Qed.

Lemma span_spaces_le : forall s, Re.span_spaces s <= length s.
Proof. induction s as [|c s IH]; simpl; [lia|]. destruct (Py.isspace c); simpl; lia. Qed.

Lemma match_items_spaces : forall p prev s,
    Re.match_items (Re.Spaces :: p) prev s =
    match Re.span_spaces s with
    | 0 => None
    | S n => option_map (Nat.add (S n)) (Re.match_items p false (skipn (S n) s))
    end.
Proof. reflexivity. Qed.

Lemma match_items_lit : forall a p prev c s,
    Re.match_items (Re.Lit a :: p) prev (c :: s) =
    if Ascii.eqb (Py.lower_char c) a
    then option_map S (Re.match_items p (Py.isword c) s)
    else None.
Proof. reflexivity. Qed.

(** A match ends after a word character and before a character that is not
    one. *)
Lemma match_items_end : forall p prev s n,
    wf_items p = true -> (p = [] -> prev = true) ->
    Re.match_items p prev s = Some n ->
    n <= length s /\ Re.starts_word (skipn n s) = false.
Proof.
  induction p as [|[a|] p IH]; intros prev s n W Hp H.
  - simpl in H. rewrite (Hp eq_refl) in H. unfold Re.boundary in H. simpl in H.
    destruct (Re.starts_word s) eqn:E; simpl in H; [discriminate|].
    injection H as <-. split; [lia|exact E].
  - simpl in W. apply andb_true_iff in W as [Ha W].
    destruct s as [|c s]; [discriminate|]. simpl in H.
    destruct (Ascii.eqb (Py.lower_char c) a) eqn:E; [|discriminate].
    destruct (Re.match_items p (Py.isword c) s) as [k|] eqn:M; [|discriminate].
    cbn [option_map] in H. injection H as <-.
    destruct (IH _ _ _ W (fun _ => lit_match_word a c Ha E) M) as [L S'].
    split; [simpl; lia|exact S'].
  - simpl in W. destruct p as [|[b|] p]; try discriminate W.
    rewrite match_items_spaces in H.
    destruct (Re.span_spaces s) as [|k] eqn:Sp; [discriminate|].
    destruct (Re.match_items (Re.Lit b :: p) false (skipn (S k) s)) as [j|] eqn:M;
      [|discriminate].
    cbn [option_map] in H. injection H as <-.
    destruct (IH _ _ _ W ltac:(discriminate) M) as [L S'].
    pose proof (span_spaces_le s) as Ls. rewrite Sp in Ls.
    rewrite length_skipn in L.
    split; [lia|]. rewrite skipn_skipn in S'.
    now replace (S (k + j)) with (j + S k) by lia.
Qed.

Lemma match_items_pos : forall p prev s n,
    wf_pattern p = true -> Re.match_items p prev s = Some n -> exists k, n = S k.
Proof.
  intros [|[a|] p] prev s n W H; try discriminate W.
  destruct s as [|c s]; [discriminate|]. simpl in H.
  destruct (Ascii.eqb _ a); [|discriminate].
  destruct (Re.match_items p _ s) as [k|]; [|discriminate].
  cbn [option_map] in H. injection H as <-. now exists k.
Qed.

(** What a successful [match_at] tells. *)
Lemma match_at_inv : forall alts prev s n,
    wf_alts alts = true -> Re.match_at alts prev s = Some n ->
    prev = false /\ Re.starts_word s = true /\
    (exists k, n = S k) /\ n <= length s /\
    Re.starts_word (skipn n s) = false /\
    exists p, In p alts /\ Re.match_items p false s = Some n.
Proof.
  intros alts prev s n W H.
  destruct (Re.starts_word s) eqn:Sw.
  2:{ now rewrite match_at_nonword in H. }
  destruct prev; [now rewrite match_at_inword in H|].
  destruct (match_at_some _ _ _ _ H) as [_ [p [Hp M]]].
  pose proof (wf_alts_in _ _ W Hp) as Wp.
  destruct (match_items_end p false s n (wf_pattern_items _ Wp)) as [L E];
    [intros ->; discriminate Wp|exact M|].
  repeat split; auto.
  - eapply match_items_pos; eauto.
  - now exists p.
Qed.

(** Steps of the scan. *)
Lemma sub_from_nonword : forall alts repl prev c s,
    wf_alts alts = true -> Py.isword c = false ->
    Re.sub_from alts repl prev 0 (c :: s) = c :: Re.sub_from alts repl false 0 s.
Proof.
  intros alts repl prev c s W Hc. cbn [Re.sub_from].
  rewrite match_at_nonword by (auto; simpl; auto). now rewrite Hc.
Qed.

Lemma sub_from_inword : forall alts repl w s,
    forallb Py.isword w = true ->
    Re.sub_from alts repl true 0 (w ++ s) = w ++ Re.sub_from alts repl true 0 s.
Proof.
  intros alts repl w s; induction w as [|c w IH]; intros H; [reflexivity|].
  simpl in H. apply andb_true_iff in H as [Hc H].
  cbn [app Re.sub_from]. rewrite match_at_inword by (simpl; auto).
  now rewrite Hc, IH.
Qed.

Lemma sub_from_unmatched : forall alts repl w s,
    w <> [] -> forallb Py.isword w = true ->
    Re.match_at alts false (w ++ s) = None ->
    Re.sub_from alts repl false 0 (w ++ s) = w ++ Re.sub_from alts repl true 0 s.
Proof.
  intros alts repl [|c w] s Hw H M; [congruence|].
  simpl in H. apply andb_true_iff in H as [Hc H].
  cbn [app Re.sub_from]. cbn [app] in M. rewrite M, Hc.
  now rewrite sub_from_inword.
Qed.

Lemma sub_from_skip : forall alts repl k s prev,
    k <= length s ->
    exists prev', Re.sub_from alts repl prev k s
                  = Re.sub_from alts repl prev' 0 (skipn k s).
Proof.
  intros alts repl k; induction k as [|k IH]; intros s prev L.
  - now exists prev.
  - destruct s as [|c s]; [simpl in L; lia|]. simpl in L.
    destruct (IH s (Py.isword c) ltac:(lia)) as [prev' E].
    exists prev'. exact E.
Qed.

Lemma sub_from_matched : forall alts repl s n,
    wf_alts alts = true ->
    Re.match_at alts false s = Some n ->
    exists prev', Re.sub_from alts repl false 0 s
                  = repl (firstn n s) ++ Re.sub_from alts repl prev' 0 (skipn n s).
Proof.
  intros alts repl s n W M.
  destruct (match_at_inv _ _ _ _ W M) as (_ & _ & [k ->] & L & _ & _).
  destruct s as [|c s]; [simpl in L; lia|].
  cbn [Re.sub_from]. rewrite M.
  destruct (sub_from_skip alts repl k s (Py.isword c)) as [prev' E];
    [simpl in L; lia|].
  exists prev'. now rewrite E.
Qed.

Lemma sub_from_prev : forall alts repl prev s,
    wf_alts alts = true -> Re.starts_word s = false ->
    Re.sub_from alts repl prev 0 s = Re.sub_from alts repl false 0 s.
Proof.
  intros alts repl prev [|c s] W H; [reflexivity|].
  simpl in H. now rewrite !(sub_from_nonword alts repl _ c s W H).
Qed.

Fixpoint span_word (s : str) : nat :=
  match s with
  | [] => 0
  | c :: s' => if Py.isword c then S (span_word s') else 0
  end.

Lemma span_word_split : forall s,
    forallb Py.isword (firstn (span_word s) s) = true /\
    Re.starts_word (skipn (span_word s) s) = false.
Proof.
  induction s as [|c s [A B]]; simpl; [auto|].
  destruct (Py.isword c) eqn:Hc; simpl; [now rewrite Hc|now rewrite Hc].
Qed.

(** The scan, word by word. *)
Inductive Scan (alts : list Re.pattern) (repl : str -> str) : str -> str -> Prop :=
| Scan_nil : Scan alts repl [] []
| Scan_sep : forall c s o,
    Py.isword c = false -> Scan alts repl s o -> Scan alts repl (c :: s) (c :: o)
| Scan_word : forall w s o,
    w <> [] -> forallb Py.isword w = true -> Re.starts_word s = false ->
    Re.match_at alts false (w ++ s) = None ->
    Scan alts repl s o -> Scan alts repl (w ++ s) (w ++ o)
| Scan_match : forall m s o,
    m <> [] -> Re.match_at alts false (m ++ s) = Some (length m) ->
    Re.starts_word s = false ->
    Scan alts repl s o -> Scan alts repl (m ++ s) (repl m ++ o).

Lemma scan_sub_from : forall alts repl,
    wf_alts alts = true ->
    forall n s, length s <= n ->
                Scan alts repl s (Re.sub_from alts repl false 0 s).
Proof.
  intros alts repl W n; induction n as [|n IH]; intros s L.
  - destruct s; [constructor|simpl in L; lia].
  - destruct s as [|c s]; [constructor|]. simpl in L.
    destruct (Py.isword c) eqn:Hc.
    + destruct (Re.match_at alts false (c :: s)) as [k|] eqn:M.
      * destruct (match_at_inv _ _ _ _ W M) as (_ & _ & [j ->] & Lk & E & _).
        destruct (sub_from_matched alts repl _ _ W M) as [prev' ->].
        rewrite sub_from_prev by auto.
        rewrite <- (firstn_skipn (S j) (c :: s)) at 1.
        apply Scan_match.
        -- discriminate.
        -- rewrite firstn_skipn, length_firstn.
           now replace (Nat.min (S j) (length (c :: s))) with (S j) by lia.
        -- exact E.
        -- apply IH. rewrite length_skipn. simpl. lia.
      * destruct (span_word_split (c :: s)) as [A B].
        remember (span_word (c :: s)) as k eqn:Ek.
        assert (Hk : exists j, k = S j) by (simpl in Ek; rewrite Hc in Ek; eauto).
        destruct Hk as [j ->].
        rewrite <- (firstn_skipn (S j) (c :: s)) in M |- *.
        rewrite sub_from_unmatched by (auto; discriminate).
        rewrite sub_from_prev by auto.
        apply Scan_word; auto; [discriminate|].
        apply IH. rewrite length_skipn. simpl. lia.
    + rewrite sub_from_nonword by auto. apply Scan_sep; auto. apply IH. lia.
Qed.

Lemma scan_sub : forall alts repl s,
    wf_alts alts = true -> Scan alts repl s (Re.sub alts repl s).
Proof. intros. unfold Re.sub. now apply (scan_sub_from alts repl H (length s)). Qed.

(** ** What a pattern looks at *)

(** The literals a pattern begins with, and what follows them. *)
Fixpoint first_word (p : Re.pattern) : str :=
  match p with
  | Re.Lit a :: p' => a :: first_word p'
  | _ => []
  end.

Fixpoint after_word (p : Re.pattern) : Re.pattern :=
  match p with
  | Re.Lit _ :: p' => after_word p'
  | _ => p
  end.

Lemma first_after : forall p, p = Re.word (first_word p) ++ after_word p.
Proof.
  induction p as [|[a|] p IH]; simpl; try reflexivity. now rewrite <- IH.
Qed.

Lemma wf_after : forall p, wf_items p = true -> wf_items (after_word p) = true.
Proof.
  induction p as [|[a|] p IH]; simpl; auto.
  intros H. apply andb_true_iff in H as [_ H]. auto.
Qed.

Lemma starts_word_app : forall w r,
    forallb Py.isword w = true -> Re.starts_word r = false ->
    Re.starts_word (w ++ r) = negb (match w with [] => true | _ => false end).
Proof.
  intros [|c w] r H Hr; simpl; [exact Hr|].
  simpl in H. now apply andb_true_iff in H as [-> _].
Qed.

(** A pattern that matches at the head of the word [w] spells [w]. *)
Lemma match_first_word : forall p prev w r n,
    wf_items p = true -> (p = [] -> prev = true) ->
    forallb Py.isword w = true -> Re.starts_word r = false ->
    Re.match_items p prev (w ++ r) = Some n ->
    Py.lower w = first_word p.
Proof.
  induction p as [|[a|] p IH]; intros prev w r n W Hp Hw Hr M.
  - simpl in M. rewrite (Hp eq_refl) in M. unfold Re.boundary in M.
    rewrite starts_word_app in M by auto.
    destruct w; [reflexivity|discriminate].
  - simpl in W. apply andb_true_iff in W as [Ha W].
    destruct w as [|c w].
    + cbn [app] in M. destruct r as [|c r]; [discriminate|].
      simpl in Hr. rewrite match_items_lit, (lit_mismatch a c Ha Hr) in M.
      discriminate.
    + cbn [app] in M. rewrite match_items_lit in M.
      destruct (Ascii.eqb_spec (Py.lower_char c) a) as [E|]; [|discriminate].
      destruct (Re.match_items p (Py.isword c) (w ++ r)) as [k|] eqn:M'; [|discriminate].
      simpl in Hw. apply andb_true_iff in Hw as [Hc Hw].
      simpl. rewrite E. f_equal.
      exact (IH (Py.isword c) w r k W (fun _ => Hc) Hw Hr M').
  - rewrite match_items_spaces in M.
    destruct w as [|c w]; [reflexivity|].
    simpl in Hw. apply andb_true_iff in Hw as [Hc _].
    simpl in M. destruct (Py.isspace c) eqn:Sc; [|discriminate].
    now rewrite (space_not_word c Sc) in Hc.
Qed.

(** Matching the literals [W] against a word that spells them consumes the
    word. *)
Lemma match_word_consume : forall W tail prev w x,
    forallb lit_ok W = true -> Py.lower w = W ->
    Re.match_items (Re.word W ++ tail) prev (w ++ x) =
    option_map (Nat.add (length w))
               (Re.match_items tail (match w with [] => prev | _ => true end) x).
Proof.
  induction W as [|a W IH]; intros tail prev w x HW E.
  - destruct w; [|discriminate]. simpl. now destruct (Re.match_items tail prev x).
  - destruct w as [|c w]; [discriminate|]. simpl in E. injection E as Ec Ew.
    simpl in HW. apply andb_true_iff in HW as [Ha HW].
    cbn [Re.word map app]. rewrite match_items_lit, Ec, Ascii.eqb_refl.
    change (map Re.Lit W) with (Re.word W). rewrite (IH tail _ w x HW Ew).
    assert (Hc : Py.isword c = true)
      by (apply (lit_match_word a); [auto|rewrite Ec; apply Ascii.eqb_refl]).
    rewrite Hc.
    destruct w; destruct (Re.match_items tail true x); reflexivity.
Qed.

Lemma lower_length : forall s, length (Py.lower s) = length s.
Proof. intros. apply length_map. Qed.

Lemma wf_first_word : forall p, wf_items p = true -> forallb lit_ok (first_word p) = true.
Proof.
  induction p as [|[a|] p IH]; simpl; auto.
  intros H. apply andb_true_iff in H as [-> H]. auto.
Qed.

(** Patterns that are a single word. *)
Definition word_pattern (p : Re.pattern) : bool :=
  match after_word p with [] => true | _ => false end.

Lemma str_eqb_spec : forall a b, reflect (a = b) (Py.eqb a b).
Proof.
  induction a as [|x a IH]; intros [|y b]; simpl; try (constructor; congruence).
  destruct (Ascii.eqb_spec x y) as [->|N]; simpl.
  - destruct (IH b) as [->|N]; constructor; congruence.
  - constructor; congruence.
Qed.

(** A single-word pattern at the head of a word only looks at that word. *)
Lemma match_word_pattern : forall p w x,
    wf_pattern p = true -> word_pattern p = true ->
    w <> [] -> forallb Py.isword w = true -> Re.starts_word x = false ->
    Re.match_items p false (w ++ x) =
    if Py.eqb (Py.lower w) (first_word p) then Some (length w) else None.
Proof.
  intros p w x Wp Sp Hw Hww Hx.
  pose proof (wf_pattern_items _ Wp) as Wi.
  destruct (str_eqb_spec (Py.lower w) (first_word p)) as [E|N].
  - rewrite (first_after p) at 1. unfold word_pattern in Sp.
    destruct (after_word p); [|discriminate].
    rewrite (match_word_consume _ [] false w x (wf_first_word _ Wi) E).
    destruct w; [congruence|]. simpl. unfold Re.boundary. rewrite Hx. simpl.
    now rewrite Nat.add_0_r.
  - destruct (Re.match_items p false (w ++ x)) eqn:M; [|reflexivity].
    exfalso. apply N.
    apply (match_first_word p false w x n Wi); auto.
    intros ->. discriminate.
Qed.

Definition word_alts (alts : list Re.pattern) : bool :=
  forallb (fun p => wf_pattern p && word_pattern p) alts.

Lemma word_alts_wf : forall alts, word_alts alts = true -> wf_alts alts = true.
Proof.
  intros alts H. unfold word_alts in H. unfold wf_alts.
  rewrite forallb_forall in *. intros p Hp.
  apply H in Hp. now apply andb_true_iff in Hp as [? _].
Qed.
(** ** The shape of a matched text *)

Inductive Matches : Re.pattern -> str -> Prop :=
| Matches_nil : Matches [] []
| Matches_lit : forall a p c m,
    Py.lower_char c = a -> Matches p m -> Matches (Re.Lit a :: p) (c :: m)
| Matches_spaces : forall p sp m,
    sp <> [] -> forallb Py.isspace sp = true -> Matches p m ->
    Matches (Re.Spaces :: p) (sp ++ m).

Lemma firstn_add : forall {A} (a b : nat) (l : list A),
    firstn (a + b) l = firstn a l ++ firstn b (skipn a l).
Proof.
  intros A a; induction a as [|a IH]; intros b l; [reflexivity|].
  destruct l as [|x l]; simpl; [now rewrite firstn_nil|]. now rewrite IH.
Qed.

Lemma span_spaces_firstn : forall s,
    forallb Py.isspace (firstn (Re.span_spaces s) s) = true.
Proof.
  induction s as [|c s IH]; simpl; [reflexivity|].
  destruct (Py.isspace c) eqn:E; simpl; [now rewrite E|reflexivity].
Qed.

Lemma match_items_matches : forall p prev s n,
    Re.match_items p prev s = Some n -> Matches p (firstn n s).
Proof.
  induction p as [|[a|] p IH]; intros prev s n M.
  - simpl in M. destruct (Re.boundary prev s); [|discriminate].
    injection M as <-. constructor.
  - destruct s as [|c s]; [discriminate|]. rewrite match_items_lit in M.
    destruct (Ascii.eqb_spec (Py.lower_char c) a) as [E|]; [|discriminate].
    destruct (Re.match_items p (Py.isword c) s) as [k|] eqn:M'; [|discriminate].
    cbn [option_map] in M. injection M as <-. cbn [firstn].
    constructor; eauto.
  - rewrite match_items_spaces in M.
    destruct (Re.span_spaces s) as [|j] eqn:Sp; [discriminate|].
    destruct (Re.match_items p false (skipn (S j) s)) as [k|] eqn:M'; [|discriminate].
    cbn [option_map] in M. injection M as <-.
    rewrite (firstn_add (S j) k s : firstn (S (j + k)) s = _). constructor; eauto.
    + pose proof (span_spaces_le s) as L. rewrite Sp in L.
      destruct s; [simpl in L; lia|discriminate].
    + rewrite <- Sp. apply span_spaces_firstn.
Qed.

Lemma firstn_length_app : forall {A} (m s : list A), firstn (length m) (m ++ s) = m.
Proof.
  intros. rewrite firstn_app, Nat.sub_diag, firstn_all. simpl. apply app_nil_r.
Qed.

Lemma skipn_length_app : forall {A} (m s : list A), skipn (length m) (m ++ s) = s.
Proof.
  intros. rewrite skipn_app, Nat.sub_diag, skipn_all. reflexivity.
Qed.

Lemma match_at_matches : forall alts m s,
    wf_alts alts = true ->
    Re.match_at alts false (m ++ s) = Some (length m) ->
    exists p, In p alts /\ Matches p m.
Proof.
  intros alts m s W M.
  destruct (match_at_inv _ _ _ _ W M) as (_ & _ & _ & _ & _ & p & Hp & Mp).
  exists p. split; [exact Hp|].
  apply match_items_matches in Mp. now rewrite firstn_length_app in Mp.
Qed.

Definition ends_in_word (s : str) : bool :=
  match Py.last_char s with
  | Some c => Py.isword c
  | None => false
  end.

Lemma last_char_app : forall x y, y <> [] -> Py.last_char (x ++ y) = Py.last_char y.
Proof.
  intros x y H. unfold Py.last_char. rewrite rev_app_distr.
  destruct (rev y) eqn:E; [|reflexivity].
  apply (f_equal (@rev ascii)) in E. rewrite rev_involutive in E. now destruct H.
Qed.

Lemma last_char_cons : forall c y, y <> [] -> Py.last_char (c :: y) = Py.last_char y.
Proof. intros c y H. now apply (last_char_app [c] y). Qed.

Lemma matches_nonempty : forall p m, Matches p m -> p <> [] -> m <> [].
Proof.
  intros p m H; induction H; intros N; try congruence.
  intros E. apply app_eq_nil in E as [E _]. congruence.
Qed.

Lemma matches_ends_in_word : forall p m,
    Matches p m -> wf_items p = true -> p <> [] -> ends_in_word m = true.
Proof.
  intros p m H; induction H as [|a p c m E H IH|p sp m Hsp Hall H IH]; intros W N.
  - congruence.
  - simpl in W. apply andb_true_iff in W as [Ha W].
    destruct p as [|i p].
    + inversion H; subst. unfold ends_in_word. simpl.
      apply (lit_match_word (Py.lower_char c)); [exact Ha|apply Ascii.eqb_refl].
    + unfold ends_in_word in *.
      rewrite last_char_cons by (eapply matches_nonempty; eauto; discriminate).
      apply IH; [exact W|discriminate].
  - simpl in W. destruct p as [|[b|] p]; try discriminate W.
    unfold ends_in_word in *.
    rewrite last_char_app by (eapply matches_nonempty; eauto; discriminate).
    apply IH; [exact W|discriminate].
Qed.

Lemma matches_word : forall p m,
    Matches p m -> word_pattern p = true -> Py.lower m = first_word p.
Proof.
  intros p m H; induction H as [|a p c m E H IH|p sp m Hsp Hall H IH]; intros W.
  - reflexivity.
  - simpl. rewrite E. f_equal. apply IH. exact W.
  - discriminate W.
Qed.

(** ** Counting whitespace-separated tokens *)

(** The number of tokens of [s.split()], where [fresh] tells that the text is
    at its start or follows whitespace. *)
Fixpoint tokens_from (fresh : bool) (s : str) : nat :=
  match s with
  | [] => 0
  | c :: s' =>
      if Py.isspace c then tokens_from true s'
      else (if fresh then 1 else 0) + tokens_from false s'
  end.

Definition starts_space (s : str) : bool :=
  match s with
  | [] => false
  | c :: _ => Py.isspace c
  end.

Lemma tokens_from_split : forall s,
    length (Py.split s) = tokens_from true s /\
    (match s with [] => true | c :: _ => Py.isspace c end = true ->
     tokens_from false s = tokens_from true s) /\
    (match s with [] => true | c :: _ => Py.isspace c end = false ->
     tokens_from true s = S (tokens_from false s)).
Proof.
  induction s as [|c s (IH1 & IH2 & IH3)]; [simpl; repeat split; congruence|].
  cbn [Py.split tokens_from].
  destruct (Py.isspace c) eqn:Sc.
  - repeat split; auto; discriminate.
  - split; [|split; [discriminate|reflexivity]].
    destruct s as [|c' s']; [reflexivity|].
    destruct (Py.isspace c') eqn:Sc'.
    + cbn [length]. rewrite IH1. simpl. f_equal. symmetry. now apply IH2.
    + specialize (IH3 eq_refl). rewrite IH3 in IH1.
      destruct (Py.split (c' :: s')) as [|t ts]; [discriminate IH1|].
      simpl in IH1. simpl. lia.
Qed.

Lemma split_count : forall s, length (Py.split s) = tokens_from true s.
Proof. intros. apply tokens_from_split. Qed.

Definition fresh_after (fresh : bool) (x : str) : bool :=
  match Py.last_char x with
  | Some c => Py.isspace c
  | None => fresh
  end.

Lemma tokens_from_app : forall x y fresh,
    tokens_from fresh (x ++ y) = tokens_from fresh x + tokens_from (fresh_after fresh x) y.
Proof.
  induction x as [|c x IH]; intros y fresh; [reflexivity|].
  cbn [app tokens_from]. rewrite !IH.
  assert (F : forall f, fresh_after f x = fresh_after fresh (c :: x) \/ x = []).
  { intros f. destruct x as [|d x]; [now right|left].
    unfold fresh_after. rewrite (last_char_cons c (d :: x)) by discriminate.
    destruct (Py.last_char (d :: x)) eqn:L; [reflexivity|].
    now apply last_char_nil_inv in L. }
  destruct (Py.isspace c) eqn:Sc.
  - destruct (F true) as [-> | ->]; [reflexivity|].
    unfold fresh_after. simpl. rewrite Sc. reflexivity.
  - destruct (F false) as [-> | ->]; [lia|].
    unfold fresh_after. simpl. rewrite Sc. simpl. lia.
Qed.

Lemma fresh_after_word : forall fresh x, ends_in_word x = true -> fresh_after fresh x = false.
Proof.
  intros fresh x H. unfold ends_in_word, fresh_after in *.
  destruct (Py.last_char x) as [c|]; [|discriminate].
  destruct (Py.isspace c) eqn:Sc; [|reflexivity].
  now rewrite (space_not_word c Sc) in H.
Qed.

Lemma tokens_from_nonspace : forall x fresh,
    x <> [] -> forallb (fun c => negb (Py.isspace c)) x = true ->
    tokens_from fresh x = if fresh then 1 else 0.
Proof.
  induction x as [|c x IH]; intros fresh N H; [congruence|].
  simpl in H. apply andb_true_iff in H as [Hc H]. apply negb_true_iff in Hc.
  simpl. rewrite Hc. destruct x as [|d x]; [simpl; lia|].
  rewrite IH by (auto; discriminate). lia.
Qed.

Lemma tokens_from_spaces : forall sp y fresh,
    sp <> [] -> forallb Py.isspace sp = true ->
    tokens_from fresh (sp ++ y) = tokens_from true y.
Proof.
  induction sp as [|c sp IH]; intros y fresh N H; [congruence|].
  simpl in H. apply andb_true_iff in H as [Hc H].
  cbn [app tokens_from]. rewrite Hc.
  destruct sp as [|d sp]; [reflexivity|]. apply IH; [discriminate|exact H].
Qed.

(** The number of tokens a match of [p] spans. *)
Fixpoint pattern_tokens (fresh : bool) (p : Re.pattern) : nat :=
  match p with
  | [] => 0
  | Re.Lit _ :: p' => (if fresh then 1 else 0) + pattern_tokens false p'
  | Re.Spaces :: p' => pattern_tokens true p'
  end.

Lemma matches_tokens : forall p m,
    Matches p m -> wf_items p = true ->
    forall fresh, tokens_from fresh m = pattern_tokens fresh p.
Proof.
  intros p m H; induction H as [|a p c m E H IH|p sp m Hsp Hall H IH]; intros W fresh.
  - reflexivity.
  - simpl in W. apply andb_true_iff in W as [Ha W].
    assert (Hc : Py.isword c = true)
      by (apply (lit_match_word a); [auto|rewrite E; apply Ascii.eqb_refl]).
    simpl. destruct (Py.isspace c) eqn:Sc.
    + now rewrite (space_not_word c Sc) in Hc.
    + now rewrite IH.
  - simpl in W. destruct p as [|[b|] p]; try discriminate W.
    rewrite tokens_from_spaces by auto. now apply IH.
Qed.
(** ** What a substitution preserves *)

(** The replacement of a match ends in a word character and spans as many
    tokens as the match. *)
Record repl_ok (alts : list Re.pattern) (repl : str -> str) : Prop :=
  { ok_wf : wf_alts alts = true;
    ok_end : forall p m, In p alts -> Matches p m -> ends_in_word (repl m) = true;
    ok_tokens : forall p m fresh,
        In p alts -> Matches p m ->
        tokens_from fresh (repl m) = pattern_tokens fresh p }.

(** The last character when it is not a word character. *)
Definition end_mark (s : str) : option ascii :=
  match Py.last_char s with
  | Some c => if Py.isword c then None else Some c
  | None => None
  end.

Lemma end_mark_app : forall x y, y <> [] -> end_mark (x ++ y) = end_mark y.
Proof. intros. unfold end_mark. now rewrite last_char_app. Qed.

Lemma end_mark_word : forall x, ends_in_word x = true -> end_mark x = None.
Proof.
  intros x H. unfold end_mark, ends_in_word in *.
  destruct (Py.last_char x); [now rewrite H|reflexivity].
Qed.

Lemma ends_in_word_nonempty : forall x, ends_in_word x = true -> x <> [].
Proof. intros x H ->. discriminate H. Qed.

Lemma forallb_word_ends : forall w,
    w <> [] -> forallb Py.isword w = true -> ends_in_word w = true.
Proof.
  intros w N H. unfold ends_in_word.
  destruct (Py.last_char w) as [c|] eqn:L.
  - eapply forallb_last_char; eauto.
  - now apply last_char_nil_inv in L.
Qed.

Lemma wf_in_items : forall alts p,
    wf_alts alts = true -> In p alts -> wf_items p = true /\ p <> [].
Proof.
  intros alts p W H. pose proof (wf_alts_in _ _ W H) as Wp.
  split; [now apply wf_pattern_items|]. intros ->. discriminate Wp.
Qed.

Lemma scan_end_mark : forall alts repl s o,
    repl_ok alts repl -> Scan alts repl s o ->
    (s = [] <-> o = []) /\ end_mark o = end_mark s.
Proof.
  intros alts repl s o OK H.
  induction H as [|c s o Hc H [IHn IHe]|w s o Hw Hall Hs M H [IHn IHe]
                  |m s o Hm M Hs H [IHn IHe]].
  - split; [tauto|reflexivity].
  - split; [split; discriminate|].
    destruct s as [|d s].
    + now rewrite (proj1 IHn eq_refl).
    + assert (o <> []) by (intros E; apply IHn in E; discriminate).
      change (end_mark ([c] ++ o) = end_mark ([c] ++ d :: s)).
      rewrite !end_mark_app by (auto; discriminate). exact IHe.
  - split.
    + split; intros E; apply app_eq_nil in E as [E _]; congruence.
    + destruct s as [|d s].
      * now rewrite (proj1 IHn eq_refl).
      * assert (o <> []) by (intros E; apply IHn in E; discriminate).
        rewrite !end_mark_app by (auto; discriminate). exact IHe.
  - destruct (match_at_matches _ _ _ (ok_wf _ _ OK) M) as (p & Hp & Mp).
    destruct (wf_in_items _ _ (ok_wf _ _ OK) Hp) as [Wp Np].
    pose proof (ok_end _ _ OK p m Hp Mp) as Er.
    pose proof (matches_ends_in_word p m Mp Wp Np) as Em.
    split.
    + split; intros E; apply app_eq_nil in E as [E _]; [congruence|].
      now apply ends_in_word_nonempty in Er.
    + destruct s as [|d s].
      * rewrite (proj1 IHn eq_refl), !app_nil_r.
        now rewrite !end_mark_word.
      * assert (o <> []) by (intros E; apply IHn in E; discriminate).
        rewrite !end_mark_app by (auto; discriminate). exact IHe.
Qed.

Lemma scan_tokens : forall alts repl s o,
    repl_ok alts repl -> Scan alts repl s o ->
    forall fresh, tokens_from fresh o = tokens_from fresh s.
Proof.
  intros alts repl s o OK H.
  induction H as [|c s o Hc H IH|w s o Hw Hall Hs M H IH|m s o Hm M Hs H IH];
    intros fresh.
  - reflexivity.
  - simpl. now rewrite !IH.
  - now rewrite !tokens_from_app, IH.
  - destruct (match_at_matches _ _ _ (ok_wf _ _ OK) M) as (p & Hp & Mp).
    destruct (wf_in_items _ _ (ok_wf _ _ OK) Hp) as [Wp Np].
    rewrite !tokens_from_app, IH.
    rewrite (ok_tokens _ _ OK p m fresh Hp Mp), (matches_tokens p m Mp Wp).
    rewrite !fresh_after_word; auto.
    + eapply matches_ends_in_word; eauto.
    + eapply ok_end; eauto.
Qed.

(** A word at the head of the text that no alternative spells stays. *)
Definition spelled_by (alts : list Re.pattern) (q : str) : bool :=
  existsb (fun p => Py.eqb (first_word p) q) alts.

Lemma sub_keeps_head_word : forall alts repl w r,
    wf_alts alts = true -> w <> [] -> forallb Py.isword w = true ->
    Re.starts_word r = false -> spelled_by alts (Py.lower w) = false ->
    exists r', Re.sub alts repl (w ++ r) = w ++ r' /\ Re.starts_word r' = false.
Proof.
  intros alts repl w r W Hw Hall Hr Hq.
  assert (M : Re.match_at alts false (w ++ r) = None).
  { destruct (Re.match_at alts false (w ++ r)) as [n|] eqn:M; [|reflexivity].
    destruct (match_at_inv _ _ _ _ W M) as (_ & _ & _ & _ & _ & p & Hp & Mp).
    destruct (wf_in_items _ _ W Hp) as [Wp Np].
    assert (E : Py.lower w = first_word p)
      by (apply (match_first_word p false w r n); auto; congruence).
    unfold spelled_by in Hq.
    assert (X : existsb (fun p => Py.eqb (first_word p) (Py.lower w)) alts = true).
    { apply existsb_exists. exists p. split; [exact Hp|].
      rewrite E. now destruct (str_eqb_spec (first_word p) (first_word p)). }
    congruence. }
  exists (Re.sub_from alts repl true 0 r). split.
  - unfold Re.sub. now apply sub_from_unmatched.
  - destruct r as [|c r]; [reflexivity|]. simpl in Hr.
    now rewrite sub_from_nonword.
Qed.

(** ** The five substitutions of stage 1 *)

Definition repairs : list (list Re.pattern * (str -> str)) :=
  (map Re.word contraction_words, apostrophe)
  :: map (fun fx => ([fst fx], fun _ : str => snd fx)) common_fixes.

Definition run_repairs (rs : list (list Re.pattern * (str -> str))) (s : str) : str :=
  fold_left (fun t r => Re.sub (fst r) (snd r) t) rs s.

Lemma stage1_repairs : forall s,
    apply_common_fixes (fix_contractions s) = run_repairs repairs s.
Proof. reflexivity. Qed.

Lemma matches_length : forall p m, Matches p m -> length p <= length m.
Proof.
  intros p m H; induction H; simpl; try lia.
  rewrite length_app. destruct sp; [congruence|simpl; lia].
Qed.

Lemma matches_word_chars : forall p m,
    Matches p m -> wf_items p = true -> word_pattern p = true ->
    forallb Py.isword m = true.
Proof.
  intros p m H; induction H as [|a p c m E H IH|p sp m Hsp Hall H IH]; intros W Wp.
  - reflexivity.
  - simpl in W. apply andb_true_iff in W as [Ha W]. simpl.
    rewrite (lit_match_word a c Ha) by (rewrite E; apply Ascii.eqb_refl).
    now apply IH.
  - unfold word_pattern in Wp. simpl in Wp. discriminate Wp.
Qed.

Lemma word_not_space : forall m,
    forallb Py.isword m = true -> forallb (fun c => negb (Py.isspace c)) m = true.
Proof.
  induction m as [|c m IH]; simpl; [reflexivity|].
  intros H. apply andb_true_iff in H as [Hc H]. rewrite IH by exact H.
  destruct (Py.isspace c) eqn:Sc; [|reflexivity].
  now rewrite (space_not_word c Sc) in Hc.
Qed.

Lemma apostrophe_ok : repl_ok (map Re.word contraction_words) apostrophe.
Proof.
  assert (W : wf_alts (map Re.word contraction_words) = true) by reflexivity.
  assert (F : forall p m, In p (map Re.word contraction_words) -> Matches p m ->
                          exists c d m', m = c :: d :: m' /\
                                         forallb Py.isword m = true /\
                                         pattern_tokens true p = 1 /\
                                         pattern_tokens false p = 0).
  { intros p m Hp Mp.
    assert (Hw : forallb Py.isword m = true).
    { apply (matches_word_chars p m Mp).
      - now apply (wf_in_items _ _ W Hp).
      - simpl in Hp. repeat destruct Hp as [<-|Hp]; try reflexivity; contradiction. }
    pose proof (matches_length p m Mp) as L.
    assert (2 <= length p /\ pattern_tokens true p = 1 /\ pattern_tokens false p = 0)
      as (L2 & T1 & T0).
    { simpl in Hp. repeat destruct Hp as [<-|Hp]; try contradiction;
        (split; [simpl; lia|split; reflexivity]). }
    destruct m as [|c [|d m']]; simpl in L; try lia.
    exists c, d, m'. auto. }
  split.
  - exact W.
  - intros p m Hp Mp. destruct (F p m Hp Mp) as (c & d & m' & -> & Hw & _).
    pose proof (forallb_word_ends (c :: d :: m') ltac:(discriminate) Hw) as E.
    unfold ends_in_word in *.
    change (apostrophe (c :: d :: m')) with ([c; "'"%char] ++ d :: m').
    rewrite last_char_app by discriminate.
    now rewrite (last_char_cons c (d :: m')) in E by discriminate.
  - intros p m fresh Hp Mp. destruct (F p m Hp Mp) as (c & d & m' & -> & Hw & T1 & T0).
    change (apostrophe (c :: d :: m')) with (c :: "'"%char :: d :: m').
    rewrite tokens_from_nonspace.
    + destruct fresh; congruence.
    + discriminate.
    + apply word_not_space in Hw. simpl in Hw |- *.
      apply andb_true_iff in Hw as [-> Hw]. exact Hw.
Qed.

Lemma constant_ok : forall p (t : str),
    wf_pattern p = true -> ends_in_word t = true ->
    (forall fresh, tokens_from fresh t = pattern_tokens fresh p) ->
    repl_ok [p] (fun _ => t).
Proof.
  intros p t W E T. split.
  - simpl. now rewrite W.
  - intros. exact E.
  - intros q m fresh [<-|[]] _. apply T.
Qed.

Lemma repairs_ok : Forall (fun r => repl_ok (fst r) (snd r)) repairs.
Proof.
  unfold repairs, common_fixes. cbn [map fst snd].
  apply Forall_cons; [exact apostrophe_ok|].
  repeat (apply Forall_cons;
          [cbn [fst snd];
           apply constant_ok; [reflexivity|reflexivity|intros []; reflexivity]|]).
  apply Forall_nil.
Qed.

Lemma run_repairs_scan : forall rs (P : str -> Prop),
    Forall (fun r => repl_ok (fst r) (snd r)) rs ->
    (forall alts repl s o, repl_ok alts repl -> Scan alts repl s o -> P s -> P o) ->
    forall s, P s -> P (run_repairs rs s).
Proof.
  intros rs P OK step. induction OK as [|[alts repl] rs H _ IH]; intros s Hs; [exact Hs|].
  simpl. apply IH. eapply step; eauto. apply scan_sub. apply H.
Qed.

(** Stage 1 keeps the number of tokens and a final character that is not a
    word character. *)
Lemma stage1_tokens : forall s,
    tokens_from true (run_repairs repairs s) = tokens_from true s.
Proof.
  intros s.
  apply (run_repairs_scan repairs (fun t => tokens_from true t = tokens_from true s)
           repairs_ok); [|reflexivity].
  intros alts repl a o OK Sc <-. now apply (scan_tokens alts repl).
Qed.

Lemma stage1_end_mark : forall s,
    end_mark (run_repairs repairs s) = end_mark s /\
    (s <> [] -> run_repairs repairs s <> []).
Proof.
  intros s.
  apply (run_repairs_scan repairs
           (fun t => end_mark t = end_mark s /\ (s <> [] -> t <> []))
           repairs_ok); [|auto].
  intros alts repl a o OK Sc [<- N].
  destruct (scan_end_mark alts repl a o OK Sc) as [I E].
  split; [exact E|]. intros Hs Ho. apply I in Ho. now apply N.
Qed.

(** Stage 1 keeps a first word that none of its patterns begins with. *)
Lemma stage1_head_word : forall w r,
    w <> [] -> forallb Py.isword w = true -> Re.starts_word r = false ->
    forallb (fun r => negb (spelled_by (fst r) (Py.lower w))) repairs = true ->
    exists r', run_repairs repairs (w ++ r) = w ++ r' /\ Re.starts_word r' = false.
Proof.
  intros w r Hw Hall. revert r.
  pose proof repairs_ok as OK.
  induction OK as [|[alts repl] rs H _ IH]; intros r Hr Q.
  - now exists r.
  - simpl in Q. apply andb_true_iff in Q as [Q1 Q]. apply negb_true_iff in Q1.
    destruct (sub_keeps_head_word alts repl w r (ok_wf _ _ H) Hw Hall Hr Q1)
      as (r1 & E1 & Hr1).
    destruct (IH r1 Hr1 Q) as (r' & E & Hr').
    exists r'. split; [|exact Hr']. simpl. now rewrite E1.
Qed.
(** ** Facts about [split], [strip] and the later stages *)

Lemma split_cons : forall c s,
    Py.split (c :: s) =
    if Py.isspace c then Py.split s
    else match s with
         | [] => [[c]]
         | c' :: _ =>
             if Py.isspace c' then [c] :: Py.split s
             else match Py.split s with
                  | t :: ts => (c :: t) :: ts
                  | [] => [[c]]
                  end
         end.
Proof. intros c [|d s]; reflexivity. Qed.

Lemma split_lstrip : forall s, Py.split (Py.lstrip_by Py.isspace s) = Py.split s.
Proof.
  induction s as [|c s IH]; [reflexivity|].
  cbn [Py.lstrip_by]. destruct (Py.isspace c) eqn:Sc; [|reflexivity].
  rewrite IH, split_cons. now rewrite Sc.
Qed.

Lemma lstrip_head : forall p s c s', Py.lstrip_by p s = c :: s' -> p c = false.
Proof.
  intros p s; induction s as [|d s IH]; intros c s' H; [discriminate|].
  simpl in H. destruct (p d) eqn:Pd; [eauto|]. now injection H as <- _.
Qed.

Definition not_space (c : ascii) : bool := negb (Py.isspace c).

(** The first token of a text that begins with a character other than
    whitespace, and what is left. *)
Lemma split_first_token : forall s c,
    Py.isspace c = false ->
    exists w r, c :: s = w ++ r /\ w <> [] /\ forallb not_space w = true /\
                (r = [] \/ starts_space r = true) /\
                Py.split (c :: s) = w :: Py.split r.
Proof.
  induction s as [|d s IH]; intros c Sc.
  - exists [c], []. unfold not_space. simpl. rewrite Sc.
    repeat split; auto; discriminate.
  - rewrite split_cons, Sc. destruct (Py.isspace d) eqn:Sd.
    + exists [c], (d :: s). unfold not_space. simpl forallb. simpl starts_space.
      rewrite Sc, Sd. repeat split; auto; discriminate.
    + destruct (IH d Sd) as (w & r & E & Hw & Hall & Hr & Hs).
      rewrite Hs. exists (c :: w), r. unfold not_space in *. simpl forallb.
      rewrite Sc, E. repeat split; auto; discriminate.
Qed.

Lemma rstrip_by_head : forall p s h t,
    Py.rstrip_by p s = h :: t -> exists t', s = h :: t'.
Proof.
  intros p [|c s] h t H; [discriminate|]. simpl in H.
  destruct (Py.rstrip_by p s).
  - destruct (p c); [discriminate|]. injection H as <- _. eauto.
  - injection H as <- _. eauto.
Qed.

Lemma rstrip_keeps_token : forall w r,
    w <> [] -> forallb not_space w = true ->
    (r = [] \/ starts_space r = true) ->
    exists r0, Py.rstrip_by Py.isspace (w ++ r) = w ++ r0 /\
               (r0 = [] \/ starts_space r0 = true).
Proof.
  induction w as [|c w IH]; intros r Hw Hall Hr; [congruence|].
  simpl in Hall. apply andb_true_iff in Hall as [Hc Hall].
  unfold not_space in Hc. apply negb_true_iff in Hc.
  cbn [app Py.rstrip_by]. destruct w as [|d w].
  - cbn [app]. destruct (Py.rstrip_by Py.isspace r) as [|h t] eqn:E.
    + rewrite Hc. exists []. auto.
    + exists (h :: t). split; [reflexivity|]. right.
      destruct (rstrip_by_head _ _ _ _ E) as [t' ->].
      destruct Hr as [Hr|Hr]; [discriminate|exact Hr].
  - destruct (IH r ltac:(discriminate) Hall Hr) as (r0 & E & Hr0).
    rewrite E. cbn [app]. exists r0. auto.
Qed.

Lemma tokens_from_all_space : forall s fresh,
    forallb Py.isspace s = true -> tokens_from fresh s = 0.
Proof.
  induction s as [|c s IH]; intros fresh H; [reflexivity|].
  simpl in H. apply andb_true_iff in H as [Hc H]. simpl. rewrite Hc. now apply IH.
Qed.

Lemma tokens_from_cons : forall fresh c s,
    tokens_from fresh (c :: s) =
    if Py.isspace c then tokens_from true s
    else (if fresh then 1 else 0) + tokens_from false s.
Proof. reflexivity. Qed.

Lemma tokens_from_rstrip : forall s fresh,
    tokens_from fresh (Py.rstrip_by Py.isspace s) = tokens_from fresh s.
Proof.
  induction s as [|c s IH]; intros fresh; [reflexivity|].
  cbn [Py.rstrip_by]. destruct (Py.rstrip_by Py.isspace s) as [|h t] eqn:E.
  - pose proof (rstrip_by_nil _ _ E) as A.
    rewrite (tokens_from_cons fresh c s), !(tokens_from_all_space s) by exact A.
    destruct (Py.isspace c) eqn:Sc; [reflexivity|]. simpl. now rewrite Sc.
  - rewrite !(tokens_from_cons fresh c). now rewrite !IH.
Qed.

Lemma tokens_from_lstrip : forall s,
    tokens_from true (Py.lstrip_by Py.isspace s) = tokens_from true s.
Proof.
  induction s as [|c s IH]; [reflexivity|].
  cbn [Py.lstrip_by]. destruct (Py.isspace c) eqn:Sc; [|reflexivity].
  rewrite IH. simpl. now rewrite Sc.
Qed.

Lemma tokens_from_strip : forall s, tokens_from true (Py.strip s) = tokens_from true s.
Proof. intros. unfold Py.strip. now rewrite tokens_from_rstrip, tokens_from_lstrip. Qed.

Lemma endswith_char : forall x s,
    Py.endswith [x] s =
    match Py.last_char s with
    | Some c => Ascii.eqb x c
    | None => false
    end.
Proof.
  intros x s. unfold Py.endswith, Py.last_char. simpl.
  destruct (rev s); [reflexivity|]. simpl. apply andb_true_r.
Qed.

Lemma endswith_end_mark : forall x a b,
    Py.isword x = false -> end_mark a = end_mark b ->
    Py.endswith [x] a = Py.endswith [x] b.
Proof.
  intros x a b Hx E. rewrite !endswith_char. unfold end_mark in E.
  destruct (Py.last_char a) as [c|], (Py.last_char b) as [d|]; try reflexivity.
  - destruct (Py.isword c) eqn:Wc, (Py.isword d) eqn:Wd; try congruence.
    destruct (Ascii.eqb_spec x c), (Ascii.eqb_spec x d); congruence.
  - destruct (Py.isword c) eqn:Wc; [|discriminate].
    destruct (Ascii.eqb_spec x c); congruence.
  - destruct (Py.isword d) eqn:Wd; [|discriminate].
    destruct (Ascii.eqb_spec x d); congruence.
Qed.

Lemma rstrip_by_keep : forall p s c,
    p c = false -> Py.rstrip_by p (s ++ [c]) = s ++ [c].
Proof.
  intros p s c Hc; induction s as [|d s IH]; simpl; [now rewrite Hc|].
  rewrite IH. now destruct (s ++ [c]) eqn:E; [destruct s|].
Qed.

Lemma last_char_inv : forall s c, Py.last_char s = Some c -> exists y, s = y ++ [c].
Proof.
  intros s c. destruct s as [|d s _] using rev_ind; [discriminate|].
  rewrite last_char_app1. intros [= ->]. eauto.
Qed.

Lemma last_char_strip : forall s c,
    Py.last_char s = Some c -> Py.isspace c = false ->
    Py.last_char (Py.strip s) = Some c.
Proof.
  intros s c L Sc. unfold Py.strip.
  destruct (lstrip_by_suffix Py.isspace s) as (z & E & Hz).
  destruct (Py.lstrip_by Py.isspace s) as [|h t] eqn:El.
  - rewrite app_nil_r in E. subst z.
    now rewrite (forallb_last_char _ _ _ Hz L) in Sc.
  - rewrite E, last_char_app in L by discriminate.
    destruct (last_char_inv _ _ L) as [y ->].
    now rewrite rstrip_by_keep, last_char_app1.
Qed.

Lemma collapse_from_last : forall s c run,
    Py.isspace c = false ->
    Re.collapse_from run (s ++ [c]) = Re.collapse_from run s ++ [c].
Proof.
  induction s as [|d s IH]; intros c run Sc; simpl.
  - now rewrite Sc.
  - destruct (Py.isspace d); [destruct run|]; now rewrite IH.
Qed.

Lemma last_char_normalize : forall s c,
    Py.last_char s = Some c -> Py.isspace c = false ->
    Py.last_char (normalize_whitespace s) = Some c.
Proof.
  intros s c L Sc. unfold normalize_whitespace, Re.collapse.
  destruct (last_char_inv _ _ L) as [y ->].
  rewrite collapse_from_last by exact Sc.
  apply last_char_strip; [apply last_char_app1|exact Sc].
Qed.

Lemma last_char_capitalize : forall s c,
    Py.last_char s = Some c -> Py.isalpha c = false ->
    Py.last_char (capitalize s) = Some c.
Proof.
  intros [|d [|e s]] c L Hc; [discriminate| |].
  - injection L as ->. unfold capitalize. now rewrite Hc, andb_false_r.
  - unfold capitalize. destruct (negb (Py.isupper d) && Py.isalpha d); [|exact L].
    rewrite last_char_cons in * by discriminate. exact L.
Qed.

Lemma startswith_app : forall q x, Py.startswith q (q ++ x) = true.
Proof.
  induction q as [|a q IH]; intros x; [reflexivity|].
  simpl. now rewrite Ascii.eqb_refl, IH.
Qed.

Lemma forallb_isword_lower : forall w,
    forallb Py.isword (Py.lower w) = forallb Py.isword w.
Proof.
  induction w as [|c w IH]; [reflexivity|]. simpl. now rewrite isword_lower, IH.
Qed.

Lemma question_word_facts : forall q,
    In q question_words ->
    q <> [] /\ forallb Py.isword q = true /\
    forallb (fun r => negb (spelled_by (fst r) q)) repairs = true.
Proof.
  intros q H. unfold question_words, strs in H. cbn [map] in H.
  repeat (destruct H as [<-|H]; [repeat split; discriminate|]). contradiction.
Qed.

(** ** Question-mark normalisation *)

Lemma starts_space_not_word : forall r,
    r = [] \/ starts_space r = true -> Re.starts_word r = false.
Proof.
  intros [|c r] [H|H]; try reflexivity; try discriminate.
  simpl in *. now apply space_not_word.
Qed.

Lemma not_space_word_free : forall w q,
    Py.lower w = q -> forallb Py.isword q = true -> forallb Py.isword w = true.
Proof. intros w q <- H. now rewrite forallb_isword_lower in H. Qed.


Lemma question_mark_appended : forall m ctx,
    first_token_is_question m = true ->
    Py.endswith "?" (Py.strip m) = false ->
    Py.endswith "." (Py.strip m) = false ->
    3 <= length (Py.split m) ->
    Py.endswith "?" (fine_tune_user_message m ctx) = true.
Proof.
  intros m ctx H1 H2 H3 H4.
  change (list_ascii_of_string "?") with ["?"%char] in *.
  change (list_ascii_of_string ".") with ["."%char] in *.
  (* the first token and the stripped text *)
  unfold first_token_is_question in H1. rewrite <- split_lstrip in H1.
  destruct (Py.lstrip_by Py.isspace m) as [|c s'] eqn:El; [discriminate H1|].
  pose proof (lstrip_head _ _ _ _ El) as Sc.
  destruct (split_first_token s' c Sc) as (w & r & E & Hw & Hall & Hr & Hs).
  rewrite Hs in H1. apply existsb_exists in H1 as (q & Hq & Eq).
  destruct (str_eqb_spec (Py.lower w) q) as [Elow|]; [|discriminate]. clear Eq.
  destruct (question_word_facts _ Hq) as (Nq & Wq & Sq).
  destruct (rstrip_keeps_token w r Hw Hall Hr) as (r0 & E0 & Hr0).
  assert (Es : Py.strip m = w ++ r0) by (unfold Py.strip; now rewrite El, E).
  pose proof (starts_space_not_word r0 Hr0) as Hr0w.
  pose proof (not_space_word_free w q Elow Wq) as Hww.
  (* stage 1 *)
  destruct (fine_tune_cases m ctx) as [[_ Z]|[-> _]].
  { rewrite Es in Z. apply app_eq_nil in Z as [Z _]. congruence. }
  unfold pipeline. rewrite stage1_repairs.
  rewrite <- Elow in Sq.
  destruct (stage1_head_word w r0 Hw Hww Hr0w Sq) as (r1 & E1 & Hr1).
  pose proof (stage1_tokens (Py.strip m)) as T.
  destruct (stage1_end_mark (Py.strip m)) as [M _].
  rewrite <- Es in E1.
  set (s1 := run_repairs repairs (Py.strip m)) in *.
  (* clarification does not apply *)
  assert (C : clarify s1 = s1).
  { unfold clarify. rewrite split_count, T, tokens_from_strip, <- split_count.
    destruct (Nat.ltb_spec (length (Py.split m)) 3) as [L|_]; [lia|reflexivity]. }
  rewrite C.
  (* the question mark is appended *)
  assert (Q : question_format s1 = Py.rstrip_chars ".!" s1 ++ ["?"%char]).
  { unfold question_format.
    change (list_ascii_of_string "?") with ["?"%char].
    change (list_ascii_of_string ".") with ["."%char].
    rewrite (endswith_end_mark "?"%char s1 (Py.strip m) eq_refl M), H2.
    rewrite (endswith_end_mark "."%char s1 (Py.strip m) eq_refl M), H3.
    assert (X : existsb (fun w0 => Py.startswith w0 (Py.lower s1)) question_words = true).
    { apply existsb_exists. exists q. split; [exact Hq|].
      rewrite E1. unfold Py.lower. rewrite map_app. fold (Py.lower w). rewrite Elow.
      apply startswith_app. }
    now rewrite X. }
  rewrite Q.
  (* the later stages keep it *)
  pose proof (last_char_app1 (Py.rstrip_chars ".!" s1) "?"%char) as L.
  apply last_char_normalize in L; [|reflexivity].
  apply last_char_capitalize in L; [|reflexivity].
  rewrite sentence_end_unfold. unfold ends_alnum at 1. rewrite L.
  cbn [Py.isalnum andb]. change (Py.isalnum "?") with false. cbn [andb].
  now rewrite endswith_char, L.
Qed.


(** ** Texts in which a pattern matches nowhere *)

Definition is_none {A : Type} (o : option A) : bool :=
  match o with
  | None => true
  | Some _ => false
  end.

(** No alternative matches at any position of [s]; [prev] tells whether a
    word character stands before [s]. *)
Fixpoint no_match (alts : list Re.pattern) (prev : bool) (s : str) : bool :=
  match s with
  | [] => true
  | c :: s' => is_none (Re.match_at alts prev s) && no_match alts (Py.isword c) s'
  end.

Lemma no_match_cons : forall alts prev c s,
    no_match alts prev (c :: s) =
    is_none (Re.match_at alts prev (c :: s)) && no_match alts (Py.isword c) s.
Proof. reflexivity. Qed.

Lemma is_none_true : forall {A} (o : option A), is_none o = true -> o = None.
Proof. intros A [a|]; [discriminate|reflexivity]. Qed.

(** A text without matches is left as it is. *)
Lemma sub_from_no_match : forall alts repl s prev,
    no_match alts prev s = true -> Re.sub_from alts repl prev 0 s = s.
Proof.
  induction s as [|c s IH]; intros prev H; [reflexivity|].
  rewrite no_match_cons in H. apply andb_true_iff in H as [M H].
  apply is_none_true in M. cbn [Re.sub_from]. rewrite M. now rewrite IH.
Qed.

Lemma sub_no_match : forall alts repl s,
    no_match alts false s = true -> Re.sub alts repl s = s.
Proof. intros. now apply sub_from_no_match. Qed.

(** Matching looks at the lower-case form of the text only. *)
Lemma starts_word_lower : forall s, Re.starts_word (Py.lower s) = Re.starts_word s.
Proof. intros [|c s]; [reflexivity|]. simpl. apply isword_lower. Qed.

Lemma span_spaces_lower : forall s, Re.span_spaces (Py.lower s) = Re.span_spaces s.
Proof.
  induction s as [|c s IH]; [reflexivity|]. simpl.
  rewrite isspace_lower, IH. reflexivity.
Qed.

Lemma match_items_lower : forall p prev s,
    Re.match_items p prev (Py.lower s) = Re.match_items p prev s.
Proof.
  induction p as [|[a|] p IH]; intros prev s.
  - simpl. unfold Re.boundary. now rewrite starts_word_lower.
  - destruct s as [|c s]; [reflexivity|].
    change (Py.lower (c :: s)) with (Py.lower_char c :: Py.lower s).
    rewrite !match_items_lit, lower_lower, isword_lower, IH. reflexivity.
  - rewrite !match_items_spaces, span_spaces_lower.
    destruct (Re.span_spaces s); [reflexivity|].
    unfold Py.lower at 1. rewrite skipn_map. fold (Py.lower (skipn (S n) s)).
    now rewrite IH.
Qed.

Lemma match_at_lower : forall alts prev s,
    Re.match_at alts prev (Py.lower s) = Re.match_at alts prev s.
Proof.
  intros alts prev s. unfold Re.match_at, Re.boundary. rewrite starts_word_lower.
  destruct (xorb prev (Re.starts_word s)); [|reflexivity].
  induction alts as [|p alts IH]; [reflexivity|].
  simpl. now rewrite match_items_lower, IH.
Qed.

Lemma no_match_lower : forall alts s prev,
    no_match alts prev (Py.lower s) = no_match alts prev s.
Proof.
  induction s as [|c s IH]; intros prev; [reflexivity|].
  change (Py.lower (c :: s)) with (Py.lower_char c :: Py.lower s).
  rewrite !no_match_cons, isword_lower, IH.
  change (Py.lower_char c :: Py.lower s) with (Py.lower (c :: s)).
  now rewrite match_at_lower.
Qed.

Lemma no_match_nonword : forall alts prev prev' s,
    wf_alts alts = true -> Re.starts_word s = false ->
    no_match alts prev s = no_match alts prev' s.
Proof.
  intros alts prev prev' [|c s] W H; [reflexivity|].
  rewrite !no_match_cons, !match_at_nonword by auto. reflexivity.
Qed.

Lemma no_match_app : forall alts x y prev,
    no_match alts prev (x ++ y) = true ->
    exists prev', no_match alts prev' y = true.
Proof.
  induction x as [|c x IH]; intros y prev H; [now exists prev|].
  cbn [app] in H. rewrite no_match_cons in H.
  apply andb_true_iff in H as [_ H]. eauto.
Qed.

(** *** Changing what follows the text *)

(** A text that is empty or begins with a character that is neither a word
    character nor whitespace. *)
Definition terminator (x : str) : bool :=
  match x with
  | [] => true
  | c :: _ => negb (Py.isword c) && negb (Py.isspace c)
  end.

Lemma terminator_not_word : forall x, terminator x = true -> Re.starts_word x = false.
Proof.
  intros [|c x] H; [reflexivity|]. simpl in *.
  apply andb_true_iff in H as [H _]. now apply negb_true_iff in H.
Qed.

Lemma span_spaces_app : forall y x,
    Re.span_spaces x = 0 -> Re.span_spaces (y ++ x) = Re.span_spaces y.
Proof.
  induction y as [|c y IH]; intros x H; [exact H|].
  simpl. destruct (Py.isspace c); [now rewrite IH|reflexivity].
Qed.

Lemma terminator_span : forall x, terminator x = true -> Re.span_spaces x = 0.
Proof.
  intros [|c x] H; [reflexivity|]. simpl in *.
  apply andb_true_iff in H as [_ H]. apply negb_true_iff in H. now rewrite H.
Qed.

Lemma skipn_app_le : forall {A} n (y x : list A),
    n <= length y -> skipn n (y ++ x) = skipn n y ++ x.
Proof.
  intros A n y x L. rewrite skipn_app.
  now replace (n - length y) with 0 by lia.
Qed.

Lemma starts_word_app_same : forall y x x',
    Re.starts_word x = false -> Re.starts_word x' = false ->
    Re.starts_word (y ++ x) = Re.starts_word (y ++ x').
Proof. intros [|c y] x x' H H'; simpl; congruence. Qed.

Lemma match_items_terminator : forall p prev y x x',
    wf_items p = true -> terminator x = true -> terminator x' = true ->
    Re.match_items p prev (y ++ x) = Re.match_items p prev (y ++ x').
Proof.
  induction p as [|[a|] p IH]; intros prev y x x' W T T'.
  - simpl. unfold Re.boundary.
    now rewrite (starts_word_app_same y x x') by now apply terminator_not_word.
  - simpl in W. apply andb_true_iff in W as [Ha W].
    destruct y as [|c y].
    + cbn [app].
      assert (N : forall z, terminator z = true ->
                            Re.match_items (Re.Lit a :: p) prev z = None).
      { intros [|c z] Tz; [reflexivity|]. rewrite match_items_lit.
        apply terminator_not_word in Tz. simpl in Tz.
        now rewrite (lit_mismatch a c Ha Tz). }
      now rewrite !N.
    + cbn [app]. rewrite !match_items_lit. now rewrite (IH _ y x x') by auto.
  - simpl in W. destruct p as [|[b|] p]; try discriminate W.
    rewrite !match_items_spaces.
    rewrite !span_spaces_app by now apply terminator_span.
    pose proof (span_spaces_le y) as L.
    destruct (Re.span_spaces y) as [|k]; [reflexivity|].
    rewrite !skipn_app_le by exact L. now rewrite (IH _ _ x x') by auto.
Qed.

Lemma wf_alts_items : forall alts, wf_alts alts = true -> forallb wf_items alts = true.
Proof.
  intros alts W. apply forallb_forall. intros p Hp.
  now apply (wf_in_items alts p W Hp).
Qed.

Lemma first_match_ext : forall alts prev s s',
    (forall p, In p alts -> Re.match_items p prev s = Re.match_items p prev s') ->
    Re.first_match alts prev s = Re.first_match alts prev s'.
Proof.
  induction alts as [|p alts IH]; intros prev s s' H; [reflexivity|].
  simpl. rewrite (H p (or_introl eq_refl)), (IH prev s s'); [reflexivity|].
  intros q Hq. apply H. now right.
Qed.

Lemma match_at_terminator : forall alts prev y x x',
    wf_alts alts = true -> terminator x = true -> terminator x' = true ->
    Re.match_at alts prev (y ++ x) = Re.match_at alts prev (y ++ x').
Proof.
  intros alts prev y x x' W T T'. unfold Re.match_at, Re.boundary.
  rewrite (starts_word_app_same y x x') by now apply terminator_not_word.
  destruct (xorb prev _); [|reflexivity].
  apply first_match_ext. intros p Hp. apply match_items_terminator; auto.
  now apply (wf_in_items alts p W Hp).
Qed.

Lemma no_match_terminator : forall alts y x x' prev,
    wf_alts alts = true -> terminator x = true -> terminator x' = true ->
    (forall pv, no_match alts pv x' = true) ->
    no_match alts prev (y ++ x) = true -> no_match alts prev (y ++ x') = true.
Proof.
  induction y as [|c y IH]; intros x x' prev W T T' Hx' H; [apply Hx'|].
  cbn [app] in *. rewrite no_match_cons in *.
  apply andb_true_iff in H as [M H].
  change (c :: y ++ x) with ((c :: y) ++ x) in M.
  rewrite (match_at_terminator alts prev (c :: y) x x' W T T') in M.
  cbn [app] in M. rewrite M. now apply (IH x x').
Qed.

(** *** Trailing whitespace *)

Lemma span_spaces_all : forall z, forallb Py.isspace z = true -> Re.span_spaces z = length z.
Proof.
  induction z as [|c z IH]; intros H; [reflexivity|].
  simpl in H. apply andb_true_iff in H as [Hc H]. simpl. now rewrite Hc, IH.
Qed.

Lemma span_spaces_app_all : forall y z,
    forallb Py.isspace z = true ->
    Re.span_spaces (y ++ z) =
    if Re.span_spaces y =? length y then length y + length z else Re.span_spaces y.
Proof.
  induction y as [|c y IH]; intros z H.
  - simpl. now apply span_spaces_all.
  - simpl. destruct (Py.isspace c); [|reflexivity].
    rewrite IH by exact H. simpl.
    now destruct (Re.span_spaces y =? length y).
Qed.

Lemma all_space_not_word : forall z,
    forallb Py.isspace z = true -> Re.starts_word z = false.
Proof.
  intros [|c z] H; [reflexivity|]. simpl in *.
  apply andb_true_iff in H as [H _]. now apply space_not_word.
Qed.

Lemma match_items_trailing : forall p prev y z,
    wf_items p = true -> forallb Py.isspace z = true ->
    Re.match_items p prev (y ++ z) = Re.match_items p prev y.
Proof.
  induction p as [|[a|] p IH]; intros prev y z W Hz.
  - simpl. unfold Re.boundary. rewrite <- (app_nil_r y) at 2.
    now rewrite (starts_word_app_same y z []) by (auto using all_space_not_word).
  - simpl in W. apply andb_true_iff in W as [Ha W].
    destruct y as [|c y].
    + cbn [app]. destruct z as [|c z]; [reflexivity|]. rewrite match_items_lit.
      apply all_space_not_word in Hz. simpl in Hz.
      now rewrite (lit_mismatch a c Ha Hz).
    + cbn [app]. rewrite !match_items_lit. now rewrite IH by auto.
  - simpl in W. destruct p as [|[b|] p]; try discriminate W.
    rewrite !match_items_spaces, span_spaces_app_all by exact Hz.
    pose proof (span_spaces_le y) as L.
    destruct (Nat.eqb_spec (Re.span_spaces y) (length y)) as [E|N].
    + rewrite E. destruct (length y + length z) as [|k] eqn:Ek.
      * now replace (length y) with 0 by lia.
      * rewrite skipn_all2 by (rewrite length_app; lia).
        destruct (length y) as [|j] eqn:Ej; [reflexivity|].
        rewrite <- Ej, skipn_all. reflexivity.
    + destruct (Re.span_spaces y) as [|k]; [reflexivity|].
      rewrite skipn_app_le by exact L. now rewrite IH by auto.
Qed.

Lemma no_match_trailing : forall alts y z prev,
    wf_alts alts = true -> forallb Py.isspace z = true ->
    no_match alts prev (y ++ z) = true -> no_match alts prev y = true.
Proof.
  induction y as [|c y IH]; intros z prev W Hz H; [reflexivity|].
  cbn [app] in H. rewrite no_match_cons in *.
  apply andb_true_iff in H as [M H].
  rewrite (IH z _ W Hz H), andb_true_r.
  unfold Re.match_at, Re.boundary in *.
  change (c :: y ++ z) with ((c :: y) ++ z) in M.
  rewrite (starts_word_app_same (c :: y) z []) in M
    by (auto using all_space_not_word).
  rewrite app_nil_r in M.
  destruct (xorb prev _); [|reflexivity].
  rewrite (first_match_ext alts prev _ (c :: y)) in M; [exact M|].
  intros p Hp. apply match_items_trailing; auto.
  now apply (wf_in_items alts p W Hp).
Qed.
(** *** Collapsing whitespace *)

Lemma collapse_from_nonspace : forall run s,
    starts_space s = false -> Re.collapse_from run s = Re.collapse_from false s.
Proof. intros run [|c s] H; [reflexivity|]. simpl in *. now rewrite H. Qed.

Lemma skipn_span_not_space : forall s, starts_space (skipn (Re.span_spaces s) s) = false.
Proof.
  induction s as [|c s IH]; [reflexivity|]. simpl.
  destruct (Py.isspace c) eqn:Sc; [exact IH|]. simpl. exact Sc.
Qed.

(** Inside a run the rest of the run is dropped. *)
Lemma collapse_from_run : forall s,
    Re.collapse_from true s = Re.collapse_from false (skipn (Re.span_spaces s) s).
Proof.
  induction s as [|c s IH]; [reflexivity|]. simpl.
  destruct (Py.isspace c) eqn:Sc; [exact IH|]. simpl. now rewrite Sc.
Qed.

Lemma collapse_starts_space : forall s,
    starts_space (Re.collapse_from false s) = starts_space s.
Proof. intros [|c s]; [reflexivity|]. simpl. now destruct (Py.isspace c) eqn:Sc. Qed.

Lemma collapse_starts_word : forall s,
    Re.starts_word (Re.collapse_from false s) = Re.starts_word s.
Proof.
  intros [|c s]; [reflexivity|]. simpl.
  destruct (Py.isspace c) eqn:Sc; [|reflexivity]. simpl.
  now rewrite (space_not_word c Sc).
Qed.

Lemma span_spaces_zero : forall s, starts_space s = false -> Re.span_spaces s = 0.
Proof. intros [|c s] H; [reflexivity|]. simpl in *. now rewrite H. Qed.

Lemma is_none_map : forall {A B} (f : A -> B) o, is_none (option_map f o) = is_none o.
Proof. intros A B f [a|]; reflexivity. Qed.

Lemma match_items_collapse : forall p prev s,
    wf_items p = true ->
    is_none (Re.match_items p prev (Re.collapse_from false s))
    = is_none (Re.match_items p prev s).
Proof.
  induction p as [|[a|] p IH]; intros prev s W.
  - simpl. unfold Re.boundary. now rewrite collapse_starts_word.
  - simpl in W. apply andb_true_iff in W as [Ha W].
    destruct s as [|c s]; [reflexivity|].
    cbn [Re.collapse_from]. destruct (Py.isspace c) eqn:Sc.
    + rewrite !match_items_lit.
      rewrite (lit_mismatch a " "%char Ha eq_refl).
      now rewrite (lit_mismatch a c Ha (space_not_word c Sc)).
    + rewrite !match_items_lit. destruct (Ascii.eqb (Py.lower_char c) a); [|reflexivity].
      rewrite !is_none_map. now apply IH.
  - simpl in W. destruct p as [|[b|] p]; try discriminate W.
    rewrite !match_items_spaces.
    destruct s as [|c s]; [reflexivity|].
    cbn [Re.collapse_from Re.span_spaces]. destruct (Py.isspace c) eqn:Sc.
    + cbn [Re.span_spaces]. change (Py.isspace " ") with true. cbv iota.
      rewrite collapse_from_run.
      rewrite (span_spaces_zero (Re.collapse_from false _))
        by (rewrite collapse_starts_space; apply skipn_span_not_space).
      cbn [skipn]. rewrite !is_none_map. now apply IH.
    + cbn [Re.span_spaces]. now rewrite Sc.
Qed.

Lemma first_match_none_iff : forall alts prev s,
    is_none (Re.first_match alts prev s)
    = forallb (fun p => is_none (Re.match_items p prev s)) alts.
Proof.
  induction alts as [|p alts IH]; intros prev s; [reflexivity|].
  simpl. destruct (Re.match_items p prev s); [reflexivity|]. apply IH.
Qed.

Lemma forallb_same : forall {A} (f g : A -> bool) l,
    (forall x, In x l -> f x = g x) -> forallb f l = forallb g l.
Proof.
  intros A f g l; induction l as [|x l IH]; intros H; [reflexivity|].
  simpl. rewrite (H x (or_introl eq_refl)), IH; [reflexivity|].
  intros y Hy. apply H. now right.
Qed.

Lemma match_at_collapse : forall alts prev s,
    wf_alts alts = true ->
    is_none (Re.match_at alts prev (Re.collapse_from false s))
    = is_none (Re.match_at alts prev s).
Proof.
  intros alts prev s W. unfold Re.match_at, Re.boundary.
  rewrite collapse_starts_word. destruct (xorb prev _); [|reflexivity].
  rewrite !first_match_none_iff. apply forallb_same.
  intros p Hp. apply match_items_collapse. now apply (wf_in_items alts p W Hp).
Qed.

Lemma no_match_collapse : forall alts s prev run,
    wf_alts alts = true -> (run = true -> prev = false) ->
    no_match alts prev s = true ->
    no_match alts prev (Re.collapse_from run s) = true.
Proof.
  induction s as [|c s IH]; intros prev run W R H; [reflexivity|].
  rewrite no_match_cons in H. apply andb_true_iff in H as [M H].
  destruct (Py.isspace c) eqn:Sc.
  - rewrite (space_not_word c Sc) in H. cbn [Re.collapse_from]. rewrite Sc.
    destruct run.
    + rewrite (R eq_refl). now apply IH.
    + rewrite no_match_cons, match_at_nonword by auto.
      change (Py.isword " ") with false. now apply IH.
  - rewrite (collapse_from_nonspace run (c :: s)) by (simpl; exact Sc).
    pose proof (match_at_collapse alts prev (c :: s) W) as E.
    rewrite M in E. revert E. cbn [Re.collapse_from]. rewrite Sc. intros E.
    rewrite no_match_cons, E. now apply IH.
Qed.

Lemma no_match_lstrip : forall alts s,
    wf_alts alts = true -> no_match alts false s = true ->
    no_match alts false (Py.lstrip_by Py.isspace s) = true.
Proof.
  induction s as [|c s IH]; intros W H; [reflexivity|].
  cbn [Py.lstrip_by]. destruct (Py.isspace c) eqn:Sc; [|exact H].
  rewrite no_match_cons in H. apply andb_true_iff in H as [_ H].
  rewrite (space_not_word c Sc) in H. now apply IH.
Qed.

Lemma rstrip_by_split : forall p s, exists z,
      s = Py.rstrip_by p s ++ z /\ forallb p z = true.
Proof.
  intros p s; induction s as [|c s (z & E & Hz)].
  - now exists [].
  - cbn [Py.rstrip_by]. destruct (Py.rstrip_by p s) as [|h t] eqn:R.
    + destruct (p c) eqn:Pc.
      * exists (c :: z). simpl in *. rewrite Pc, Hz. now rewrite <- E.
      * exists z. simpl in *. now subst z.
    + exists z. split; [|exact Hz]. change ((c :: h :: t) ++ z) with (c :: (h :: t) ++ z).
      now rewrite <- E.
Qed.

Lemma no_match_strip : forall alts s,
    wf_alts alts = true -> no_match alts false s = true ->
    no_match alts false (Py.strip s) = true.
Proof.
  intros alts s W H. unfold Py.strip.
  apply (no_match_lstrip alts s W) in H.
  destruct (rstrip_by_split Py.isspace (Py.lstrip_by Py.isspace s)) as (z & E & Hz).
  rewrite E in H. now apply (no_match_trailing alts _ z false W Hz).
Qed.

Lemma no_match_normalize : forall alts s,
    wf_alts alts = true -> no_match alts false s = true ->
    no_match alts false (normalize_whitespace s) = true.
Proof.
  intros alts s W H. unfold normalize_whitespace, Re.collapse.
  apply no_match_strip; [exact W|]. apply no_match_collapse; auto; discriminate.
Qed.

(** *** Capitalising and adding the question mark *)

Lemma lower_upper : forall c, Py.lower_char (Py.upper_char c) = Py.lower_char c.
Proof. intro c. char_cases c. Qed.

Lemma lower_capitalize : forall s, Py.lower (capitalize s) = Py.lower s.
Proof.
  intros [|c s]; [reflexivity|]. unfold capitalize.
  destruct (negb (Py.isupper c) && Py.isalpha c); [|reflexivity].
  simpl. now rewrite lower_upper.
Qed.

Lemma no_match_capitalize : forall alts s,
    no_match alts false (capitalize s) = no_match alts false s.
Proof.
  intros. now rewrite <- no_match_lower, lower_capitalize, no_match_lower.
Qed.

Lemma terminator_punctuation : forall z,
    forallb (fun c => existsb (Ascii.eqb c) (".!" : str)) z = true -> terminator z = true.
Proof.
  intros [|c z] H; [reflexivity|]. simpl in H. apply andb_true_iff in H as [H _].
  simpl. rewrite orb_false_r in H. apply orb_true_iff in H as [H|H];
    apply Ascii.eqb_eq in H; subst c; reflexivity.
Qed.

Lemma no_match_question_format : forall alts s,
    wf_alts alts = true -> no_match alts false s = true ->
    no_match alts false (question_format s) = true.
Proof.
  intros alts s W H. unfold question_format.
  destruct (_ && _); [|exact H]. destruct (negb _); [|exact H].
  unfold Py.rstrip_chars.
  destruct (rstrip_by_split (fun c => existsb (Ascii.eqb c) (".!" : str)) s)
    as (z & E & Hz).
  rewrite E in H at 1.
  apply (no_match_terminator alts _ z ["?"%char] false W); auto.
  - now apply terminator_punctuation.
  - intros pv. rewrite no_match_cons, match_at_nonword by auto. reflexivity.
Qed.
(** *** A substitution leaves no match behind *)

Lemma no_match_sep : forall alts prev c s,
    wf_alts alts = true -> Py.isword c = false ->
    no_match alts prev (c :: s) = no_match alts false s.
Proof.
  intros alts prev c s W Hc.
  rewrite no_match_cons, match_at_nonword, Hc by auto. reflexivity.
Qed.

Lemma no_match_inword : forall alts w s,
    wf_alts alts = true -> forallb Py.isword w = true -> Re.starts_word s = false ->
    no_match alts true (w ++ s) = no_match alts false s.
Proof.
  intros alts w s W; induction w as [|c w IH]; intros Hw Hs.
  - now apply no_match_nonword.
  - simpl in Hw. apply andb_true_iff in Hw as [Hc Hw].
    cbn [app]. rewrite no_match_cons, match_at_inword, Hc by (simpl; exact Hc).
    now apply IH.
Qed.

Lemma no_match_word : forall alts w s,
    wf_alts alts = true -> w <> [] -> forallb Py.isword w = true ->
    Re.starts_word s = false ->
    no_match alts false (w ++ s)
    = is_none (Re.match_at alts false (w ++ s)) && no_match alts false s.
Proof.
  intros alts [|c w] s W N Hw Hs; [congruence|].
  simpl in Hw. apply andb_true_iff in Hw as [Hc Hw].
  cbn [app]. rewrite no_match_cons, Hc. f_equal. now apply no_match_inword.
Qed.

(** The positions inside [x] when [o] follows. *)
Fixpoint no_match_in (alts : list Re.pattern) (prev : bool) (x o : str) : bool :=
  match x with
  | [] => true
  | c :: x' =>
      is_none (Re.match_at alts prev (x ++ o)) && no_match_in alts (Py.isword c) x' o
  end.

Definition flag_after (prev : bool) (x : str) : bool :=
  match Py.last_char x with
  | Some c => Py.isword c
  | None => prev
  end.

Lemma no_match_split : forall alts x o prev,
    no_match alts prev (x ++ o)
    = no_match_in alts prev x o && no_match alts (flag_after prev x) o.
Proof.
  induction x as [|c x IH]; intros o prev; [reflexivity|].
  cbn [app no_match_in]. rewrite no_match_cons, IH, andb_assoc.
  assert (E : flag_after (Py.isword c) x = flag_after prev (c :: x)); [|now rewrite E].
  unfold flag_after. destruct x as [|d x]; [reflexivity|].
  rewrite (last_char_cons c (d :: x)) by discriminate.
  destruct (Py.last_char (d :: x)) eqn:L; [reflexivity|].
  now apply last_char_nil_inv in L.
Qed.

(** The replacement [x] brings no match of [alts], whatever follows it. *)
Definition clean_text (alts : list Re.pattern) (x : str) : Prop :=
  forall o, Re.starts_word o = false ->
            no_match alts false (x ++ o) = no_match alts false o.

Lemma clean_text_intro : forall alts x,
    wf_alts alts = true -> (forall o, no_match_in alts false x o = true) ->
    clean_text alts x.
Proof.
  intros alts x W H o Ho. rewrite no_match_split, H.
  now rewrite (no_match_nonword alts _ false o W Ho).
Qed.

Lemma scan_starts_word : forall alts repl s o,
    wf_alts alts = true -> Scan alts repl s o ->
    Re.starts_word s = false -> Re.starts_word o = false.
Proof.
  intros alts repl s o W H; destruct H as [|c s o Hc H|w s o Hw Hall Hs M H|m s o Hm M Hs H];
    intros Hsw; auto.
  - rewrite starts_word_app in Hsw by auto. now destruct w.
  - destruct (match_at_inv _ _ _ _ W M) as (_ & Sw & _). congruence.
Qed.

Section NoMatchAfterScan.

Variables (alts : list Re.pattern) (repl : str -> str) (alts' : list Re.pattern).
Variable Inv : str -> Prop.

Hypothesis Hwf : wf_alts alts = true.
Hypothesis Hwf' : wf_alts alts' = true.
Hypothesis Inv_sep : forall c s, Py.isword c = false -> Inv (c :: s) -> Inv s.
Hypothesis Inv_word : forall w s,
    w <> [] -> forallb Py.isword w = true -> Re.starts_word s = false ->
    Re.match_at alts false (w ++ s) = None -> Inv (w ++ s) ->
    Re.match_at alts' false (w ++ s) = None /\ Inv s.
Hypothesis Inv_match : forall m s,
    Re.match_at alts false (m ++ s) = Some (length m) ->
    Re.starts_word s = false -> Inv (m ++ s) -> Inv s.
Hypothesis Transfer : forall w s o,
    w <> [] -> forallb Py.isword w = true -> Re.starts_word s = false ->
    Re.match_at alts false (w ++ s) = None ->
    Scan alts repl s o ->
    Re.match_at alts' false (w ++ s) = None ->
    Re.match_at alts' false (w ++ o) = None.
Hypothesis Clean : forall p m, In p alts -> Matches p m -> clean_text alts' (repl m).

Lemma scan_no_match : forall s o,
    Scan alts repl s o -> Inv s -> no_match alts' false o = true.
Proof.
  intros s o H; induction H as [|c s o Hc H IH|w s o Hw Hall Hs M H IH|m s o Hm M Hs H IH];
    intros I.
  - reflexivity.
  - rewrite no_match_sep by auto. apply IH. eapply Inv_sep; eauto.
  - destruct (Inv_word w s Hw Hall Hs M I) as [M' I'].
    assert (Ho : Re.starts_word o = false)
      by exact (scan_starts_word alts repl s o Hwf H Hs).
    rewrite no_match_word by auto.
    rewrite (Transfer w s o Hw Hall Hs M H M'). cbn [is_none andb]. now apply IH.
  - destruct (match_at_matches _ _ _ Hwf M) as (p & Hp & Mp).
    assert (Ho : Re.starts_word o = false)
      by exact (scan_starts_word alts repl s o Hwf H Hs).
    rewrite (Clean p m Hp Mp o Ho). apply IH. eapply Inv_match; eauto.
Qed.

End NoMatchAfterScan.

(** Single-word patterns only look at the word at the head. *)
Lemma match_at_word_only : forall alts w x x',
    word_alts alts = true -> w <> [] -> forallb Py.isword w = true ->
    Re.starts_word x = false -> Re.starts_word x' = false ->
    Re.match_at alts false (w ++ x) = Re.match_at alts false (w ++ x').
Proof.
  intros alts w x x' W Hw Hall Hx Hx'. unfold Re.match_at, Re.boundary.
  rewrite !starts_word_app by auto. destruct w; [congruence|]. cbn [negb xorb].
  apply first_match_ext. intros p Hp.
  unfold word_alts in W. rewrite forallb_forall in W. specialize (W p Hp).
  apply andb_true_iff in W as [Wp Sp].
  now rewrite !match_word_pattern by (auto; discriminate).
Qed.

(** After a substitution of single-word patterns none of them matches. *)
Lemma sub_establishes : forall alts repl s,
    word_alts alts = true ->
    (forall p m, In p alts -> Matches p m -> clean_text alts (repl m)) ->
    no_match alts false (Re.sub alts repl s) = true.
Proof.
  intros alts repl s W C. pose proof (word_alts_wf _ W) as Wf.
  apply (scan_no_match alts repl alts (fun _ => True) Wf Wf) with (s := s); auto.
  - intros w x o Hw Hall Hx M Sc _.
    rewrite (match_at_word_only alts w o x); auto.
    exact (scan_starts_word alts repl x o Wf Sc Hx).
  - now apply scan_sub.
Qed.

(** A substitution keeps a text free of matches of other single-word
    patterns. *)
Lemma sub_preserves : forall alts repl alts' s,
    wf_alts alts = true -> word_alts alts' = true ->
    (forall p m, In p alts -> Matches p m -> clean_text alts' (repl m)) ->
    no_match alts' false s = true ->
    no_match alts' false (Re.sub alts repl s) = true.
Proof.
  intros alts repl alts' s Wf W C H. pose proof (word_alts_wf _ W) as Wf'.
  apply (scan_no_match alts repl alts' (fun t => no_match alts' false t = true) Wf Wf')
    with (s := s); auto.
  - intros c t Hc I. now rewrite no_match_sep in I by auto.
  - intros w t Hw Hall Ht _ I. rewrite no_match_word in I by auto.
    apply andb_true_iff in I as [I1 I2]. split; [now apply is_none_true|exact I2].
  - intros m t _ Ht I. apply no_match_app in I as [pv I].
    now rewrite (no_match_nonword alts' false pv t Wf' Ht).
  - intros w x o Hw Hall Hx _ Sc M.
    rewrite (match_at_word_only alts' w o x); auto.
    exact (scan_starts_word alts repl x o Wf Sc Hx).
  - now apply scan_sub.
Qed.
(** *** The phrase pattern *)

Definition phrase_repl : str -> str := fun _ => "you are correct".

Fixpoint tails {A : Type} (l : list A) : list (list A) :=
  l :: match l with
       | [] => []
       | _ :: l' => tails l'
       end.

Lemma tails_self : forall {A} (l : list A), In l (tails l).
Proof. intros A [|x l]; simpl; auto. Qed.

Lemma tails_cons : forall {A} (l p : list A) x, In (x :: p) (tails l) -> In p (tails l).
Proof.
  intros A l; induction l as [|y l IH]; intros p x H.
  - simpl in H. destruct H as [H|[]]. discriminate.
  - simpl in H. destruct H as [H|H].
    + injection H as -> ->. simpl. right. apply tails_self.
    + simpl. right. eauto.
Qed.

Lemma tails_after_word : forall l p, In p (tails l) -> In (after_word p) (tails l).
Proof.
  intros l p; induction p as [|[a|] p IH]; intros H; simpl; auto.
  apply IH. eapply tails_cons; eauto.
Qed.

Lemma wf_items_tail : forall i p, wf_items (i :: p) = true -> wf_items p = true.
Proof.
  intros [a|] p H; simpl in H.
  - now apply andb_true_iff in H as [_ H].
  - destruct p as [|[b|] p]; try discriminate. exact H.
Qed.

Lemma tails_wf : forall l p, wf_items l = true -> In p (tails l) -> wf_items p = true.
Proof.
  induction l as [|i l IH]; intros p W H.
  - simpl in H. destruct H as [<-|[]]. exact W.
  - simpl in H. destruct H as [<-|H]; [exact W|].
    apply IH; [eapply wf_items_tail; eauto|exact H].
Qed.

(** [\s+] taken one character at a time. *)
Lemma match_items_spaces_step : forall p prev c s,
    Re.match_items (Re.Spaces :: p) prev (c :: s) =
    if Py.isspace c then
      if starts_space s
      then option_map S (Re.match_items (Re.Spaces :: p) prev s)
      else option_map S (Re.match_items p false s)
    else None.
Proof.
  intros p prev c s. rewrite !match_items_spaces. cbn [Re.span_spaces].
  destruct (Py.isspace c); [|reflexivity].
  destruct s as [|d s]; [reflexivity|]. cbn [starts_space Re.span_spaces skipn].
  destruct (Py.isspace d); [|reflexivity].
  cbn [skipn]. now destruct (Re.match_items p false (skipn (Re.span_spaces s) s)).
Qed.

Lemma word_not_starts_space : forall s, Re.starts_word s = true -> starts_space s = false.
Proof.
  intros [|c s] H; [reflexivity|]. simpl in *.
  destruct (Py.isspace c) eqn:Sc; [|reflexivity].
  now rewrite (space_not_word c Sc) in H.
Qed.

Lemma scan_phrase_starts_space : forall s o,
    Scan [you_are_right] phrase_repl s o -> starts_space o = starts_space s.
Proof.
  intros s o H; destruct H as [|c s o Hc H|w s o Hw Hall Hs M H|m s o Hm M Hs H].
  - reflexivity.
  - reflexivity.
  - destruct w as [|c w]; [congruence|]. reflexivity.
  - destruct (match_at_inv [you_are_right] false _ _ eq_refl M) as (_ & Sw & _).
    now rewrite (word_not_starts_space _ Sw).
Qed.

Lemma option_map_none : forall {A B} (f : A -> B) o, option_map f o = None -> o = None.
Proof. intros A B f [a|]; [discriminate|reflexivity]. Qed.

(** A part of the phrase pattern that fails on the text fails on the result
    of the substitution as well. *)
Lemma phrase_transfer : forall s o,
    Scan [you_are_right] phrase_repl s o ->
    forall p prev, In p (tails you_are_right) -> p <> [] ->
                   Re.match_items p prev s = None -> Re.match_items p prev o = None.
Proof.
  intros s o H;
    induction H as [|c s o Hc H IH|w s o Hw Hall Hs M H IH|m s o Hm M Hs H IH];
    intros p prev Hin Hp N.
  - exact N.
  - pose proof (tails_wf you_are_right p eq_refl Hin) as Wp.
    destruct p as [|[a|] p]; [congruence| |].
    + simpl in Wp. apply andb_true_iff in Wp as [Ha _].
      rewrite match_items_lit. now rewrite (lit_mismatch a c Ha Hc).
    + rewrite match_items_spaces_step in *.
      destruct (Py.isspace c); [|reflexivity].
      rewrite (scan_phrase_starts_space s o H).
      destruct (starts_space s); apply option_map_none in N.
      * now rewrite (IH _ _ Hin Hp N).
      * assert (Np : p <> []) by (destruct p as [|[b|] p]; [discriminate Wp| |];
                                  discriminate).
        now rewrite (IH p false (tails_cons _ _ _ Hin) Np N).
  - pose proof (tails_wf you_are_right p eq_refl Hin) as Wp.
    pose proof (scan_starts_word [you_are_right] phrase_repl s o eq_refl H Hs) as Ho.
    destruct (Re.match_items p prev (w ++ o)) as [n|] eqn:Mo; [exfalso|reflexivity].
    pose proof (match_first_word p prev w o n Wp ltac:(congruence) Hall Ho Mo) as E.
    rewrite (first_after p) in Mo, N.
    rewrite (match_word_consume _ _ prev w o (wf_first_word p Wp) E) in Mo.
    rewrite (match_word_consume _ _ prev w s (wf_first_word p Wp) E) in N.
    apply option_map_none in N.
    destruct w as [|c w]; [congruence|].
    destruct (after_word p) as [|i q] eqn:Ea.
    + simpl in N. unfold Re.boundary in N. rewrite Hs in N. discriminate.
    + rewrite (IH (i :: q) true) in Mo; [discriminate| |discriminate|exact N].
      rewrite <- Ea. now apply tails_after_word.
  - vm_compute in Hin.
    repeat (destruct Hin as [<-|Hin]; [try reflexivity|]); contradiction.
Qed.

Lemma phrase_establishes : forall s,
    no_match [you_are_right] false (Re.sub [you_are_right] phrase_repl s) = true.
Proof.
  intros s.
  apply (scan_no_match [you_are_right] phrase_repl [you_are_right] (fun _ => True)
           eq_refl eq_refl) with (s := s); auto.
  - intros w x o Hw Hall Hx M Sc _.
    assert (B : Re.boundary false (w ++ o) = true).
    { unfold Re.boundary. rewrite starts_word_app; auto.
      - now destruct w.
      - exact (scan_starts_word [you_are_right] phrase_repl x o eq_refl Sc Hx). }
    unfold Re.match_at. rewrite B. cbn [Re.first_match].
    rewrite (phrase_transfer (w ++ x) (w ++ o)); auto.
    + now apply Scan_word.
    + now left.
    + discriminate.
    + unfold Re.match_at in M.
      assert (B' : Re.boundary false (w ++ x) = true).
      { unfold Re.boundary. rewrite starts_word_app; auto. now destruct w. }
      rewrite B' in M. cbn [Re.first_match] in M.
      now destruct (Re.match_items you_are_right false (w ++ x)).
  - intros p m _ _. apply clean_text_intro; [reflexivity|]. intros o. reflexivity.
  - now apply scan_sub.
Qed.
(** *** Stage 1 leaves nothing to repair *)

Lemma clean_text_lower : forall alts x,
    clean_text alts (Py.lower x) -> clean_text alts x.
Proof.
  intros alts x H o Ho.
  rewrite <- no_match_lower. unfold Py.lower. rewrite map_app.
  fold (Py.lower x). fold (Py.lower o).
  rewrite (H (Py.lower o)) by (now rewrite starts_word_lower).
  apply no_match_lower.
Qed.

Lemma lower_apostrophe : forall m, Py.lower (apostrophe m) = apostrophe (Py.lower m).
Proof.
  intros m. unfold apostrophe, Py.lower.
  now rewrite !map_app, firstn_map, skipn_map.
Qed.

Ltac clean_constant :=
  intros ? ? ? ?; unfold phrase_repl;
  apply clean_text_intro; [reflexivity|intro; reflexivity].

Lemma clean_apostrophe : forall p m,
    In p (map Re.word contraction_words) -> Matches p m ->
    clean_text (map Re.word contraction_words) (apostrophe m).
Proof.
  intros p m Hp Mp. apply clean_text_lower. rewrite lower_apostrophe.
  assert (E : Py.lower m = first_word p).
  { apply matches_word; [exact Mp|].
    simpl in Hp. repeat destruct Hp as [<-|Hp]; try reflexivity; contradiction. }
  rewrite E. simpl in Hp.
  repeat (destruct Hp as [<-|Hp];
          [apply clean_text_intro; [reflexivity|intros o; reflexivity]|]).
  contradiction.
Qed.

(** After stage 1 none of its five patterns matches anywhere. *)
Lemma stage1_no_match : forall s,
    Forall (fun r => no_match (fst r) false (run_repairs repairs s) = true) repairs.
Proof.
  intros s. unfold run_repairs, repairs, common_fixes. cbn [map fst snd fold_left].
  set (A1 := map Re.word contraction_words).
  set (A2 := [Re.word "teh"]). set (A3 := [Re.word "adn"]).
  set (A4 := [Re.word "yoru"]). set (A5 := [you_are_right]).
  set (s1 := Re.sub A1 apostrophe s).
  set (s2 := Re.sub A2 (fun _ : str => ("the" : str)) s1).
  set (s3 := Re.sub A3 (fun _ : str => ("and" : str)) s2).
  set (s4 := Re.sub A4 (fun _ : str => ("your" : str)) s3).
  change (fun _ : str => list_ascii_of_string "you are correct") with phrase_repl.
  set (s5 := Re.sub A5 phrase_repl s4).
  assert (N11 : no_match A1 false s1 = true)
    by (apply sub_establishes; [reflexivity|exact clean_apostrophe]).
  assert (N12 : no_match A1 false s2 = true)
    by (apply sub_preserves; auto; clean_constant).
  assert (N22 : no_match A2 false s2 = true)
    by (apply sub_establishes; [reflexivity|clean_constant]).
  assert (N13 : no_match A1 false s3 = true)
    by (apply sub_preserves; auto; clean_constant).
  assert (N23 : no_match A2 false s3 = true)
    by (apply sub_preserves; auto; clean_constant).
  assert (N33 : no_match A3 false s3 = true)
    by (apply sub_establishes; [reflexivity|clean_constant]).
  assert (N14 : no_match A1 false s4 = true)
    by (apply sub_preserves; auto; clean_constant).
  assert (N24 : no_match A2 false s4 = true)
    by (apply sub_preserves; auto; clean_constant).
  assert (N34 : no_match A3 false s4 = true)
    by (apply sub_preserves; auto; clean_constant).
  assert (N44 : no_match A4 false s4 = true)
    by (apply sub_establishes; [reflexivity|clean_constant]).
  assert (N15 : no_match A1 false s5 = true)
    by (apply sub_preserves; auto; clean_constant).
  assert (N25 : no_match A2 false s5 = true)
    by (apply sub_preserves; auto; clean_constant).
  assert (N35 : no_match A3 false s5 = true)
    by (apply sub_preserves; auto; clean_constant).
  assert (N45 : no_match A4 false s5 = true)
    by (apply sub_preserves; auto; clean_constant).
  assert (N55 : no_match A5 false s5 = true) by apply phrase_establishes.
  repeat constructor; assumption.
Qed.

(** A text in which no pattern of stage 1 matches goes through it unchanged. *)
Definition repaired (t : str) : Prop :=
  Forall (fun r => no_match (fst r) false t = true) repairs.

Lemma run_repairs_id : forall rs t,
    Forall (fun r => no_match (fst r) false t = true) rs -> run_repairs rs t = t.
Proof.
  intros rs t H; induction H as [|[alts repl] rs H _ IH]; [reflexivity|].
  simpl. rewrite sub_no_match by exact H. exact IH.
Qed.

Lemma repaired_step : forall (f : str -> str) t,
    (forall alts, wf_alts alts = true -> no_match alts false t = true ->
                  no_match alts false (f t) = true) ->
    repaired t -> repaired (f t).
Proof.
  intros f t Hf H. unfold repaired in *.
  pose proof repairs_ok as OK. induction OK as [|r rs R _ IH]; [constructor|].
  inversion H; subst. constructor; [|now apply IH].
  apply Hf; [apply R|assumption].
Qed.
(** ** Normalising a normalised question *)

(** *** Texts that [strip] leaves alone *)

Definition ends_space (s : str) : bool :=
  match Py.last_char s with
  | Some c => Py.isspace c
  | None => false
  end.

Lemma lstrip_fix : forall s, starts_space s = false -> Py.lstrip_by Py.isspace s = s.
Proof. intros [|c s] H; [reflexivity|]. simpl in *. now rewrite H. Qed.

Lemma rstrip_fix : forall s, ends_space s = false -> Py.rstrip_by Py.isspace s = s.
Proof.
  intros s H. unfold ends_space in H.
  destruct (Py.last_char s) as [c|] eqn:L.
  - destruct (last_char_inv _ _ L) as [y ->]. now apply rstrip_by_keep.
  - now rewrite (last_char_nil_inv _ L).
Qed.

Lemma strip_fix : forall s,
    starts_space s = false -> ends_space s = false -> Py.strip s = s.
Proof. intros s H1 H2. unfold Py.strip. now rewrite lstrip_fix, rstrip_fix. Qed.

Lemma lstrip_not_space : forall s, starts_space (Py.lstrip_by Py.isspace s) = false.
Proof.
  intros s. destruct (Py.lstrip_by Py.isspace s) as [|c t] eqn:E; [reflexivity|].
  simpl. eapply lstrip_head; eauto.
Qed.

Lemma rstrip_starts_space : forall s,
    starts_space s = false -> starts_space (Py.rstrip_by Py.isspace s) = false.
Proof.
  intros s H. destruct (Py.rstrip_by Py.isspace s) as [|h t] eqn:E; [reflexivity|].
  destruct (rstrip_by_head _ _ _ _ E) as [t' ->]. exact H.
Qed.

Lemma rstrip_ends_space : forall s, ends_space (Py.rstrip_by Py.isspace s) = false.
Proof.
  induction s as [|c s IH]; [reflexivity|]. cbn [Py.rstrip_by].
  destruct (Py.rstrip_by Py.isspace s) as [|h t] eqn:E.
  - destruct (Py.isspace c) eqn:Sc; [reflexivity|]. unfold ends_space. simpl. exact Sc.
  - unfold ends_space in *. now rewrite (last_char_cons c (h :: t)) by discriminate.
Qed.

Lemma strip_tight : forall s,
    starts_space (Py.strip s) = false /\ ends_space (Py.strip s) = false.
Proof.
  intros s. unfold Py.strip. split.
  - apply rstrip_starts_space, lstrip_not_space.
  - apply rstrip_ends_space.
Qed.

Lemma upper_not_space : forall c, Py.isalpha c = true -> Py.isspace (Py.upper_char c) = false.
Proof. intro c. char_cases c. Qed.

Lemma alpha_not_space : forall c, Py.isalpha c = true -> Py.isspace c = false.
Proof. intro c. char_cases c. Qed.

Lemma upper_is_upper : forall c,
    Py.isalpha c = true -> Py.isupper c = false -> Py.isupper (Py.upper_char c) = true.
Proof. intro c. char_cases c. Qed.

Lemma capitalize_cases : forall s,
    capitalize s = s \/
    exists c t, s = c :: t /\ capitalize s = Py.upper_char c :: t /\
                Py.isalpha c = true /\ Py.isupper c = false.
Proof.
  intros [|c t]; [now left|]. unfold capitalize.
  destruct (Py.isupper c) eqn:U, (Py.isalpha c) eqn:A; simpl; auto.
  right. exists c, t. auto.
Qed.

Lemma capitalize_tight : forall s,
    starts_space s = false -> ends_space s = false ->
    starts_space (capitalize s) = false /\ ends_space (capitalize s) = false.
Proof.
  intros s H1 H2. destruct (capitalize_cases s) as [->|(c & t & -> & -> & A & U)]; [auto|].
  split; [simpl; now apply upper_not_space|].
  unfold ends_space in *. destruct t as [|d t].
  - simpl. now apply upper_not_space.
  - rewrite (last_char_cons (Py.upper_char c) (d :: t)) by discriminate.
    now rewrite (last_char_cons c (d :: t)) in H2 by discriminate.
Qed.

Lemma capitalize_idem : forall s, capitalize (capitalize s) = capitalize s.
Proof.
  intros s. destruct (capitalize_cases s) as [E|(c & t & -> & -> & A & U)];
    [now rewrite !E|].
  unfold capitalize. now rewrite (upper_is_upper c A U).
Qed.

(** *** Texts that collapsing leaves alone *)

Fixpoint single_spaced (s : str) : bool :=
  match s with
  | [] => true
  | c :: s' =>
      (if Py.isspace c then Ascii.eqb c " " && negb (starts_space s') else true)
      && single_spaced s'
  end.

Lemma collapse_fix : forall s, single_spaced s = true -> Re.collapse_from false s = s.
Proof.
  induction s as [|c s IH]; intros H; [reflexivity|].
  simpl in H. apply andb_true_iff in H as [Hc H]. cbn [Re.collapse_from].
  destruct (Py.isspace c) eqn:Sc.
  - apply andb_true_iff in Hc as [E N]. apply Ascii.eqb_eq in E. subst c.
    apply negb_true_iff in N. f_equal.
    rewrite collapse_from_nonspace by exact N. now apply IH.
  - f_equal. now apply IH.
Qed.

Lemma collapse_run_not_space : forall s, starts_space (Re.collapse_from true s) = false.
Proof.
  intros s. rewrite collapse_from_run, collapse_starts_space.
  apply skipn_span_not_space.
Qed.

Lemma collapse_single_spaced : forall s run, single_spaced (Re.collapse_from run s) = true.
Proof.
  induction s as [|c s IH]; intros run; [reflexivity|]. cbn [Re.collapse_from].
  destruct (Py.isspace c) eqn:Sc.
  - destruct run; [apply IH|]. cbn [single_spaced].
    change (Py.isspace " ") with true. cbv iota.
    now rewrite Ascii.eqb_refl, collapse_run_not_space, IH.
  - cbn [single_spaced]. now rewrite Sc, IH.
Qed.

Lemma single_spaced_lstrip : forall s,
    single_spaced s = true -> single_spaced (Py.lstrip_by Py.isspace s) = true.
Proof.
  induction s as [|c s IH]; intros H; [reflexivity|]. cbn [Py.lstrip_by].
  destruct (Py.isspace c); [|exact H].
  simpl in H. apply andb_true_iff in H as [_ H]. now apply IH.
Qed.

Lemma single_spaced_prefix : forall x z,
    single_spaced (x ++ z) = true -> single_spaced x = true.
Proof.
  induction x as [|c x IH]; intros z H; [reflexivity|].
  cbn [app single_spaced] in *. apply andb_true_iff in H as [Hc H].
  rewrite (IH z H), andb_true_r.
  destruct (Py.isspace c); [|reflexivity].
  apply andb_true_iff in Hc as [-> N]. destruct x; [reflexivity|exact N].
Qed.

Lemma single_spaced_strip : forall s,
    single_spaced s = true -> single_spaced (Py.strip s) = true.
Proof.
  intros s H. unfold Py.strip. apply single_spaced_lstrip in H.
  destruct (rstrip_by_split Py.isspace (Py.lstrip_by Py.isspace s)) as (z & E & _).
  rewrite E in H. now apply single_spaced_prefix in H.
Qed.

Lemma single_spaced_capitalize : forall s,
    single_spaced s = true -> single_spaced (capitalize s) = true.
Proof.
  intros s H. destruct (capitalize_cases s) as [->|(c & t & -> & -> & A & U)]; [exact H|].
  cbn [single_spaced] in *. rewrite (alpha_not_space c A) in H.
  now rewrite (upper_not_space c A).
Qed.

(** *** The later stages keep a repaired text repaired *)

Lemma repaired_clarify : forall t, repaired t -> repaired (clarify t).
Proof.
  intros t H. unfold clarify.
  destruct (_ && _); [|exact H]. destruct (negb _); [|exact H].
  destruct (negb _); [|exact H].
  unfold repaired in *. rewrite Forall_forall in *. intros r Hr.
  specialize (H r Hr). rewrite no_match_split.
  change (flag_after false (list_ascii_of_string "Please explain: ")) with false.
  rewrite H, andb_true_r.
  unfold repairs, common_fixes in Hr. cbn [map fst snd] in Hr.
  repeat (destruct Hr as [<-|Hr]; [reflexivity|]). contradiction.
Qed.

Lemma repaired_later_stages : forall t,
    repaired t ->
    repaired (capitalize (normalize_whitespace (question_format (clarify t)))).
Proof.
  intros t H. apply repaired_clarify in H.
  apply (repaired_step question_format) in H;
    [|intros; now apply no_match_question_format].
  apply (repaired_step normalize_whitespace) in H;
    [|intros; now apply no_match_normalize].
  apply (repaired_step capitalize) in H;
    [exact H|intros; now rewrite no_match_capitalize].
Qed.

(** The result of the pipeline before the last stage. *)
Definition before_end (t : str) : str :=
  capitalize
    (normalize_whitespace
       (question_format (clarify (apply_common_fixes (fix_contractions t))))).

Lemma before_end_facts : forall t,
    repaired (before_end t) /\
    starts_space (before_end t) = false /\ ends_space (before_end t) = false /\
    single_spaced (before_end t) = true /\
    capitalize (before_end t) = before_end t.
Proof.
  intros t. unfold before_end. rewrite stage1_repairs.
  set (u := question_format (clarify (run_repairs repairs t))).
  repeat split.
  - apply repaired_later_stages, stage1_no_match.
  - apply capitalize_tight; apply strip_tight.
  - apply capitalize_tight; apply strip_tight.
  - apply single_spaced_capitalize, single_spaced_strip, collapse_single_spaced.
  - apply capitalize_idem.
Qed.

(** A text that ends in [?] and has the properties of [before_end] is a fixed
    point of the normaliser. *)
Lemma fixed_point : forall r ctx,
    repaired r -> starts_space r = false -> ends_space r = false ->
    single_spaced r = true -> capitalize r = r ->
    Py.endswith "?" r = true ->
    fine_tune_user_message r ctx = r.
Proof.
  intros r ctx R S1 S2 C K Q.
  destruct (fine_tune_cases r ctx) as [[E _]|[-> _]]; [exact E|].
  rewrite (strip_fix r S1 S2). unfold pipeline.
  rewrite stage1_repairs, (run_repairs_id repairs r R).
  assert (E1 : clarify r = r) by (unfold clarify; now rewrite Q, andb_false_r).
  rewrite E1.
  assert (E2 : question_format r = r)
    by (unfold question_format; now rewrite Q, andb_false_r).
  rewrite E2.
  assert (E3 : normalize_whitespace r = r).
  { unfold normalize_whitespace, Re.collapse. rewrite (collapse_fix r C).
    now apply strip_fix. }
  rewrite E3, K, sentence_end_unfold.
  change (list_ascii_of_string "?") with ["?"%char] in Q.
  rewrite endswith_char in Q. unfold ends_alnum.
  destruct (Py.last_char r) as [c|]; [|reflexivity].
  apply Ascii.eqb_eq in Q. now subst c.
Qed.



(** * Further properties of the code *)

(** ** Input validation *)

(** The limit that [validate_input] applies: [max_length or 10000]. *)
Definition limit_of (n : option Z) : Z :=
  match n with
  | Some Z0 | None => 10000
  | Some k => k
  end%Z.

(** X1. [validate_input] accepts a message of ASCII characters exactly when it
    has a character other than whitespace and its length, surrounding
    whitespace included, does not exceed the limit; a limit of 0 or [None]
    stands for 10000. *)
Theorem validate_input_valid_iff : forall m n,
    ascii_text m = true ->
    (field "valid" (validate_input (mkInputValidationRequest m n)) = Some (JBool true)
     <-> Py.strip m <> [] /\ (Z.of_nat (length m) <= limit_of n)%Z).
Proof.
  intros m n _. unfold validate_input. cbn [message max_length].
  assert (L : (match n with
               | Some k => if (k =? 0)%Z then 10000%Z else k
               | None => 10000%Z
               end) = limit_of n) by (destruct n as [[| |]|]; reflexivity).
  rewrite L. clear L.
  destruct m as [|c m]; [split; [discriminate|intros [N _]; now destruct N]|].
  destruct (Py.strip (c :: m)) as [|d s] eqn:E;
    [split; [discriminate|intros [N _]; now destruct N]|].
  destruct (Z.gtb_spec (Z.of_nat (length (c :: m))) (limit_of n)) as [G|G].
  - split; [discriminate|intros [_ H]; lia].
  - split; [intros _; split; [discriminate|lia]|reflexivity].
Qed.

Lemma validate_input_valid_iff_witness :
  field "valid" (validate_input (mkInputValidationRequest " hello " (Some 0%Z)))
  = Some (JBool true)
  <-> Py.strip " hello " <> [] /\ (Z.of_nat (length (" hello " : str)) <= limit_of (Some 0%Z))%Z.
Proof. apply validate_input_valid_iff. reflexivity. Defined.

(** X2. A response of [validate_input] carries an [error] text exactly when it
    is not [valid], and for a message of ASCII characters the text is the
    one for an empty input exactly when the message is blank: the blank check
    comes before the length check. *)
Theorem validate_input_error_iff : forall m n,
    ascii_text m = true ->
    let r := validate_input (mkInputValidationRequest m n) in
    (field "error" r = None <-> field "valid" r = Some (JBool true)) /\
    (field "error" r = Some (JStr "Input cannot be empty") <-> Py.strip m = []).
Proof.
  intros m n _. unfold validate_input. cbn [message max_length].
  destruct m as [|c m]; [repeat split; discriminate || reflexivity|].
  destruct (Py.strip (c :: m)) as [|d s] eqn:E;
    [repeat split; discriminate || reflexivity|].
  destruct (_ >? _)%Z; repeat split; discriminate || reflexivity.
Qed.

Lemma validate_input_error_iff_witness :
  let r := validate_input (mkInputValidationRequest "   " (Some (-1)%Z)) in
  (field "error" r = None <-> field "valid" r = Some (JBool true)) /\
  (field "error" r = Some (JStr "Input cannot be empty") <-> Py.strip "   " = []).
Proof. apply validate_input_error_iff. reflexivity. Defined.

(** ** The status endpoints *)

(** X3. [health_check] and [get_responses_status] report the same connectivity
    for the same answer of the backend: connected exactly when [/api/tags]
    answered 200, and an [error] text, the same in both, exactly when the
    request raised. *)
Theorem connectivity_reports_agree : forall URL tags,
    field "ollama_connected" (get_responses_status URL tags)
    = field "ollama_connected" (health_check tags) /\
    field "error" (get_responses_status URL tags) = field "error" (health_check tags) /\
    (field "ollama_connected" (health_check tags) = Some (JBool true)
     <-> exists text, tags = Answered 200 text) /\
    (field "error" (health_check tags) = None
     <-> exists status_code text, tags = Answered status_code text).
Proof.
  intros URL [e s|status text]; cbn.
  - repeat split; try discriminate;
      [intros (? & ?)|intros (? & ? & ?)]; discriminate.
  - destruct (Z.eqb_spec status 200) as [->|N]; cbn; repeat split; eauto; try discriminate.
    intros (t & H). injection H as H _. contradiction.
Qed.

(** ** Pre-loading a model *)

(** X4. Whatever the backend does, the response of [preload_model] names the
    model that was sent to the backend, never the placeholder [unknown]; the
    status is [success] exactly when the backend answered 200. *)
Theorem preload_model_reports : forall URL DEFAULT_MODEL backend request,
    let r := preload_model URL DEFAULT_MODEL backend request in
    field "model" r = Some (JStr (o_model (preload_request DEFAULT_MODEL request))) /\
    (field "status" r = Some (JStr "success")
     <-> exists text, backend (preload_request DEFAULT_MODEL request) = Answered 200 text).
Proof.
  intros URL D backend request. unfold preload_model.
  destruct (backend _) as [[| |t] s|status text]; cbn.
  1-3: split; [reflexivity|split; [discriminate|intros (? & H); discriminate]].
  destruct (Z.eqb_spec status 200) as [->|N]; cbn.
  - split; [reflexivity|split; eauto].
  - split; [reflexivity|]. split; [discriminate|].
    intros (t & H). injection H as H _. contradiction.
Qed.

(** X5. Pre-loading and chatting name the same model when the request's model
    is written in ASCII characters, has no surrounding whitespace and is not
    the placeholder [string]; so does an empty name, which both replace by the
    default. *)
Theorem preload_matches_chat : forall DEFAULT_MODEL (m : str) msgs st,
    ascii_text m = true ->
    Py.strip m = m -> Py.eqb (Py.lower m) "string" = false ->
    o_model (preload_request DEFAULT_MODEL (mkPreloadRequest (Some m)))
    = o_model (ollama_request DEFAULT_MODEL (mkChatRequest m msgs st)).
Proof.
  intros D m msgs st _ S P. unfold preload_request, ollama_request.
  cbn [o_model model]. unfold preload_name, resolve_model. cbn [model_name].
  destruct m as [|c m]; [reflexivity|].
  rewrite S, P. reflexivity.
Qed.

Lemma preload_matches_chat_witness :
  o_model (preload_request "phi3:mini-128k" (mkPreloadRequest (Some ("llama3" : str))))
  = o_model (ollama_request "phi3:mini-128k" (mkChatRequest "llama3" [] true)).
Proof. apply preload_matches_chat; reflexivity. Defined.

(** The two differ on a name that chatting rejects or trims. *)
Example preload_differs_from_chat :
  o_model (preload_request "phi3:mini-128k" (mkPreloadRequest (Some ("String" : str))))
  = "String" /\
  o_model (ollama_request "phi3:mini-128k" (mkChatRequest "String" [] true))
  = "phi3:mini-128k" /\
  o_model (preload_request "phi3:mini-128k" (mkPreloadRequest (Some (" " : str))))
  = " ".
Proof. repeat split. Qed.

(** ** The relay: what reaches the caller *)

(** The backend lines among the chunks. *)
Definition forwarded (out : list chunk) : list str :=
  flat_map (fun c => match c with Forwarded line => [line] | ErrorEvent _ => [] end) out.

(** [a] is [b] with some items left out, the order kept. *)
Inductive subsequence {A : Type} : list A -> list A -> Prop :=
| sub_nil : forall b, subsequence [] b
| sub_take : forall x a b, subsequence a b -> subsequence (x :: a) (x :: b)
| sub_skip : forall x a b, subsequence a b -> subsequence a (x :: b).

Lemma inspect_stop_inv : forall lim model_name line c,
    inspect lim model_name line = Stop c ->
    has_error_key line = true /\ is_error c = true.
Proof.
  intros lim mn line c. unfold inspect, has_error_key.
  destruct (Json.call lim line) as [v| |] eqn:E; try discriminate.
  rewrite (call_value_loads lim line v E).
  destruct v; cbn [py_in py_get bind]; try discriminate.
  - destruct (Py.contains _ _); discriminate.
  - destruct (existsb _ _); discriminate.
  - destruct (Json.dict_get _ _); [|discriminate].
    destruct (translate_error _ _); [|discriminate].
    intros H. injection H as <-. split; reflexivity.
Qed.

Lemma forwarded_transport_error : forall URL e, forwarded [transport_error URL e] = [].
Proof. intros URL [| |t]; reflexivity. Qed.

Lemma relay_lines_forwarded : forall URL lim model_name lines failure,
    subsequence (forwarded (relay_lines URL lim model_name lines failure)) lines /\
    Forall (fun l => l <> []) (forwarded (relay_lines URL lim model_name lines failure)).
Proof.
  intros URL lim mn lines failure. induction lines as [|l lines [IH1 IH2]].
  - cbn [relay_lines].
    destruct failure; [rewrite forwarded_transport_error|]; split; constructor.
  - cbn [relay_lines]. destruct l as [|c l]; [split; [now constructor|exact IH2]|].
    destruct (inspect lim mn (c :: l)) as [|k|] eqn:E.
    + split; [now constructor|]. constructor; [discriminate|exact IH2].
    + destruct (inspect_stop_inv _ _ _ _ E) as [_ K]. destruct k; [discriminate K|].
      split; constructor.
    + split; [now constructor|exact IH2].
Qed.

(** X6. The lines of the backend that reach the caller are a subsequence of
    the lines the backend sent: the relay forwards no line twice, none out of
    order, none that the backend did not send, and no empty line. *)
Theorem forwarded_is_subsequence :
  forall URL DEFAULT_MODEL lim backend request status_code body lines failure,
    backend (ollama_request DEFAULT_MODEL request)
    = Response status_code body lines failure ->
    let out := stream_response URL DEFAULT_MODEL lim backend request in
    subsequence (forwarded out) lines /\ Forall (fun l => l <> []) (forwarded out).
Proof.
  intros URL D lim backend request status body lines failure E out. subst out.
  unfold stream_response. rewrite E.
  destruct (negb _); [|apply relay_lines_forwarded].
  destruct body; [|rewrite forwarded_transport_error]; split; constructor.
Qed.

Lemma forwarded_is_subsequence_witness :
  let out := stream_response "http://localhost:11434" "phi3:mini-128k" Json.unlimited
               (fun _ => Response 200 (Body None) (strs ["a"; ""; "5"; "b"]) None)
               (mkChatRequest "xyz" [] true) in
  subsequence (forwarded out) (strs ["a"; ""; "5"; "b"])
  /\ Forall (fun l => l <> []) (forwarded out).
Proof.
  apply (forwarded_is_subsequence _ _ _ _ _ 200%Z (Body None) _ None). reflexivity.
Defined.

Lemma no_error_key_no_stop : forall lim model_name lines,
    forallb (fun l => negb (has_error_key l)) lines = true ->
    no_stop lim model_name lines.
Proof.
  intros lim mn lines H. unfold no_stop. rewrite Forall_forall. intros l Hl c E.
  rewrite forallb_forall in H. specialize (H l Hl).
  destruct (inspect_stop_inv _ _ _ _ E) as [K _]. now rewrite K in H.
Qed.

Lemma relay_lines_no_error : forall URL lim model_name lines,
    no_stop lim model_name lines ->
    forallb (fun c => negb (is_error c)) (relay_lines URL lim model_name lines None) = true.
Proof.
  intros URL lim mn lines H. induction H as [|l lines Hl _ IH]; [reflexivity|].
  cbn [relay_lines]. destruct l as [|c l]; [exact IH|].
  destruct (inspect lim mn (c :: l)) as [|k|] eqn:E; [exact IH| |exact IH].
  now destruct (Hl k).
Qed.

(** X7. The relay invents no error: when the backend answers 200, none of its
    lines is a JSON object with an [error] key, and the transport does not
    fail, every chunk that comes out is a line of the backend. *)
Theorem no_error_without_cause :
  forall URL DEFAULT_MODEL lim backend request body lines,
    backend (ollama_request DEFAULT_MODEL request) = Response 200 body lines None ->
    forallb (fun l => negb (has_error_key l)) lines = true ->
    forallb (fun c => negb (is_error c))
            (stream_response URL DEFAULT_MODEL lim backend request) = true.
Proof.
  intros URL D lim backend request body lines E H.
  unfold stream_response. rewrite E. cbn [Z.eqb negb Pos.eqb].
  apply relay_lines_no_error, no_error_key_no_stop, H.
Qed.

Lemma no_error_without_cause_witness :
  forallb (fun c => negb (is_error c))
          (stream_response "http://localhost:11434" "phi3:mini-128k" Json.unlimited
             (fun _ => Response 200 (Body None)
                         [dq "{'done': false}" : str; "error" : str; "7" : str] None)
             (mkChatRequest "xyz" [] true)) = true.
Proof.
  apply (no_error_without_cause _ _ _ _ _ (Body None)
           [dq "{'done': false}" : str; "error" : str; "7" : str]); reflexivity.
Defined.

(** X8. A failure of the transport in the middle of the stream, after lines
    without an [error] key, leaves the lines forwarded so far in place and adds
    the error of the failure as the last chunk. *)
Theorem failure_after_partial_output :
  forall URL DEFAULT_MODEL lim backend request body lines e,
    backend (ollama_request DEFAULT_MODEL request) = Response 200 body lines (Some e) ->
    forallb (fun l => negb (has_error_key l)) lines = true ->
    stream_response URL DEFAULT_MODEL lim backend request
    = relay_lines URL lim (o_model (ollama_request DEFAULT_MODEL request)) lines None
      ++ [transport_error URL e].
Proof.
  intros URL D lim backend request body lines e E H.
  unfold stream_response. rewrite E. cbn [Z.eqb negb Pos.eqb].
  rewrite <- (app_nil_r lines) at 1.
  rewrite relay_lines_app by (apply no_error_key_no_stop, H). reflexivity.
Qed.

Lemma failure_after_partial_output_witness :
  stream_response "http://localhost:11434" "phi3:mini-128k" Json.unlimited
    (fun _ => Response 200 (Body None) (strs ["a"; "b"]) (Some ConnectError))
    (mkChatRequest "xyz" [] true)
  = relay_lines "http://localhost:11434" Json.unlimited
      (o_model (ollama_request "phi3:mini-128k" (mkChatRequest "xyz" [] true)))
      (strs ["a"; "b"]) None
    ++ [transport_error "http://localhost:11434" ConnectError].
Proof.
  apply (failure_after_partial_output _ _ _ _ _ (Body None)); reflexivity.
Defined.

(** X9. Nothing after a line that ends the stream is looked at: the lines that
    follow it, and a later failure of the transport, do not change the
    output. *)
Theorem nothing_read_after_error :
  forall URL lim model_name pre line post post' failure failure' c,
    inspect lim model_name line = Stop c ->
    relay_lines URL lim model_name (pre ++ line :: post) failure
    = relay_lines URL lim model_name (pre ++ line :: post') failure'.
Proof.
  intros URL lim mn pre line post post' failure failure' c E.
  induction pre as [|l pre IH].
  - cbn [app]. now rewrite !(relay_lines_stop _ _ _ _ _ _ _ E).
  - cbn [app relay_lines]. destruct l as [|a l]; [exact IH|].
    destruct (inspect lim mn (a :: l)); [now rewrite IH|reflexivity|exact IH].
Qed.

Lemma nothing_read_after_error_witness :
  relay_lines "http://localhost:11434" Json.unlimited "xyz"
    ["a" : str; dq "{'error': 'boom'}" : str; "b" : str] None
  = relay_lines "http://localhost:11434" Json.unlimited "xyz"
      ["a" : str; dq "{'error': 'boom'}" : str] (Some TimeoutException).
Proof.
  apply (nothing_read_after_error _ _ _ ["a" : str] _ ["b" : str] [] _ _
           (ErrorEvent (JStr "boom"))).
  reflexivity.
Defined.

(** X10. For model names in ASCII characters: with a default model that is
    not empty and has no surrounding whitespace, the model sent to the backend
    is never empty and never has surrounding whitespace. *)
Theorem model_sent_is_trimmed : forall DEFAULT_MODEL request,
    ascii_text DEFAULT_MODEL = true -> ascii_text (model request) = true ->
    DEFAULT_MODEL <> [] -> Py.strip DEFAULT_MODEL = DEFAULT_MODEL ->
    o_model (ollama_request DEFAULT_MODEL request) <> [] /\
    Py.strip (o_model (ollama_request DEFAULT_MODEL request))
    = o_model (ollama_request DEFAULT_MODEL request).
Proof.
  intros D request _ _ N S. unfold ollama_request. cbn [o_model].
  rewrite resolve_model_rule.
  destruct (Py.eqb (Py.strip (model request)) "") eqn:B; [now split|].
  destruct (Py.eqb (Py.lower (model request)) "string"); cbn [orb]; [now split|].
  split.
  - intros Z. rewrite Z in B. discriminate B.
  - destruct (strip_tight (model request)) as [S1 S2]. now apply strip_fix.
Qed.

Lemma model_sent_is_trimmed_witness :
  o_model (ollama_request "phi3:mini-128k" (mkChatRequest "  llama3 " [] true)) <> [] /\
  Py.strip (o_model (ollama_request "phi3:mini-128k" (mkChatRequest "  llama3 " [] true)))
  = o_model (ollama_request "phi3:mini-128k" (mkChatRequest "  llama3 " [] true)).
Proof. apply model_sent_is_trimmed; [reflexivity|reflexivity|discriminate|reflexivity]. Defined.

(** ** The normaliser: the shape of its result *)

(** *** Token counts through the stages *)

Lemma tokens_collapse : forall s run fresh,
    (run = true -> fresh = true) ->
    tokens_from fresh (Re.collapse_from run s) = tokens_from fresh s.
Proof.
  induction s as [|c s IH]; intros run fresh H; [reflexivity|].
  cbn [Re.collapse_from]. rewrite (tokens_from_cons fresh c s).
  destruct (Py.isspace c) eqn:Sc.
  - destruct run.
    + rewrite (H eq_refl). now apply IH.
    + rewrite tokens_from_cons. change (Py.isspace " ") with true. cbv iota.
      now apply IH.
  - rewrite tokens_from_cons, Sc. f_equal. apply IH. discriminate.
Qed.

Lemma tokens_normalize : forall s,
    tokens_from true (normalize_whitespace s) = tokens_from true s.
Proof.
  intros s. unfold normalize_whitespace, Re.collapse.
  rewrite tokens_from_strip. now apply tokens_collapse.
Qed.

Lemma tokens_capitalize : forall s fresh,
    tokens_from fresh (capitalize s) = tokens_from fresh s.
Proof.
  intros s fresh.
  destruct (capitalize_cases s) as [->|(c & t & -> & -> & A & U)]; [reflexivity|].
  rewrite !tokens_from_cons. now rewrite (upper_not_space c A), (alpha_not_space c A).
Qed.

Lemma fresh_after_tight : forall x fresh,
    x <> [] -> ends_space x = false -> fresh_after fresh x = false.
Proof.
  intros x fresh N E. unfold fresh_after, ends_space in *.
  destruct (Py.last_char x) eqn:L; [exact E|].
  now apply last_char_nil_inv in L.
Qed.

(** A run of characters other than whitespace added to the last token. *)
Lemma tokens_extend : forall x z fresh,
    x <> [] -> ends_space x = false -> forallb not_space z = true ->
    tokens_from fresh (x ++ z) = tokens_from fresh x.
Proof.
  intros x z fresh N E Z. rewrite tokens_from_app, fresh_after_tight by assumption.
  destruct z as [|d z]; [simpl; lia|].
  rewrite (tokens_from_nonspace (d :: z)) by (discriminate || exact Z). lia.
Qed.

Lemma alnum_not_space : forall c, Py.isalnum c = true -> Py.isspace c = false.
Proof. intro c. char_cases c. Qed.

Lemma tokens_sentence_end : forall s fresh,
    tokens_from fresh (sentence_end s) = tokens_from fresh s.
Proof.
  intros s fresh. rewrite sentence_end_unfold. unfold ends_alnum.
  destruct (Py.last_char s) as [c|] eqn:L; [|reflexivity].
  destruct (Py.isalnum c) eqn:A; [|reflexivity].
  destruct (negb _); [|reflexivity]. cbn [andb].
  apply tokens_extend; [intros ->; discriminate L| |reflexivity].
  unfold ends_space. rewrite L. now apply alnum_not_space.
Qed.

Lemma punctuation_not_space : forall z,
    forallb (fun c => existsb (Ascii.eqb c) (".!" : str)) z = true ->
    forallb not_space z = true.
Proof.
  induction z as [|c z IH]; intros H; [reflexivity|].
  simpl in H. apply andb_true_iff in H as [Hc H]. cbn [forallb].
  rewrite (IH H), andb_true_r. unfold not_space.
  rewrite orb_false_r in Hc. apply orb_true_iff in Hc as [E|E];
    apply Ascii.eqb_eq in E; subst c; reflexivity.
Qed.

Lemma tokens_question_format : forall s fresh,
    s <> [] -> ends_space s = false ->
    tokens_from fresh (question_format s) = tokens_from fresh s.
Proof.
  intros s fresh N E. unfold question_format.
  destruct (_ && _); [|reflexivity]. destruct (negb _); [|reflexivity].
  unfold Py.rstrip_chars.
  destruct (rstrip_by_split (fun c => existsb (Ascii.eqb c) (".!" : str)) s) as (z & Es & Z).
  set (x := Py.rstrip_by _ s) in *.
  apply punctuation_not_space in Z.
  destruct z as [|d z].
  - rewrite app_nil_r in Es. rewrite <- Es. now apply tokens_extend.
  - replace (tokens_from fresh s) with (tokens_from fresh (x ++ d :: z))
      by (now rewrite <- Es).
    rewrite !tokens_from_app.
    rewrite (tokens_from_nonspace (d :: z)) by (discriminate || exact Z).
    rewrite (tokens_from_nonspace (list_ascii_of_string "?"))
      by (discriminate || reflexivity).
    reflexivity.
Qed.

Lemma tokens_clarify : forall s,
    tokens_from true (clarify s) = tokens_from true s \/
    (tokens_from true s < 3 /\ tokens_from true (clarify s) = 2 + tokens_from true s).
Proof.
  intros s. unfold clarify. rewrite split_count.
  destruct (tokens_from true s <? 3) eqn:L; [|now left]. cbn [andb].
  destruct (negb (Py.endswith _ _)); [|now left].
  destruct (negb (existsb _ _)); [|now left].
  destruct (negb (Py.contains _ _)); [|now left].
  right. apply Nat.ltb_lt in L. split; [exact L|].
  rewrite tokens_from_app. reflexivity.
Qed.

(** Stage 1 on a text without surrounding whitespace. *)
Lemma end_mark_ends_space : forall a b,
    end_mark a = end_mark b -> ends_space b = false -> ends_space a = false.
Proof.
  intros a b E H. unfold end_mark, ends_space in *.
  destruct (Py.last_char a) as [c|]; [|reflexivity].
  destruct (Py.isspace c) eqn:Sc; [|reflexivity].
  rewrite (space_not_word c Sc) in E.
  destruct (Py.last_char b) as [d|]; [|discriminate E].
  destruct (Py.isword d); [discriminate E|]. injection E as <-. congruence.
Qed.

Lemma stage1_ends_space : forall t,
    ends_space t = false -> ends_space (run_repairs repairs t) = false.
Proof.
  intros t H. destruct (stage1_end_mark t) as [E _].
  now apply (end_mark_ends_space _ t).
Qed.

Lemma ends_space_app : forall x y, y <> [] -> ends_space (x ++ y) = ends_space y.
Proof. intros x y N. unfold ends_space. now rewrite last_char_app. Qed.

Lemma clarify_cases : forall s, clarify s = s \/ clarify s = "Please explain: " ++ s.
Proof.
  intros s. unfold clarify.
  destruct (_ && _); [|now left]. destruct (negb _); [|now left].
  destruct (negb _); [now right|now left].
Qed.

Lemma clarify_tight : forall s,
    s <> [] -> ends_space s = false ->
    clarify s <> [] /\ ends_space (clarify s) = false /\ starts_space (clarify s) = starts_space s
    \/ clarify s <> [] /\ ends_space (clarify s) = false /\ starts_space (clarify s) = false.
Proof.
  intros s N E. destruct (clarify_cases s) as [->| ->]; [left; auto|right].
  split; [discriminate|]. split; [|reflexivity]. now rewrite ends_space_app.
Qed.

Lemma strip_nonempty_tokens : forall t,
    t <> [] -> starts_space t = false -> 1 <= tokens_from true t.
Proof.
  intros [|c t] N S; [congruence|]. simpl in S. rewrite tokens_from_cons, S. lia.
Qed.

Lemma tokens_nonempty : forall s, 1 <= tokens_from true s -> s <> [].
Proof. intros s H ->. simpl in H. lia. Qed.

(** The token count of the result, for a text without surrounding
    whitespace. *)
Lemma pipeline_tokens : forall t,
    t <> [] -> ends_space t = false ->
    tokens_from true (pipeline t) = tokens_from true t \/
    (tokens_from true t < 3 /\ tokens_from true (pipeline t) = 2 + tokens_from true t).
Proof.
  intros t N E. unfold pipeline. rewrite stage1_repairs.
  pose proof (stage1_ends_space t E) as Eu.
  pose proof (proj2 (stage1_end_mark t) N) as Nu.
  set (u := run_repairs repairs t) in *.
  assert (Hc : clarify u <> [] /\ ends_space (clarify u) = false)
    by (destruct (clarify_tight u Nu Eu) as [(? & ? & _)|(? & ? & _)]; auto).
  destruct Hc as [Nc Ec].
  rewrite tokens_sentence_end, tokens_capitalize, tokens_normalize,
    (tokens_question_format _ _ Nc Ec).
  subst u. rewrite <- (stage1_tokens t). apply tokens_clarify.
Qed.

(** X11. Normalising a message of ASCII characters keeps the
    whitespace-separated tokens apart and drops none: the result has as many
    tokens as the message, or two more when the message has fewer than three
    tokens and received the prefix. *)
Theorem token_count_kept : forall m ctx,
    ascii_text m = true ->
    length (Py.split (fine_tune_user_message m ctx)) = length (Py.split m) \/
    (length (Py.split m) < 3 /\
     length (Py.split (fine_tune_user_message m ctx)) = 2 + length (Py.split m)).
Proof.
  intros m ctx _. destruct (fine_tune_cases m ctx) as [[-> _]|[-> N]]; [now left|].
  rewrite !split_count, <- (tokens_from_strip m).
  apply pipeline_tokens; [exact N|apply strip_tight].
Qed.

Lemma token_count_kept_witness :
  length (Py.split (fine_tune_user_message "fix bug" None))
  = length (Py.split "fix bug") \/
  (length (Py.split "fix bug") < 3 /\
   length (Py.split (fine_tune_user_message "fix bug" None))
   = 2 + length (Py.split "fix bug")).
Proof. apply token_count_kept. reflexivity. Defined.

(** *** The last stage keeps what the earlier ones established *)

Lemma starts_space_app : forall x y, x <> [] -> starts_space (x ++ y) = starts_space x.
Proof. intros [|c x] y N; [congruence|reflexivity]. Qed.

Lemma single_spaced_extend : forall x c,
    single_spaced x = true -> Py.isspace c = false -> single_spaced (x ++ [c]) = true.
Proof.
  induction x as [|d x IH]; intros c H Sc; [simpl; now rewrite Sc|].
  cbn [app single_spaced] in *. apply andb_true_iff in H as [Hd H].
  rewrite (IH c H Sc), andb_true_r.
  destruct (Py.isspace d); [|reflexivity].
  apply andb_true_iff in Hd as [-> Nx]. cbn [andb].
  destruct x as [|e x]; [simpl; now rewrite Sc|exact Nx].
Qed.

Lemma capitalize_app : forall x y, x <> [] -> capitalize (x ++ y) = capitalize x ++ y.
Proof.
  intros [|c x] y N; [congruence|]. cbn [app capitalize].
  destruct (negb _ && _); reflexivity.
Qed.

Lemma sentence_end_cases : forall r,
    sentence_end r = r \/
    (sentence_end r = r ++ "." /\ r <> [] /\ ends_space r = false).
Proof.
  intros r. rewrite sentence_end_unfold. unfold ends_alnum, ends_space.
  destruct (Py.last_char r) as [c|] eqn:L; [|now left].
  destruct (Py.isalnum c) eqn:A; [|now left].
  destruct (negb _); [|now left]. right.
  repeat split; [intros ->; discriminate L|now apply alnum_not_space].
Qed.

Lemma repaired_period : forall r, repaired r -> repaired (r ++ ".").
Proof.
  intros r H. unfold repaired in *. rewrite Forall_forall in *. intros a Ha.
  specialize (H a Ha). rewrite <- (app_nil_r r) in H.
  unfold repairs, common_fixes in Ha. cbn [map fst snd] in Ha.
  repeat (destruct Ha as [<-|Ha];
          [cbn [fst]; refine (no_match_terminator _ r [] _ false _ _ _ _ H);
           [reflexivity|reflexivity|reflexivity|intros []; reflexivity]|]).
  contradiction.
Qed.

Lemma sentence_end_idem : forall r, sentence_end (sentence_end r) = sentence_end r.
Proof.
  intros r. destruct (sentence_end_cases r) as [E|(E & _)]; [now rewrite !E|].
  rewrite E. rewrite sentence_end_unfold. unfold ends_alnum.
  change (r ++ list_ascii_of_string ".") with (r ++ ["."%char]).
  now rewrite last_char_app1.
Qed.

(** What the result of the normaliser looks like, for a message that is not
    blank. *)
Record tidy (x : str) : Prop :=
  { tidy_nonempty : x <> [];
    tidy_start : starts_space x = false;
    tidy_end : ends_space x = false;
    tidy_spaces : single_spaced x = true;
    tidy_capital : capitalize x = x;
    tidy_repaired : repaired x;
    tidy_ended : sentence_end x = x }.

Lemma pipeline_tidy : forall t,
    t <> [] -> starts_space t = false -> ends_space t = false -> tidy (pipeline t).
Proof.
  intros t N S E.
  assert (Np : pipeline t <> []).
  { apply tokens_nonempty. pose proof (strip_nonempty_tokens t N S).
    destruct (pipeline_tokens t N E) as [->|[_ ->]]; lia. }
  change (pipeline t) with (sentence_end (before_end t)) in *.
  destruct (before_end_facts t) as (R & S1 & S2 & C & K).
  destruct (sentence_end_cases (before_end t)) as [X|(X & Nr & _)].
  - rewrite X in *. constructor; auto.
  - pose proof (sentence_end_idem (before_end t)) as I. rewrite X in *.
    constructor; auto.
    + now rewrite starts_space_app.
    + now rewrite ends_space_app by discriminate.
    + now apply single_spaced_extend.
    + now rewrite capitalize_app, K.
    + now apply repaired_period.
Qed.

(** *** Stage 1 keeps the first character apart from whitespace *)

Lemma matches_head : forall a p m,
    Matches (Re.Lit a :: p) m -> lit_ok a = true -> starts_space m = false /\ m <> [].
Proof.
  intros a p m M L. inversion M as [|a' p' c m' E M'|]; subst.
  split; [|discriminate]. simpl.
  destruct (Py.isspace c) eqn:Sc; [|reflexivity].
  assert (W : Py.isword c = true)
    by (apply (lit_match_word (Py.lower_char c) c L), Ascii.eqb_refl).
  now rewrite (space_not_word c Sc) in W.
Qed.

Lemma repl_head : forall alts repl p m,
    repl_ok alts repl -> In p alts -> Matches p m ->
    starts_space (repl m) = false /\ repl m <> [] /\ starts_space m = false /\ m <> [].
Proof.
  intros alts repl p m OK Hp M.
  pose proof (wf_alts_in _ _ (ok_wf _ _ OK) Hp) as W.
  destruct p as [|[a|] p]; try discriminate W.
  cbn [wf_pattern wf_items] in W. apply andb_true_iff in W as [La _].
  pose proof (ok_tokens _ _ OK (Re.Lit a :: p) m true Hp M) as T1.
  pose proof (ok_tokens _ _ OK (Re.Lit a :: p) m false Hp M) as T0.
  cbn [pattern_tokens] in T1, T0.
  destruct (matches_head a p m M La) as [Sm Nm].
  destruct (repl m) as [|d x]; [simpl in T1; lia|].
  repeat split; auto; [|discriminate].
  simpl. destruct (Py.isspace d) eqn:Sd; [|reflexivity].
  rewrite tokens_from_cons, Sd in T1, T0. lia.
Qed.

Lemma scan_starts_space : forall alts repl s o,
    repl_ok alts repl -> Scan alts repl s o -> starts_space o = starts_space s.
Proof.
  intros alts repl s o OK H.
  destruct H as [|c s o Hc H|w s o Hw Hall Hs M H|m s o Hm M Hs H]; try reflexivity.
  - now rewrite !starts_space_app.
  - destruct (match_at_matches _ _ _ (ok_wf _ _ OK) M) as (p & Hp & Mp).
    destruct (repl_head _ _ _ _ OK Hp Mp) as (S1 & N1 & S2 & N2).
    now rewrite !starts_space_app, S1, S2.
Qed.

Lemma stage1_starts_space : forall t,
    starts_space (run_repairs repairs t) = starts_space t.
Proof.
  intros t.
  apply (run_repairs_scan repairs (fun x => starts_space x = starts_space t) repairs_ok);
    [|reflexivity].
  intros alts repl a o OK Sc <-. exact (scan_starts_space alts repl a o OK Sc).
Qed.

(** *** What the later stages keep of a text *)

(** Words made of letters only, as the greeting and the question words are. *)
Definition letters (w : str) : bool := forallb Py.isalpha w.

Lemma lower_space : forall c, Py.isspace c = true -> Py.lower_char c = c.
Proof. intro c. char_cases c. Qed.

Lemma startswith_collapse : forall w s,
    letters w = true ->
    Py.startswith w (Py.lower (Re.collapse_from false s)) = Py.startswith w (Py.lower s).
Proof.
  induction w as [|a w IH]; intros s L; [reflexivity|].
  cbn [letters forallb] in L. apply andb_true_iff in L as [La L].
  destruct s as [|d s]; [reflexivity|]. cbn [Re.collapse_from].
  destruct (Py.isspace d) eqn:Sd.
  - cbn [Py.lower map Py.startswith]. rewrite (lower_space d Sd).
    change (Py.lower_char " ") with " "%char.
    assert (X : forall e, Py.isspace e = true -> Ascii.eqb a e = false).
    { intros e Se. destruct (Ascii.eqb_spec a e) as [->|]; [|reflexivity].
      now rewrite (alpha_not_space e La) in Se. }
    now rewrite (X d Sd), (X " "%char eq_refl).
  - cbn [Py.lower map Py.startswith]. f_equal. now apply IH.
Qed.

Lemma startswith_nil_r : forall w, Py.startswith w [] = match w with [] => true | _ => false end.
Proof. now intros [|a w]. Qed.

Lemma startswith_period : forall w x,
    letters w = true -> Py.startswith w (x ++ ".") = Py.startswith w x.
Proof.
  induction w as [|a w IH]; intros x L; [reflexivity|].
  cbn [letters forallb] in L. apply andb_true_iff in L as [La L].
  destruct x as [|d x].
  - cbn. destruct (Ascii.eqb_spec a "."%char) as [->|]; [discriminate La|reflexivity].
  - cbn [app Py.startswith]. f_equal. now apply IH.
Qed.

Lemma contains_cons : forall w c s,
    Py.contains w (c :: s) = Py.startswith w (c :: s) || Py.contains w s.
Proof. reflexivity. Qed.

Lemma contains_collapse : forall w s run,
    w <> [] -> letters w = true ->
    Py.contains w (Py.lower (Re.collapse_from run s)) = Py.contains w (Py.lower s).
Proof.
  intros w s run N L. revert run. induction s as [|d s IH]; intros run; [reflexivity|].
  destruct w as [|a w]; [congruence|].
  assert (La : Py.isalpha a = true)
    by (cbn [letters forallb] in L; now apply andb_true_iff in L as [La _]).
  assert (X : forall e r, Py.isspace e = true -> Py.startswith (a :: w) (e :: r) = false).
  { intros e r Se. cbn [Py.startswith].
    destruct (Ascii.eqb_spec a e) as [->|]; [|reflexivity].
    now rewrite (alpha_not_space e La) in Se. }
  cbn [Re.collapse_from]. destruct (Py.isspace d) eqn:Sd.
  - cbn [Py.lower map]. rewrite (lower_space d Sd), (contains_cons _ d).
    rewrite (X d _ Sd). cbn [orb]. destruct run.
    + apply IH.
    + change (Py.lower (" "%char :: ?r)) with (" "%char :: Py.lower r).
      rewrite contains_cons, (X " "%char _ eq_refl). apply IH.
  - change (Py.lower (d :: ?r)) with (Py.lower_char d :: Py.lower r).
    rewrite !contains_cons, IH. f_equal.
    pose proof (startswith_collapse (a :: w) (d :: s) L) as Q.
    cbn [Re.collapse_from] in Q. rewrite Sd in Q. exact Q.
Qed.

Lemma startswith_app_l : forall w x y,
    Py.startswith w x = true -> Py.startswith w (x ++ y) = true.
Proof.
  induction w as [|a w IH]; intros x y H; [reflexivity|].
  destruct x as [|d x]; [discriminate H|]. cbn [app Py.startswith] in *.
  apply andb_true_iff in H as [-> H]. now apply IH.
Qed.

Lemma contains_app_l : forall w x y,
    Py.contains w x = true -> Py.contains w (x ++ y) = true.
Proof.
  intros w x y. induction x as [|d x IH]; intros H.
  - destruct w; [now destruct y|]. discriminate H.
  - cbn [app]. rewrite contains_cons in *. apply orb_true_iff in H as [H|H].
    + pose proof (startswith_app_l _ _ y H) as K. cbn [app] in K. now rewrite K.
    + rewrite (IH H). apply orb_true_r.
Qed.

(** A text without surrounding whitespace only has its inner runs collapsed. *)
Lemma collapse_ends_space : forall s,
    ends_space s = false -> ends_space (Re.collapse_from false s) = false.
Proof.
  intros s H. unfold ends_space in H.
  destruct (Py.last_char s) as [c|] eqn:L.
  - destruct (last_char_inv _ _ L) as [y ->].
    rewrite collapse_from_last by exact H.
    unfold ends_space. now rewrite last_char_app1.
  - now rewrite (last_char_nil_inv _ L).
Qed.

Lemma normalize_tight : forall s,
    starts_space s = false -> ends_space s = false ->
    normalize_whitespace s = Re.collapse_from false s.
Proof.
  intros s S E. unfold normalize_whitespace, Re.collapse.
  apply strip_fix; [now rewrite collapse_starts_space|now apply collapse_ends_space].
Qed.

Lemma contains_char : forall a s, Py.contains [a] s = existsb (Ascii.eqb a) s.
Proof.
  intros a s. induction s as [|c s IH]; [reflexivity|].
  rewrite contains_cons, IH. cbn [Py.startswith existsb]. now rewrite andb_true_r.
Qed.

Lemma mark_collapse : forall s run,
    existsb (Ascii.eqb "?") (Re.collapse_from run s) = existsb (Ascii.eqb "?") s.
Proof.
  induction s as [|c s IH]; intros run; [reflexivity|]. cbn [Re.collapse_from].
  destruct (Py.isspace c) eqn:Sc.
  - assert (E : Ascii.eqb "?" c = false)
      by (destruct (Ascii.eqb_spec "?"%char c) as [<-|]; [discriminate Sc|reflexivity]).
    cbn [existsb]. rewrite E. destruct run; cbn [existsb orb]; apply IH.
  - cbn [existsb]. now rewrite IH.
Qed.

Lemma mark_capitalize : forall s,
    existsb (Ascii.eqb "?") (capitalize s) = existsb (Ascii.eqb "?") s.
Proof.
  intros s. destruct (capitalize_cases s) as [->|(c & t & -> & -> & A & U)]; [reflexivity|].
  cbn [existsb]. f_equal. revert A. char_cases c.
Qed.

(** The text before the last stage when the question stage did nothing. *)
Definition finish (c : str) : str := sentence_end (capitalize (normalize_whitespace c)).

Lemma lower_app : forall x y, Py.lower (x ++ y) = Py.lower x ++ Py.lower y.
Proof. intros. apply map_app. Qed.

Lemma finish_lower : forall c,
    starts_space c = false -> ends_space c = false ->
    Py.lower (finish c) = Py.lower (Re.collapse_from false c) \/
    Py.lower (finish c) = Py.lower (Re.collapse_from false c) ++ ".".
Proof.
  intros c S E. unfold finish. rewrite (normalize_tight c S E).
  destruct (sentence_end_cases (capitalize (Re.collapse_from false c))) as [->|(-> & _)].
  - left. apply lower_capitalize.
  - right. rewrite lower_app, lower_capitalize. reflexivity.
Qed.

Lemma finish_startswith : forall w c,
    letters w = true -> starts_space c = false -> ends_space c = false ->
    Py.startswith w (Py.lower (finish c)) = Py.startswith w (Py.lower c).
Proof.
  intros w c L S E. destruct (finish_lower c S E) as [-> | ->].
  - now apply startswith_collapse.
  - rewrite startswith_period by exact L. now apply startswith_collapse.
Qed.

Lemma finish_contains : forall w c,
    w <> [] -> letters w = true -> starts_space c = false -> ends_space c = false ->
    Py.contains w (Py.lower c) = true -> Py.contains w (Py.lower (finish c)) = true.
Proof.
  intros w c N L S E H. rewrite <- (contains_collapse w c false N L) in H.
  destruct (finish_lower c S E) as [-> | ->]; [exact H|now apply contains_app_l].
Qed.

Lemma finish_mark : forall c,
    starts_space c = false -> ends_space c = false ->
    Py.contains "?" c = true -> Py.contains "?" (finish c) = true.
Proof.
  intros c S E H. unfold finish. rewrite (normalize_tight c S E).
  change (list_ascii_of_string "?") with ["?"%char] in *.
  assert (K : Py.contains ["?"%char] (capitalize (Re.collapse_from false c)) = true)
    by (rewrite contains_char, mark_capitalize, mark_collapse, <- contains_char; exact H).
  destruct (sentence_end_cases (capitalize (Re.collapse_from false c))) as [->|(-> & _)];
    [exact K|now apply contains_app_l].
Qed.

Lemma finish_tokens : forall c,
    tokens_from true (finish c) = tokens_from true c.
Proof.
  intros c. unfold finish.
  now rewrite tokens_sentence_end, tokens_capitalize, tokens_normalize.
Qed.

Lemma finish_last : forall c ch,
    Py.last_char c = Some ch -> Py.isalnum ch = false -> Py.isspace ch = false ->
    Py.last_char (finish c) = Some ch.
Proof.
  intros c ch L A S. unfold finish.
  assert (K : Py.last_char (capitalize (normalize_whitespace c)) = Some ch).
  { apply last_char_capitalize; [now apply last_char_normalize|].
    revert A. char_cases ch. }
  rewrite sentence_end_unfold. unfold ends_alnum. now rewrite K, A.
Qed.

(** *** A tidy text that two stages leave alone is a fixed point *)

Lemma tidy_fixed_point : forall x ctx,
    tidy x -> clarify x = x -> question_format x = x ->
    fine_tune_user_message x ctx = x.
Proof.
  intros x ctx [N S E C K R T] A B.
  destruct (fine_tune_cases x ctx) as [[X _]|[-> _]]; [exact X|].
  rewrite (strip_fix x S E). unfold pipeline.
  rewrite stage1_repairs, (run_repairs_id repairs x R), A, B.
  rewrite (normalize_tight x S E), (collapse_fix x C), K. exact T.
Qed.

Lemma endswith_last : forall a s,
    Py.endswith [a] s = true <-> Py.last_char s = Some a.
Proof.
  intros a s. rewrite endswith_char. destruct (Py.last_char s) as [c|].
  - split; [intros H; apply Ascii.eqb_eq in H; now subst|].
    intros [= ->]. apply Ascii.eqb_refl.
  - split; discriminate.
Qed.

Lemma question_format_cases : forall c,
    question_format c = c \/
    (Py.endswith "?" (question_format c) = true).
Proof.
  intros c. unfold question_format.
  destruct (_ && _); [|now left]. destruct (negb _); [|now left]. right.
  change (list_ascii_of_string "?") with ["?"%char].
  apply endswith_last, last_char_app1.
Qed.

Lemma question_words_letters : forall w, In w question_words -> letters w = true.
Proof.
  intros w H. unfold question_words, strs in H. cbn [map] in H.
  repeat (destruct H as [<-|H]; [reflexivity|]). contradiction.
Qed.

Lemma greeting_words_letters : forall w,
    In w greeting_words -> w <> [] /\ letters w = true.
Proof.
  intros w H. unfold greeting_words, strs in H. cbn [map] in H.
  repeat (destruct H as [<-|H]; [split; [discriminate|reflexivity]|]). contradiction.
Qed.

Lemma existsb_same : forall {A} (f g : A -> bool) l,
    (forall x, In x l -> f x = g x) -> existsb f l = existsb g l.
Proof.
  intros A f g l H. induction l as [|x l IH]; [reflexivity|].
  cbn [existsb]. rewrite (H x (or_introl eq_refl)), IH; [reflexivity|].
  intros y Hy. apply H. now right.
Qed.

Lemma existsb_mono : forall {A} (f g : A -> bool) l,
    (forall x, In x l -> f x = true -> g x = true) ->
    existsb f l = true -> existsb g l = true.
Proof.
  intros A f g l H E. apply existsb_exists in E as (x & Hx & Fx).
  apply existsb_exists. exists x. auto.
Qed.

(** The second pass through the question stage. *)
Lemma finish_question_format : forall c,
    starts_space c = false -> ends_space c = false ->
    question_format c = c -> Py.endswith "?" c = false ->
    question_format (finish c) = finish c.
Proof.
  intros c S E Q M. unfold question_format in *.
  rewrite (existsb_same _ (fun w => Py.startswith w (Py.lower c)) question_words)
    by (intros w Hw; apply finish_startswith; auto using question_words_letters).
  destruct (existsb _ question_words); [|reflexivity].
  rewrite M in Q. cbn [negb andb] in Q.
  destruct (Py.endswith "." c) eqn:D.
  - change (list_ascii_of_string ".") with ["."%char] in D.
    apply endswith_last in D.
    pose proof (finish_last c _ D eq_refl eq_refl) as L.
    apply endswith_last in L.
    change (list_ascii_of_string ".") with ["."%char].
    rewrite L. cbn [negb]. destruct (_ && _); reflexivity.
  - exfalso. cbn [negb] in Q.
    assert (L : Py.last_char c = Some "?"%char)
      by (rewrite <- Q; apply last_char_app1).
    change (list_ascii_of_string "?") with ["?"%char] in M.
    apply endswith_last in L. congruence.
Qed.

(** The second pass through the clarification stage. *)
Lemma finish_clarify : forall u,
    starts_space u = false -> ends_space u = false -> u <> [] ->
    Py.endswith "?" (clarify u) = false ->
    clarify (finish (clarify u)) = finish (clarify u).
Proof.
  intros u S E N M.
  assert (G : forall c, 3 <= tokens_from true c -> clarify (finish c) = finish c).
  { intros c H. unfold clarify. rewrite split_count, finish_tokens.
    apply Nat.ltb_ge in H. now rewrite H. }
  unfold clarify in M |- * at 2 3.
  rewrite split_count in *.
  destruct (tokens_from true u <? 3) eqn:L;
    [|apply G; now apply Nat.ltb_ge in L].
  destruct (Py.endswith "?" u) eqn:Q; [cbn [negb andb] in M; congruence|].
  cbn [negb andb] in *.
  destruct (existsb (fun w => Py.contains w (Py.lower u)) greeting_words) eqn:H.
  - cbn [negb]. unfold clarify.
    assert (H' : existsb (fun w => Py.contains w (Py.lower (finish u))) greeting_words = true).
    { revert H. apply existsb_mono. intros w Hw.
      destruct (greeting_words_letters w Hw). now apply finish_contains. }
    rewrite H'. cbn [negb]. destruct (_ && _); reflexivity.
  - cbn [negb]. destruct (Py.contains "?" u) eqn:K; cbn [negb].
    + unfold clarify. rewrite (finish_mark u S E K). cbn [negb].
      destruct (_ && _); [|reflexivity].
      match goal with |- context [negb ?b] => destruct b end; reflexivity.
    + apply G. rewrite tokens_from_app.
      change (tokens_from true (list_ascii_of_string "Please explain: ")) with 2.
      change (fresh_after true (list_ascii_of_string "Please explain: ")) with true.
      pose proof (strip_nonempty_tokens u N S). lia.
Qed.

(** A second pass over a result changes nothing. *)
Lemma second_pass : forall m ctx ctx',
    fine_tune_user_message (fine_tune_user_message m ctx) ctx'
    = fine_tune_user_message m ctx.
Proof.
  intros m ctx ctx'.
  destruct (fine_tune_cases m ctx) as [[E Z]|[E N]]; rewrite E.
  - destruct (fine_tune_cases m ctx') as [[E' _]|[_ N']]; [exact E'|contradiction].
  - destruct (strip_tight m) as [S1 S2]. set (t := Py.strip m) in *.
    pose proof (pipeline_tidy t N S1 S2) as T.
    destruct (Py.endswith "?" (pipeline t)) eqn:Q.
    { destruct T. now apply fixed_point. }
    unfold pipeline in *. rewrite stage1_repairs in *.
    pose proof (stage1_ends_space t S2) as Eu.
    pose proof (proj2 (stage1_end_mark t) N) as Nu.
    pose proof (stage1_starts_space t) as Su. rewrite S1 in Su.
    set (u := run_repairs repairs t) in *.
    assert (Hc : starts_space (clarify u) = false /\ ends_space (clarify u) = false).
    { destruct (clarify_tight u Nu Eu) as [(_ & ? & X)|(_ & ? & X)]; split; congruence. }
    destruct Hc as [Sc Ec].
    fold (finish (question_format (clarify u))) in *.
    destruct (question_format_cases (clarify u)) as [B|B].
    + rewrite B in *.
      assert (M : Py.endswith "?" (clarify u) = false).
      { destruct (Py.endswith "?" (clarify u)) eqn:M; [|reflexivity].
        change (list_ascii_of_string "?") with ["?"%char] in *.
        apply endswith_last in M.
        pose proof (finish_last _ _ M eq_refl eq_refl) as M'.
        apply endswith_last in M'. congruence. }
      apply tidy_fixed_point; [exact T|now apply finish_clarify|].
      now apply finish_question_format.
    + exfalso. change (list_ascii_of_string "?") with ["?"%char] in *.
      apply endswith_last in B.
      pose proof (finish_last _ _ B eq_refl eq_refl) as B'.
      apply endswith_last in B'. congruence.
Qed.

(** X12. Normalising is idempotent on messages of ASCII characters: a second
    pass over the normalised message changes nothing, whatever the prior
    messages of either pass. *)
Theorem normalisation_idempotent : forall m ctx ctx',
    ascii_text m = true ->
    fine_tune_user_message (fine_tune_user_message m ctx) ctx'
    = fine_tune_user_message m ctx.
Proof. intros m ctx ctx' _. apply second_pass. Qed.

Lemma normalisation_idempotent_witness :
  fine_tune_user_message (fine_tune_user_message "hi  there" None) None
  = fine_tune_user_message "hi  there" None.
Proof. apply normalisation_idempotent. reflexivity. Defined.

(** *** Statements about the result *)

(** X14. The result for a message of ASCII characters with content is not
    empty, has no whitespace at either end, and is single-spaced: every
    whitespace character in it is one space between two other characters. *)
Theorem result_is_trimmed : forall m ctx,
    ascii_text m = true ->
    Py.strip m <> [] ->
    let r := fine_tune_user_message m ctx in
    r <> [] /\ Py.strip r = r /\ single_spaced r = true.
Proof.
  intros m ctx _ N. destruct (fine_tune_cases m ctx) as [[_ Z]|[E _]]; [contradiction|].
  cbv zeta. rewrite E. destruct (strip_tight m) as [S1 S2].
  destruct (pipeline_tidy (Py.strip m) N S1 S2).
  repeat split; auto. now apply strip_fix.
Qed.

Lemma result_is_trimmed_witness :
  let r := fine_tune_user_message "  fix   teh bug " None in
  r <> [] /\ Py.strip r = r /\ single_spaced r = true.
Proof. apply result_is_trimmed; [reflexivity|discriminate]. Defined.

Definition starts_lower (s : str) : bool :=
  match s with
  | c :: _ => Py.islower c
  | [] => false
  end.

Lemma lower_is_alpha : forall c,
    Py.islower c = true -> Py.isalpha c = true /\ Py.isupper c = false.
Proof. intro c. char_cases c. Qed.

Lemma upper_changes : forall c, Py.islower c = true -> Py.upper_char c <> c.
Proof. intro c. char_cases c. Qed.

Lemma space_not_lower : forall c, Py.isspace c = true -> Py.islower c = false.
Proof. intro c. char_cases c. Qed.

Lemma capitalize_fix_head : forall x, capitalize x = x -> starts_lower x = false.
Proof.
  intros [|c x] K; [reflexivity|]. simpl. destruct (Py.islower c) eqn:L; [|reflexivity].
  destruct (lower_is_alpha c L) as [A U]. unfold capitalize in K. rewrite A, U in K.
  injection K as K. now destruct (upper_changes c L).
Qed.

(** X15. No result begins with a lower-case letter. *)
Theorem result_not_lower_case : forall m ctx,
    starts_lower (fine_tune_user_message m ctx) = false.
Proof.
  intros m ctx. destruct (fine_tune_cases m ctx) as [[-> Z]|[-> N]].
  - destruct m as [|c m]; [reflexivity|]. apply space_not_lower.
    pose proof (strip_nil_spaces _ Z) as F. simpl in F.
    now apply andb_true_iff in F as [F _].
  - destruct (strip_tight m) as [S1 S2].
    destruct (pipeline_tidy (Py.strip m) N S1 S2). now apply capitalize_fix_head.
Qed.

Lemma no_match_blank : forall alts s prev,
    wf_alts alts = true -> forallb Py.isspace s = true -> no_match alts prev s = true.
Proof.
  intros alts s prev W. revert prev. induction s as [|c s IH]; intros prev F; [reflexivity|].
  simpl in F. apply andb_true_iff in F as [Fc F].
  rewrite no_match_cons, (IH _ F), andb_true_r.
  rewrite match_at_nonword; [reflexivity|exact W|].
  simpl. now apply space_not_word.
Qed.

Lemma repairs_wf : forall r, In r repairs -> wf_alts (fst r) = true.
Proof.
  intros r H. unfold repairs, common_fixes in H. cbn [map fst snd] in H.
  repeat (destruct H as [<-|H]; [reflexivity|]). contradiction.
Qed.

(** X16. Nothing is left to repair in the result for a message of ASCII
    characters: none of the five patterns of stage 1 (the seven contractions
    without apostrophe, [teh], [adn], [yoru], [you are right]) matches
    anywhere in it, so stage 1 leaves it as it is. *)
Theorem result_is_repaired : forall m ctx,
    ascii_text m = true ->
    let r := fine_tune_user_message m ctx in
    Forall (fun fix_ => no_match (fst fix_) false r = true) repairs /\
    apply_common_fixes (fix_contractions r) = r.
Proof.
  intros m ctx _ r.
  assert (R : repaired r).
  { subst r. destruct (fine_tune_cases m ctx) as [[-> Z]|[-> N]].
    - unfold repaired. rewrite Forall_forall. intros a Ha.
      apply no_match_blank; [now apply repairs_wf|now apply strip_nil_spaces].
    - destruct (strip_tight m) as [S1 S2].
      now destruct (pipeline_tidy (Py.strip m) N S1 S2). }
  split; [exact R|]. rewrite stage1_repairs. now apply run_repairs_id.
Qed.

Lemma result_is_repaired_witness :
  let r := fine_tune_user_message "you  are right, i dont know teh way" None in
  Forall (fun fix_ => no_match (fst fix_) false r = true) repairs /\
  apply_common_fixes (fix_contractions r) = r.
Proof. apply result_is_repaired. reflexivity. Defined.

(** ** The error lines of the relay as JSON *)

(** A character that a JSON string literal holds as it is. *)
Definition plain (c : ascii) : bool :=
  (32 <=? Py.code c) && negb (Ascii.eqb c "034") && negb (Ascii.eqb c "\").

Lemma prepend_nil : forall o, Json.prepend [] o = o.
Proof. now intros [t r| | |]. Qed.

Lemma prepend_app : forall x y o,
    Json.prepend x (Json.prepend y o) = Json.prepend (x ++ y) o.
Proof. intros x y [t r| | |]; cbn; [now rewrite app_assoc|reflexivity..]. Qed.

Lemma string_body_plain : forall x rest,
    forallb plain x = true ->
    Json.parse_string_body (x ++ rest) = Json.prepend x (Json.parse_string_body rest).
Proof.
  induction x as [|c x IH]; intros rest H; [now rewrite prepend_nil|].
  cbn [forallb] in H. apply andb_true_iff in H as [Hc H].
  unfold plain in Hc. apply andb_true_iff in Hc as [Hc B].
  apply andb_true_iff in Hc as [C Q].
  apply negb_true_iff in Q, B. apply Nat.leb_le in C.
  cbn [app Json.parse_string_body]. rewrite Q, B.
  replace (Py.code c <? 32) with false by (symmetry; apply Nat.ltb_ge; exact C).
  rewrite (IH rest H). apply (prepend_app [c] x).
Qed.

(** An escaped quotation mark inside a string literal. *)
Lemma string_body_quote : forall rest,
    Json.parse_string_body ("\"%char :: "034"%char :: rest)
    = Json.prepend ["034"%char] (Json.parse_string_body rest).
Proof. reflexivity. Qed.

Lemma string_body_end : forall rest,
    Json.parse_string_body ("034"%char :: rest) = Json.Parsed [] rest.
Proof. reflexivity. Qed.

Lemma skip_ws_keep : forall c x, Json.is_ws c = false -> Json.skip_ws (c :: x) = c :: x.
Proof. intros c x H. unfold Json.skip_ws. cbn [Py.lstrip_by]. now rewrite H. Qed.

Lemma skip_ws_drop : forall c x,
    Json.is_ws c = true -> Json.skip_ws (c :: x) = Json.skip_ws x.
Proof. intros c x H. unfold Json.skip_ws. cbn [Py.lstrip_by]. now rewrite H. Qed.

Lemma parse_value_string : forall lim d f rest,
    Json.parse_value lim d (S f) ("034"%char :: rest) =
    match Json.parse_string_body rest with
    | Json.Parsed t r => Json.Parsed (JStr t) r
    | Json.Invalid => Json.Invalid
    | Json.Raises => Json.Raises
    | Json.Exhausted => Json.Exhausted
    end.
Proof. reflexivity. Qed.

Lemma parse_value_object : forall lim d f rest,
    Json.may_nest lim d = true ->
    Json.parse_value lim d (S f) ("{"%char :: "034"%char :: rest)
    = Json.parse_members lim (S d) f [] ("034"%char :: rest).
Proof. intros lim d f rest H. cbn [Json.parse_value]. cbn. now rewrite H. Qed.

Lemma parse_members_key : forall lim d f acc rest,
    Json.parse_members lim d (S f) acc ("034"%char :: rest) =
    match Json.parse_string_body rest with
    | Json.Parsed k rest =>
        let r := Json.skip_ws rest in
        if Json.at_char ":" r then
          match Json.parse_value lim d f (Json.skip_ws (skipn 1 r)) with
          | Json.Parsed v rest' =>
              let r' := Json.skip_ws rest' in
              if Json.at_char "," r'
              then Json.parse_members lim d f (Json.dict_set k v acc)
                                      (Json.skip_ws (skipn 1 r'))
              else if Json.at_char "}" r'
                   then Json.Parsed (JDict (Json.dict_set k v acc)) (skipn 1 r')
                   else Json.Invalid
          | Json.Invalid => Json.Invalid
          | Json.Raises => Json.Raises
          | Json.Exhausted => Json.Exhausted
          end
        else Json.Invalid
    | Json.Invalid => Json.Invalid
    | Json.Raises => Json.Raises
    | Json.Exhausted => Json.Exhausted
    end.
Proof. reflexivity. Qed.

(** The line of an error object whose text is written [raw] and read [t]. *)
Lemma error_line_loads : forall raw t,
    Json.parse_string_body (raw ++ dq "'}" ++ newline) = Json.Parsed t ("}" ++ newline) ->
    Json.loads (dq "{'error': '" ++ raw ++ dq "'}" ++ newline)
    = Some (JDict [("error" : str, JStr t)]).
Proof.
  intros raw t H. unfold Json.loads, Json.decode, Json.loads_fuel.
  set (s := dq "{'error': '" ++ raw ++ dq "'}" ++ newline).
  assert (F : exists f, 2 * length s + 2 = S (S (S f))).
  { exists (2 * length s - 1). subst s. rewrite length_app. simpl. lia. }
  destruct F as [f ->]. subst s.
  set (tail := raw ++ dq "'}" ++ newline) in *.
  change (dq "{'error': '" ++ tail)
    with ("{"%char :: "034"%char
          :: list_ascii_of_string "error"
             ++ "034"%char :: ":"%char :: " "%char :: "034"%char :: tail).
  rewrite skip_ws_keep by reflexivity.
  rewrite parse_value_object by reflexivity. rewrite parse_members_key.
  rewrite (string_body_plain "error") by reflexivity.
  rewrite string_body_end. cbn [Json.prepend]. cbv zeta.
  rewrite skip_ws_keep by reflexivity. cbn [Json.at_char skipn].
  change (Ascii.eqb ":" ":") with true. cbv iota.
  rewrite skip_ws_drop, skip_ws_keep by reflexivity.
  rewrite parse_value_string, H.
  reflexivity.
Qed.

Lemma plain_line_body : forall t rest,
    forallb plain t = true ->
    Json.parse_string_body (t ++ "034"%char :: rest) = Json.Parsed t rest.
Proof.
  intros t rest H. rewrite (string_body_plain t) by exact H.
  rewrite string_body_end. cbn [Json.prepend]. now rewrite app_nil_r.
Qed.

(** X17. An error line of the relay whose text has no quotation mark, no
    backslash and no control character is a JSON object: read back with
    [json.loads] it is the object with that text under [error]. *)
Theorem error_line_round_trip : forall float_repr (t : str),
    forallb plain t = true ->
    Json.loads (render float_repr (ErrorEvent (JStr t)))
    = Some (JDict [("error" : str, JStr t)]).
Proof.
  intros fr t H. unfold render. cbn [Fmt.to_str].
  apply error_line_loads. now apply plain_line_body.
Qed.

Lemma error_line_round_trip_witness :
  Json.loads (render (fun x => x) (ErrorEvent (JStr "Ollama API error: 500")))
  = Some (JDict [("error" : str, JStr "Ollama API error: 500")]).
Proof. apply error_line_round_trip. reflexivity. Defined.

(** X18. The two guidance lines are JSON objects whenever the model name has
    no quotation mark, backslash or control character: the name is written
    between escaped quotation marks and read back between plain ones. *)
Theorem guidance_round_trip : forall float_repr (model_name : str),
    forallb plain model_name = true ->
    Json.loads (render float_repr (ErrorEvent (JStr (install_guidance model_name))))
    = Some (JDict [("error" : str,
                    JStr (dq "Model '" ++ model_name
                          ++ dq "' not found in Ollama. Please install it using: ollama pull "
                          ++ model_name))]) /\
    Json.loads (render float_repr (ErrorEvent (JStr (timeout_guidance model_name))))
    = Some (JDict [("error" : str,
                    JStr (dq "Model loading timeout. The model may be loading for the first time. Please try again in a moment, or check if the model '"
                          ++ model_name ++ dq "' is properly installed in Ollama."))]).
Proof.
  intros fr mn H. unfold render. cbn [Fmt.to_str].
  split; apply error_line_loads;
    change (dq "'}" ++ newline) with ("034"%char :: "}"%char :: newline).
  - unfold install_guidance.
    change (dq "Model \'") with (list_ascii_of_string "Model " ++ ["\"%char; "034"%char]).
    change (dq "\' not found in Ollama. Please install it using: ollama pull ")
      with ("\"%char :: "034"%char
            :: list_ascii_of_string " not found in Ollama. Please install it using: ollama pull ").
    rewrite <- !app_assoc. cbn [app].
    rewrite (string_body_plain "Model ") by reflexivity.
    rewrite string_body_quote, (string_body_plain mn) by exact H.
    rewrite string_body_quote.
    rewrite (string_body_plain
               " not found in Ollama. Please install it using: ollama pull ")
      by reflexivity.
    rewrite (plain_line_body mn) by exact H.
    cbn [Json.prepend]. reflexivity.
  - unfold timeout_guidance.
    change (dq "Model loading timeout. The model may be loading for the first time. Please try again in a moment, or check if the model \'")
      with (list_ascii_of_string "Model loading timeout. The model may be loading for the first time. Please try again in a moment, or check if the model "
            ++ ["\"%char; "034"%char]).
    change (dq "\' is properly installed in Ollama.")
      with ("\"%char :: "034"%char
            :: list_ascii_of_string " is properly installed in Ollama.").
    rewrite <- !app_assoc. cbn [app].
    rewrite (string_body_plain "Model loading timeout. The model may be loading for the first time. Please try again in a moment, or check if the model ")
      by reflexivity.
    rewrite string_body_quote, (string_body_plain mn) by exact H.
    rewrite string_body_quote.
    rewrite (plain_line_body " is properly installed in Ollama.") by reflexivity.
    cbn [Json.prepend]. reflexivity.
Qed.

Lemma guidance_round_trip_witness :
  Json.loads (render (fun x => x) (ErrorEvent (JStr (install_guidance "xyz"))))
  = Some (JDict [("error" : str,
                  JStr (dq "Model '" ++ "xyz"
                        ++ dq "' not found in Ollama. Please install it using: ollama pull "
                        ++ "xyz"))]).
Proof. apply (proj1 (guidance_round_trip (fun x => x) "xyz" eq_refl)). Defined.


Lemma strip_idem : forall s, Py.strip (Py.strip s) = Py.strip s.
Proof. intros s. destruct (strip_tight s). now apply strip_fix. Qed.

(** X19. The whitespace around a message of ASCII characters with content
    does not matter: the message and its trimmed form have the same result. *)
Theorem surrounding_whitespace_ignored : forall m ctx,
    ascii_text m = true ->
    Py.strip m <> [] ->
    fine_tune_user_message (Py.strip m) ctx = fine_tune_user_message m ctx.
Proof.
  intros m ctx _ N.
  destruct (fine_tune_cases m ctx) as [[_ Z]|[-> _]]; [contradiction|].
  destruct (fine_tune_cases (Py.strip m) ctx) as [[_ Z]|[-> _]].
  - rewrite strip_idem in Z. contradiction.
  - now rewrite strip_idem.
Qed.

Lemma surrounding_whitespace_ignored_witness :
  fine_tune_user_message (Py.strip "  dont  stop ") None
  = fine_tune_user_message "  dont  stop " None.
Proof. apply surrounding_whitespace_ignored; [reflexivity|discriminate]. Defined.

(** ** Preparing a prepared conversation *)

Lemma prepared_twice : forall all all' i j msg,
    prepared all' j (prepared all i msg) = prepared all i msg.
Proof.
  intros all all' i j msg. unfold prepared.
  destruct (Py.eqb (role msg) "user") eqn:U.
  - cbn [role content]. rewrite U. now rewrite second_pass.
  - now rewrite U.
Qed.

Lemma mapi_prepared_twice : forall all all' l i,
    mapi_from (prepared all') i (mapi_from (prepared all) i l)
    = mapi_from (prepared all) i l.
Proof.
  intros all all' l. induction l as [|msg l IH]; intros i; [reflexivity|].
  cbn [mapi_from]. now rewrite prepared_twice, IH.
Qed.

(** X20. Preparing the messages of a request a second time changes nothing,
    when the messages are written in ASCII characters: a conversation whose
    user messages went through the relay once is sent to the backend as it is
    when it comes back in a later request. *)
Theorem preparation_idempotent : forall DEFAULT_MODEL request model' stream',
    forallb (fun msg => ascii_text (content msg)) (messages request) = true ->
    o_messages
      (ollama_request DEFAULT_MODEL
         (mkChatRequest model'
            (o_messages (ollama_request DEFAULT_MODEL request)) stream'))
    = o_messages (ollama_request DEFAULT_MODEL request).
Proof.
  intros D request model' stream' _. unfold ollama_request. cbn [o_messages].
  unfold fine_tuned_messages. cbn [messages].
  rewrite !fine_tune_loop_mapi. cbn [app].
  apply mapi_prepared_twice.
Qed.

Lemma preparation_idempotent_witness :
  let request :=
    mkChatRequest "phi3"
      [mkMessage "system" "be brief"; mkMessage "user" "whats  teh time";
       mkMessage "assistant" "noon"; mkMessage "user" "thanks"] true in
  o_messages
    (ollama_request "phi3:mini-128k"
       (mkChatRequest "llama3"
          (o_messages (ollama_request "phi3:mini-128k" request)) false))
  = o_messages (ollama_request "phi3:mini-128k" request).
Proof. apply preparation_idempotent. reflexivity. Defined.

(** ** Lines that pass through *)

(** A line that is not empty and on which [json.loads] either raises
    [json.JSONDecodeError] or returns an object without an [error] key. *)
Definition passes_through (lim : Json.limits) (line : str) : bool :=
  match line with
  | [] => false
  | _ :: _ =>
      match Json.call lim line with
      | Json.DecodeError => true
      | Json.Value (JDict members) =>
          match Json.dict_get "error" members with
          | None => true
          | Some _ => false
          end
      | Json.Value _ | Json.OtherError => false
      end
  end.

Lemma passes_through_inspect : forall lim model_name line,
    passes_through lim line = true -> line <> [] /\ inspect lim model_name line = Pass.
Proof.
  intros lim mn line H. unfold passes_through in H.
  destruct line as [|c l]; [discriminate H|]. split; [discriminate|].
  destruct (Json.call lim (c :: l)) as [v| |] eqn:E;
    [|now apply inspect_not_json|discriminate H].
  destruct v; try discriminate H.
  destruct (Json.dict_get "error" members) eqn:K; [discriminate H|].
  now apply (inspect_no_error_key lim mn _ members).
Qed.

(** X21. When the backend answers 200 and, for every line it sends, the line
    is not empty and [json.loads] either raises [json.JSONDecodeError] or
    returns an object without an [error] key, the relay yields exactly these
    lines, each once and in the order of the backend.  (A line on which
    [json.loads] raises another exception is dropped and is not such a
    line.) *)
Theorem opaque_lines_forwarded :
  forall URL DEFAULT_MODEL lim backend request body lines,
    backend (ollama_request DEFAULT_MODEL request) = Response 200 body lines None ->
    forallb (passes_through lim) lines = true ->
    stream_response URL DEFAULT_MODEL lim backend request = map Forwarded lines.
Proof.
  intros URL D lim backend request body lines E H.
  unfold stream_response. rewrite E. cbn [Z.eqb negb Pos.eqb].
  apply relay_lines_pass. rewrite Forall_forall. intros l Hl.
  rewrite forallb_forall in H. now apply passes_through_inspect, H.
Qed.

Lemma opaque_lines_forwarded_witness :
  stream_response "http://localhost:11434" "phi3:mini-128k"
    (Json.mkLimits 4300 (Some 1))
    (fun _ => Response 200 (Body None)
                [dq "{'message': 'Hi', 'done': false}" : str;
                 "not json" : str] None)
    (mkChatRequest "xyz" [] true)
  = map Forwarded [dq "{'message': 'Hi', 'done': false}" : str;
                   "not json" : str].
Proof. apply (opaque_lines_forwarded _ _ _ _ _ (Body None)); reflexivity. Defined.

(** A line that meets a limit of the interpreter is dropped: an object nested
    in an object when one level is left, and nothing else comes out. *)
Example nested_line_dropped :
  stream_response "http://localhost:11434" "phi3:mini-128k"
    (Json.mkLimits 4300 (Some 1))
    (fun _ => Response 200 (Body None)
                [dq "{'message': {'content': 'Hi'}, 'done': false}" : str] None)
    (mkChatRequest "xyz" [] true)
  = [].
Proof. reflexivity. Qed.

(** A line that meets the digit limit is dropped, although without the limit
    it would end the stream: an object with an [error] key and an integer of
    4301 digits, under the limit of 4300 digits. *)
Example long_integer_line_dropped :
  let line := dq "{'error':'timeout','n':" ++ repeat "1"%char 4301 ++ "}" in
  inspect (Json.mkLimits 4300 None) "phi3" line = Swallowed /\
  inspect Json.unlimited "phi3" line
  = Stop (ErrorEvent (JStr (timeout_guidance "phi3"))).
Proof. vm_compute. split; reflexivity. Qed.

(** ** The result of a message of ASCII characters *)

Lemma ascii_text_app : forall x y, ascii_text (x ++ y) = ascii_text x && ascii_text y.
Proof. intros. apply forallb_app. Qed.

Lemma ascii_strip : forall s, ascii_text s = true -> ascii_text (Py.strip s) = true.
Proof.
  intros s H. unfold Py.strip.
  destruct (lstrip_by_suffix Py.isspace s) as (z & E & _).
  rewrite E, ascii_text_app in H. apply andb_true_iff in H as [_ H].
  destruct (rstrip_by_split Py.isspace (Py.lstrip_by Py.isspace s)) as (z' & E' & _).
  rewrite E', ascii_text_app in H. now apply andb_true_iff in H as [H _].
Qed.

Lemma ascii_scan : forall alts repl s o,
    (forall m, ascii_text m = true -> ascii_text (repl m) = true) ->
    Scan alts repl s o -> ascii_text s = true -> ascii_text o = true.
Proof.
  intros alts repl s o R H. induction H as [|c s o Hc H IH|w s o Hw Hall Hs M H IH
                                           |m s o Hm M Hs H IH]; intros A.
  - reflexivity.
  - cbn [ascii_text forallb] in *. apply andb_true_iff in A as [-> A]. now apply IH.
  - rewrite ascii_text_app in *. apply andb_true_iff in A as [-> A]. now apply IH.
  - rewrite ascii_text_app in *. apply andb_true_iff in A as [Am A].
    now rewrite (R m Am), (IH A).
Qed.

Lemma ascii_apostrophe : forall m, ascii_text m = true -> ascii_text (apostrophe m) = true.
Proof.
  intros m H. unfold apostrophe. rewrite !ascii_text_app.
  rewrite <- (firstn_skipn 1 m), ascii_text_app in H.
  apply andb_true_iff in H as [-> ->]. reflexivity.
Qed.

Lemma ascii_stage1 : forall s,
    ascii_text s = true -> ascii_text (run_repairs repairs s) = true.
Proof.
  assert (G : forall rs,
             Forall (fun r => wf_alts (fst r) = true /\
                              forall m, ascii_text m = true ->
                                        ascii_text (snd r m) = true) rs ->
             forall s, ascii_text s = true -> ascii_text (run_repairs rs s) = true).
  { intros rs H. induction H as [|[alts repl] rs [W R] _ IH]; intros s A; [exact A|].
    simpl. apply IH. eapply ascii_scan; [exact R|apply scan_sub, W|exact A]. }
  apply G. unfold repairs, common_fixes. cbn [map fst snd].
  repeat (apply Forall_cons; [split; [reflexivity|]|]).
  - exact ascii_apostrophe.
  - reflexivity.
  - reflexivity.
  - reflexivity.
  - reflexivity.
  - constructor.
Qed.

Lemma ascii_clarify : forall s, ascii_text s = true -> ascii_text (clarify s) = true.
Proof.
  intros s H. destruct (clarify_cases s) as [-> | ->]; [exact H|].
  now rewrite ascii_text_app, H.
Qed.

Lemma ascii_question_format : forall s,
    ascii_text s = true -> ascii_text (question_format s) = true.
Proof.
  intros s H. unfold question_format.
  destruct (_ && _); [|exact H]. destruct (negb _); [|exact H].
  unfold Py.rstrip_chars.
  destruct (rstrip_by_split (fun c => existsb (Ascii.eqb c) (".!" : str)) s) as (z & E & _).
  rewrite E, ascii_text_app in H. apply andb_true_iff in H as [H _].
  now rewrite ascii_text_app, H.
Qed.

Lemma ascii_collapse : forall s run,
    ascii_text s = true -> ascii_text (Re.collapse_from run s) = true.
Proof.
  induction s as [|c s IH]; intros run H; [reflexivity|].
  cbn [ascii_text forallb] in H. apply andb_true_iff in H as [Hc H].
  cbn [Re.collapse_from]. destruct (Py.isspace c).
  - destruct run; [now apply IH|]. cbn [ascii_text forallb].
    change (Py.code " " <? 128) with true. now apply IH.
  - cbn [ascii_text forallb]. rewrite Hc. now apply IH.
Qed.

Lemma ascii_upper : forall c,
    (Py.code c <? 128) = true -> (Py.code (Py.upper_char c) <? 128) = true.
Proof. intro c. char_cases c. Qed.

Lemma ascii_capitalize : forall s, ascii_text s = true -> ascii_text (capitalize s) = true.
Proof.
  intros s H. destruct (capitalize_cases s) as [->|(c & t & -> & -> & _)]; [exact H|].
  cbn [ascii_text forallb] in *. apply andb_true_iff in H as [Hc ->].
  now rewrite (ascii_upper c Hc).
Qed.

Lemma ascii_sentence_end : forall s,
    ascii_text s = true -> ascii_text (sentence_end s) = true.
Proof.
  intros s H. destruct (sentence_end_cases s) as [->|(-> & _)]; [exact H|].
  now rewrite ascii_text_app, H.
Qed.

(** X25. The result for a message of ASCII characters is again a text of ASCII
    characters. *)
Theorem result_is_ascii : forall m ctx,
    ascii_text m = true -> ascii_text (fine_tune_user_message m ctx) = true.
Proof.
  intros m ctx H. destruct (fine_tune_cases m ctx) as [[-> _]|[-> _]]; [exact H|].
  unfold pipeline. rewrite stage1_repairs.
  apply ascii_sentence_end, ascii_capitalize.
  unfold normalize_whitespace, Re.collapse.
  apply ascii_strip, ascii_collapse, ascii_question_format, ascii_clarify,
    ascii_stage1, ascii_strip, H.
Qed.

Lemma result_is_ascii_witness :
  ascii_text (fine_tune_user_message "whats  teh time" None) = true.
Proof. apply result_is_ascii. reflexivity. Defined.

(** ** Questions and statements of three tokens and more *)

(** X23. A message of ASCII characters that has at least three tokens, whose
    first token is an interrogative word and which, surrounding whitespace
    apart, ends neither in [?] nor in [.], gets a question mark: its result
    ends in [?]. *)
Theorem question_mark_for_longer_messages : forall m ctx,
    ascii_text m = true ->
    first_token_is_question m = true ->
    Py.endswith "?" (Py.strip m) = false ->
    Py.endswith "." (Py.strip m) = false ->
    3 <= length (Py.split m) ->
    Py.endswith "?" (fine_tune_user_message m ctx) = true.
Proof. intros m ctx _. apply question_mark_appended. Qed.

Lemma question_mark_for_longer_messages_witness :
  Py.endswith "?" (fine_tune_user_message "Could you fix this!" None) = true.
Proof.
  apply question_mark_for_longer_messages.
  - reflexivity.
  - reflexivity.
  - reflexivity.
  - reflexivity.
  - vm_compute. lia.
Defined.

(** X24. The result for a message of ASCII characters in which no
    interrogative word occurs, not even inside another word, does not end in
    a letter or a digit: the last stage has given it a period where it ended
    in one. *)
Theorem period_unless_question_word : forall m ctx,
    ascii_text m = true ->
    mentions_question_word (fine_tune_user_message m ctx) = false ->
    ends_alnum (fine_tune_user_message m ctx) = false.
Proof. intros m ctx _. apply plain_result_is_ended. Qed.

Lemma period_unless_question_word_witness :
  ends_alnum (fine_tune_user_message "fix bug" None) = false.
Proof. apply period_unless_question_word; reflexivity. Defined.
